(** * FASTSIM-PRO v4 (file.user.js): the hybrid scheduler, embedded and verified

    The userscript keeps one global [state] object, a queue of video
    elements, and a handful of callbacks that the browser runs to
    completion one after the other (microtasks, timers, the mutation
    observer).  The embedding follows that shape:

    - numbers that the script treats as integers (counters, concurrency)
      are [Z]; the other numbers are rationals [Q].  Positions and the
      mean that [status()] reports are computed as the script computes
      them, in doubles: every sum, difference and quotient is rounded to
      the nearest double ([JS.fl]).  Measured times and delays, which only
      feed comparisons with thresholds, are kept exact;
    - a video element is a record; the page's elements live in a store
      indexed by identity, and the queue holds identities, so that two
      references to one element are the same element;
    - every callback is a computation in a state monad over [World];
    - [processOneHybrid] is an async function: it runs synchronously up to
      its first [await], is parked in [suspended], and is resumed by the
      timeout it armed; a finished call leaves its [.finally] callback
      pending in [settled];
    - [performance.now()] and [Date.now()] are oracles of the environment,
      read in order. *)

From Stdlib Require Import ZArith QArith Qround Qminmax Qabs Qpower List String Ascii Bool Lia Lqa
  DecimalString DecimalN DecimalPos.
Import ListNotations.

Local Open Scope Z_scope.

(** ** JavaScript arithmetic used by the script *)

Module JS.

(** [x || d] on numbers: [0] is falsy. *)
Definition or_default (x d : Q) : Q := if Qeq_bool x 0 then d else x.

(** [Boolean(x)] on a number. *)
Definition truthy (x : Q) : bool := negb (Qeq_bool x 0).

Definition ltb (a b : Q) : bool := negb (Qle_bool b a).
Definition leb (a b : Q) : bool := Qle_bool a b.

(** [Math.round]: the nearest integer, ties towards plus infinity. *)
Definition round (x : Q) : Z := Qfloor (x + (1 # 2)).

(** [Number.MAX_VALUE]. *)
Definition MAX_VALUE : Q := inject_Z (2 ^ 1024 - 2 ^ 971).

Definition sum (l : list Q) : Q := fold_left Qplus l 0%Q.

Definition of_len {A} (l : list A) : Q := inject_Z (Z.of_nat (List.length l)).

(** *** Doubles *)

(** The exponent of a positive rational: the [e] with [2^e <= x < 2^(e+1)]. *)
Definition ilog2 (x : Q) : Z :=
  let k := Z.log2 (Qnum x) - Z.log2 (Zpos (Qden x)) in
  if Qle_bool (2 ^ k) x then k else k - 1.

(** The nearest integer, ties to the even one. *)
Definition round_even (x : Q) : Z :=
  let f := Qfloor x in
  match (x - inject_Z f ?= 1 # 2)%Q with
  | Lt => f
  | Gt => f + 1
  | Eq => if Z.even f then f else f + 1
  end.

(** The double nearest to [x]: IEEE 754 binary64, round to nearest, ties
    to even; 53 significant bits, least exponent -1074.  The result is in
    lowest terms.  Overflow is left out: where IEEE 754 gives an infinity,
    [fl] gives the value above [Number.MAX_VALUE] that rounding with an
    unbounded exponent gives.  The script rounds positions, which are
    capped by the duration or absorbed long before (a step of [1e12] is
    absorbed from [2^93] on), and the mean of [status()]. *)
Definition fl (x : Q) : Q :=
  if Qeq_bool x 0 then 0%Q
  else
    let a := Qabs x in
    let p := Z.max (ilog2 a) (-1022) - 52 in
    let y := Qred (inject_Z (round_even (a / 2 ^ p)) * 2 ^ p) in
    if Qle_bool 0 x then y else (- y)%Q.

(** [a + b], [a - b] and [a / b] on doubles. *)
Definition add (a b : Q) : Q := fl (a + b).
Definition sub (a b : Q) : Q := fl (a - b).
Definition div (a b : Q) : Q := fl (a / b).

(** The literal [0.001]. *)
Definition milli : Q := fl (1 # 1000).

End JS.

Arguments JS.fl : simpl never.
Arguments JS.milli : simpl never.

(** ** Configuration (lines 11-28) *)

Record Conf := mkConf {
  concurrencyMin : Z;
  concurrencyMax : Z;
  concurrencyInit : Z;
  batchDelayMin : Q;
  batchDelayMax : Q;
  batchDelayInit : Q;
  preferInstantReadyState : Z;
  skipStepBase : Q;
  skipStepMax : Q;
  skipTickMs : Q;
  adaptWindowMs : Q;
  adaptTargetWorkMs : Q;
  cleanupAfterFinish : bool;
  cleanupOnlyBlobSrc : bool;
  toastOnDone : bool;
  silent : bool
}.

(** [CONF] as the script builds it; [hc] is [navigator.hardwareConcurrency]
    ([None] when the browser does not define it, [0] is falsy). *)
Definition CONF (hc : option Z) : Conf := {|
  concurrencyMin := 1;
  concurrencyMax :=
    Z.max 2 (match hc with
             | Some n => if n =? 0 then 4 else Z.min 8 n
             | None => 4
             end);
  concurrencyInit := 3;
  batchDelayMin := 20;
  batchDelayMax := 600;
  batchDelayInit := 200;
  preferInstantReadyState := 2;
  skipStepBase := inject_Z (10 ^ 12);
  skipStepMax := inject_Z (10 ^ 18);
  skipTickMs := 20;
  adaptWindowMs := 2000;
  adaptTargetWorkMs := 12;
  cleanupAfterFinish := true;
  cleanupOnlyBlobSrc := true;
  toastOnDone := false;
  silent := true
|}.

(** ** Data model *)

(** A video element is known by its identity. *)
Definition Id := nat.

(** The part of a video element the script reads and writes.
    [readyState = None]: [typeof video.readyState] is not ["number"].
    [duration = None]: the duration is not finite (NaN or Infinity).
    [seek_raises x]: assigning [x] to [currentTime] throws;
    [mute_raises], [pause_raises]: assigning [muted], calling [pause()],
    throws. *)
Record Video := mkVideo {
  readyState : option Z;
  duration : option Q;
  currentTime : Q;
  muted : bool;
  paused : bool;
  fsim_done : bool;
  seek_raises : Q -> bool;
  mute_raises : bool;
  pause_raises : bool
}.

Definition set_currentTime (x : Q) (v : Video) : Video :=
  mkVideo (readyState v) (duration v) x (muted v) (paused v) (fsim_done v) (seek_raises v)
    (mute_raises v) (pause_raises v).
Definition set_muted (b : bool) (v : Video) : Video :=
  mkVideo (readyState v) (duration v) (currentTime v) b (paused v) (fsim_done v) (seek_raises v)
    (mute_raises v) (pause_raises v).
Definition set_paused (b : bool) (v : Video) : Video :=
  mkVideo (readyState v) (duration v) (currentTime v) (muted v) b (fsim_done v) (seek_raises v)
    (mute_raises v) (pause_raises v).
Definition set_fsim_done (b : bool) (v : Video) : Video :=
  mkVideo (readyState v) (duration v) (currentTime v) (muted v) (paused v) b (seek_raises v)
    (mute_raises v) (pause_raises v).

(** [{ t: Date.now(), ms: ... }] *)
Record Sample := mkSample { t : Q; ms : Q }.

(** The [state] object (lines 31-47); [observer] and [healTimer] hold
    whether the field is non-null. *)
Record State := mkState {
  running : bool;
  concurrency : Z;
  batchDelay : Q;
  skipStep : Q;
  queue : list Id;
  processingCount : Z;
  doneCount : Z;
  seenCount : Z;
  readySuccess : Z;
  readyFailure : Z;
  lastWorkSamples : list Sample;
  observer : bool;
  healTimer : bool;
  taskScheduled : bool
}.

Definition set_running b s :=
  mkState b (concurrency s) (batchDelay s) (skipStep s) (queue s) (processingCount s)
    (doneCount s) (seenCount s) (readySuccess s) (readyFailure s) (lastWorkSamples s)
    (observer s) (healTimer s) (taskScheduled s).
Definition set_concurrency c s :=
  mkState (running s) c (batchDelay s) (skipStep s) (queue s) (processingCount s)
    (doneCount s) (seenCount s) (readySuccess s) (readyFailure s) (lastWorkSamples s)
    (observer s) (healTimer s) (taskScheduled s).
Definition set_batchDelay d s :=
  mkState (running s) (concurrency s) d (skipStep s) (queue s) (processingCount s)
    (doneCount s) (seenCount s) (readySuccess s) (readyFailure s) (lastWorkSamples s)
    (observer s) (healTimer s) (taskScheduled s).
Definition set_skipStep k s :=
  mkState (running s) (concurrency s) (batchDelay s) k (queue s) (processingCount s)
    (doneCount s) (seenCount s) (readySuccess s) (readyFailure s) (lastWorkSamples s)
    (observer s) (healTimer s) (taskScheduled s).
Definition set_queue q s :=
  mkState (running s) (concurrency s) (batchDelay s) (skipStep s) q (processingCount s)
    (doneCount s) (seenCount s) (readySuccess s) (readyFailure s) (lastWorkSamples s)
    (observer s) (healTimer s) (taskScheduled s).
Definition set_processingCount n s :=
  mkState (running s) (concurrency s) (batchDelay s) (skipStep s) (queue s) n
    (doneCount s) (seenCount s) (readySuccess s) (readyFailure s) (lastWorkSamples s)
    (observer s) (healTimer s) (taskScheduled s).
Definition set_doneCount n s :=
  mkState (running s) (concurrency s) (batchDelay s) (skipStep s) (queue s) (processingCount s)
    n (seenCount s) (readySuccess s) (readyFailure s) (lastWorkSamples s)
    (observer s) (healTimer s) (taskScheduled s).
Definition set_seenCount n s :=
  mkState (running s) (concurrency s) (batchDelay s) (skipStep s) (queue s) (processingCount s)
    (doneCount s) n (readySuccess s) (readyFailure s) (lastWorkSamples s)
    (observer s) (healTimer s) (taskScheduled s).
Definition set_readySuccess n s :=
  mkState (running s) (concurrency s) (batchDelay s) (skipStep s) (queue s) (processingCount s)
    (doneCount s) (seenCount s) n (readyFailure s) (lastWorkSamples s)
    (observer s) (healTimer s) (taskScheduled s).
Definition set_readyFailure n s :=
  mkState (running s) (concurrency s) (batchDelay s) (skipStep s) (queue s) (processingCount s)
    (doneCount s) (seenCount s) (readySuccess s) n (lastWorkSamples s)
    (observer s) (healTimer s) (taskScheduled s).
Definition set_lastWorkSamples l s :=
  mkState (running s) (concurrency s) (batchDelay s) (skipStep s) (queue s) (processingCount s)
    (doneCount s) (seenCount s) (readySuccess s) (readyFailure s) l
    (observer s) (healTimer s) (taskScheduled s).
Definition set_observer b s :=
  mkState (running s) (concurrency s) (batchDelay s) (skipStep s) (queue s) (processingCount s)
    (doneCount s) (seenCount s) (readySuccess s) (readyFailure s) (lastWorkSamples s)
    b (healTimer s) (taskScheduled s).
Definition set_healTimer b s :=
  mkState (running s) (concurrency s) (batchDelay s) (skipStep s) (queue s) (processingCount s)
    (doneCount s) (seenCount s) (readySuccess s) (readyFailure s) (lastWorkSamples s)
    (observer s) b (taskScheduled s).
Definition set_taskScheduled b s :=
  mkState (running s) (concurrency s) (batchDelay s) (skipStep s) (queue s) (processingCount s)
    (doneCount s) (seenCount s) (readySuccess s) (readyFailure s) (lastWorkSamples s)
    (observer s) (healTimer s) b.

(** What the script does to the page and to its collaborators, in order. *)
Inductive Effect :=
| Launched (v : Id)                  (* processOneHybrid(v) was called *)
| Stepped (v : Id)                   (* the stepping loop wrote a position *)
| Dispatched (v : Id) (ev : string)  (* video.dispatchEvent(new Event(ev)) *)
| CleanedUp (v : Id)                 (* cleanupVideoResources(v) *)
| Toast (n : Z).                     (* showToast(`Done: ${n}`) *)

(** A call of [processOneHybrid] parked at the [await] of line 223: its
    argument and the locals that are live across the suspension. *)
Record Task := mkTask { task_video : Id; task_start : Q; task_step : Q }.

Record World := mkWorld {
  conf : Conf;
  st : State;
  videos : Id -> Video;
  suspended : list Task;       (* calls waiting for their setTimeout(res, 0) *)
  settled : nat;               (* .finally callbacks not yet run *)
  drains : nat;                (* queued drainTaskBatch microtasks *)
  periodicEnq : option Q;      (* period of the interval of line 352, if armed *)
  periodicDrain : option Q;    (* period of the interval of line 354, if armed *)
  effects : list Effect;
  perf_now : nat -> Q;         (* successive readings of performance.now() *)
  date_now : nat -> Q;         (* successive readings of Date.now() *)
  perf_reads : nat;
  date_reads : nat;
  observing : bool;            (* the observer in state.observer is connected *)
  stray : bool                 (* an observer the script lost is still connected *)
}.

Definition with_st (f : State -> State) (w : World) : World :=
  mkWorld (conf w) (f (st w)) (videos w) (suspended w) (settled w) (drains w)
    (periodicEnq w) (periodicDrain w) (effects w) (perf_now w) (date_now w)
    (perf_reads w) (date_reads w) (observing w) (stray w).
Definition with_videos (f : (Id -> Video) -> (Id -> Video)) (w : World) : World :=
  mkWorld (conf w) (st w) (f (videos w)) (suspended w) (settled w) (drains w)
    (periodicEnq w) (periodicDrain w) (effects w) (perf_now w) (date_now w)
    (perf_reads w) (date_reads w) (observing w) (stray w).
Definition with_suspended (f : list Task -> list Task) (w : World) : World :=
  mkWorld (conf w) (st w) (videos w) (f (suspended w)) (settled w) (drains w)
    (periodicEnq w) (periodicDrain w) (effects w) (perf_now w) (date_now w)
    (perf_reads w) (date_reads w) (observing w) (stray w).
Definition with_settled (f : nat -> nat) (w : World) : World :=
  mkWorld (conf w) (st w) (videos w) (suspended w) (f (settled w)) (drains w)
    (periodicEnq w) (periodicDrain w) (effects w) (perf_now w) (date_now w)
    (perf_reads w) (date_reads w) (observing w) (stray w).
Definition with_drains (f : nat -> nat) (w : World) : World :=
  mkWorld (conf w) (st w) (videos w) (suspended w) (settled w) (f (drains w))
    (periodicEnq w) (periodicDrain w) (effects w) (perf_now w) (date_now w)
    (perf_reads w) (date_reads w) (observing w) (stray w).
Definition with_periodicEnq (p : option Q) (w : World) : World :=
  mkWorld (conf w) (st w) (videos w) (suspended w) (settled w) (drains w)
    p (periodicDrain w) (effects w) (perf_now w) (date_now w)
    (perf_reads w) (date_reads w) (observing w) (stray w).
Definition with_periodicDrain (p : option Q) (w : World) : World :=
  mkWorld (conf w) (st w) (videos w) (suspended w) (settled w) (drains w)
    (periodicEnq w) p (effects w) (perf_now w) (date_now w)
    (perf_reads w) (date_reads w) (observing w) (stray w).
Definition with_effects (f : list Effect -> list Effect) (w : World) : World :=
  mkWorld (conf w) (st w) (videos w) (suspended w) (settled w) (drains w)
    (periodicEnq w) (periodicDrain w) (f (effects w)) (perf_now w) (date_now w)
    (perf_reads w) (date_reads w) (observing w) (stray w).
Definition with_perf_reads (f : nat -> nat) (w : World) : World :=
  mkWorld (conf w) (st w) (videos w) (suspended w) (settled w) (drains w)
    (periodicEnq w) (periodicDrain w) (effects w) (perf_now w) (date_now w)
    (f (perf_reads w)) (date_reads w) (observing w) (stray w).
Definition with_date_reads (f : nat -> nat) (w : World) : World :=
  mkWorld (conf w) (st w) (videos w) (suspended w) (settled w) (drains w)
    (periodicEnq w) (periodicDrain w) (effects w) (perf_now w) (date_now w)
    (perf_reads w) (f (date_reads w)) (observing w) (stray w).
Definition with_observing (b : bool) (w : World) : World :=
  mkWorld (conf w) (st w) (videos w) (suspended w) (settled w) (drains w)
    (periodicEnq w) (periodicDrain w) (effects w) (perf_now w) (date_now w)
    (perf_reads w) (date_reads w) b (stray w).
Definition with_stray (b : bool) (w : World) : World :=
  mkWorld (conf w) (st w) (videos w) (suspended w) (settled w) (drains w)
    (periodicEnq w) (periodicDrain w) (effects w) (perf_now w) (date_now w)
    (perf_reads w) (date_reads w) (observing w) b.

(** ** The monad of callbacks *)

Definition M (A : Type) : Type := World -> A * World.

Definition ret {A} (a : A) : M A := fun w => (a, w).
Definition bind {A B} (m : M A) (k : A -> M B) : M B :=
  fun w => let (a, w') := m w in k a w'.
Definition gets {A} (f : World -> A) : M A := fun w => (f w, w).
Definition modify (f : World -> World) : M unit := fun w => (tt, f w).
Definition exec {A} (m : M A) (w : World) : World := snd (m w).

Declare Scope js_scope.
Delimit Scope js_scope with js.
Notation "x <- m ;; k" := (bind m (fun x => k))
  (at level 61, m at next level, right associativity) : js_scope.
Notation "m ;; k" := (bind m (fun _ => k))
  (at level 61, right associativity) : js_scope.
Local Open Scope js_scope.

Definition when (b : bool) (m : M unit) : M unit := if b then m else ret tt.

Definition state_ {A} (f : State -> A) : M A := gets (fun w => f (st w)).
Definition update (f : State -> State) : M unit := modify (with_st f).
Definition config {A} (f : Conf -> A) : M A := gets (fun w => f (conf w)).
Definition video (v : Id) : M Video := gets (fun w => videos w v).
Definition update_video (v : Id) (f : Video -> Video) : M unit :=
  modify (with_videos (fun vs i => if Nat.eqb i v then f (vs i) else vs i)).
Definition emit (e : Effect) : M unit := modify (with_effects (fun l => l ++ [e])).

Definition performance_now : M Q :=
  x <- gets (fun w => perf_now w (perf_reads w)) ;;
  modify (with_perf_reads S) ;;
  ret x.

Definition Date_now : M Q :=
  x <- gets (fun w => date_now w (date_reads w)) ;;
  modify (with_date_reads S) ;;
  ret x.

(** ** Collaborators (lines 76-125)

    Both swallow every error of their own; the scheduler only depends on
    their being called.  [showToast] returns at once unless
    [CONF.toastOnDone] is set. *)

Definition cleanupVideoResources (v : Id) : M unit := emit (CleanedUp v).

Definition showToast (n : Z) : M unit := emit (Toast n).

(** ** Infinity core: the microtask drain (lines 130-170) *)

Definition scheduleTaskDrain : M unit :=
  scheduled <- state_ taskScheduled ;;
  if scheduled then ret tt
  else
    update (set_taskScheduled true) ;;
    modify (with_drains S).

(** [{ t: Date.now(), ms }] is pushed, then the window is applied with a
    second reading of the clock (lines 164-167 and 238-241). *)
Definition push_sample (x : Q) : M unit :=
  d <- Date_now ;;
  update (fun s => set_lastWorkSamples (lastWorkSamples s ++ [mkSample d x]) s) ;;
  d' <- Date_now ;;
  window <- config adaptWindowMs ;;
  let cutoff := (d' - window)%Q in
  update (fun s =>
    set_lastWorkSamples (filter (fun x => JS.leb cutoff (t x)) (lastWorkSamples s)) s).

(** ** Hybrid processing of one video (lines 173-243) *)

(** [isFinite(video.duration) && video.duration > 0].  The duration the
    element reports is a double: the one nearest to the rational that the
    record holds. *)
Definition known_duration (vd : Video) : option Q :=
  match duration vd with
  | Some d => if JS.ltb 0 (JS.fl d) then Some (JS.fl d) else None
  | None => None
  end.

Definition readyRate (s : State) : Q :=
  (inject_Z (readySuccess s + 1) / inject_Z (readySuccess s + readyFailure s + 2))%Q.

(** Lines 227-231 and the [finally] block of lines 235-242; the promise
    then settles, which queues the [.finally] callback of line 151.  The
    outer [catch] of line 232 has nothing to catch: every operation on the
    page above it is guarded by a [try] of its own. *)
Definition finish (v : Id) (start : Q) : M unit :=
  update_video v (set_fsim_done true) ;;
  update (fun s => set_doneCount (doneCount s + 1) s) ;;
  cleanupVideoResources v ;;
  n <- state_ doneCount ;;
  showToast n ;;
  now <- performance_now ;;
  push_sample (inject_Z (Z.max 0 (JS.round (now - start)))) ;;
  modify (with_settled S).

(** How a pass of an async call ends: at an [await], or by returning. *)
Inductive Outcome := Awaiting | Returned.

(** One pass of the stepping loop, from the test of line 206 to the
    [await] of line 223 or to the end of the call.  At the [await],
    [done] is false, so the test only reads [state.running].  The sums and
    differences of lines 209, 211, 213 and 218 are those of doubles. *)
Definition stepping (tk : Task) : M Outcome :=
  let v := task_video tk in
  let step := task_step tk in
  r <- state_ running ;;
  if negb r then finish v (task_start tk) ;; ret Returned
  else
    vd <- video v ;;
    let cur := JS.or_default (currentTime vd) 0 in
    match known_duration vd with
    | None =>
        let target := JS.add cur step in
        if seek_raises vd target then finish v (task_start tk) ;; ret Returned
        else
          update_video v (set_currentTime target) ;;
          emit (Stepped v) ;;
          ret Awaiting
    | Some d =>
        let remain := JS.sub d cur in
        if JS.leb remain (1 # 2) then
          let target := Qmax 0 (JS.sub d JS.milli) in
          if seek_raises vd target then finish v (task_start tk) ;; ret Returned
          else
            update_video v (set_currentTime target) ;;
            emit (Dispatched v "ended") ;;
            finish v (task_start tk) ;;
            ret Returned
        else
          let target := Qmin d (JS.add cur (Qmin step remain)) in
          if seek_raises vd target then finish v (task_start tk) ;; ret Returned
          else
            update_video v (set_currentTime target) ;;
            emit (Stepped v) ;;
            ret Awaiting
    end.

(** A pass, after which the call is parked until its timeout fires, or
    is over. *)
Definition resume (tk : Task) : M unit :=
  o <- stepping tk ;;
  match o with
  | Awaiting => modify (with_suspended (fun l => l ++ [tk]))
  | Returned => ret tt
  end.

(** The instant jump of lines 185-199.  An error of [muted] or [pause()]
    is swallowed on the spot; only an error of the position write reaches
    the [catch] of line 196. *)
Definition instant (v : Id) : M unit :=
  update_video v (fun vd => if mute_raises vd then vd else set_muted true vd) ;;
  update_video v (fun vd => if pause_raises vd then vd else set_paused true vd) ;;
  vd <- video v ;;
  let target :=
    match known_duration vd with
    | Some d => Qmax 0 (JS.sub d JS.milli)
    | None => JS.MAX_VALUE
    end in
  if seek_raises vd target then
    update (fun s => set_readyFailure (readyFailure s + 1) s)
  else
    update_video v (set_currentTime target) ;;
    emit (Dispatched v "timeupdate") ;;
    emit (Dispatched v "seeked") ;;
    emit (Dispatched v "pause") ;;
    emit (Dispatched v "ended") ;;
    update (fun s => set_readySuccess (readySuccess s + 1) s).

Definition processOneHybrid (v : Id) : M unit :=
  emit (Launched v) ;;
  start <- performance_now ;;
  vd <- video v ;;
  threshold <- config preferInstantReadyState ;;
  let ready :=
    match readyState vd with
    | Some r => threshold <=? r
    | None => true
    end in
  rate <- state_ readyRate ;;
  let preferInstant := ready && JS.ltb (2 # 5) rate in
  if ready && preferInstant then
    instant v ;;
    finish v start
  else
    base <- config skipStepBase ;;
    top <- config skipStepMax ;;
    k <- state_ skipStep ;;
    let step := Qmin (Qmin (JS.or_default base base) (JS.or_default k base)) top in
    resume (mkTask v start step).

(** ** Dynamic core balancer (lines 262-283) *)

(** [state.lastWorkSamples.map(s => s.ms).filter(Boolean)] and its mean. *)
Definition work_avg (samples : list Sample) : Q :=
  let arr := filter JS.truthy (map ms samples) in
  match arr with
  | [] => 0%Q
  | _ => (JS.sum arr / JS.of_len arr)%Q
  end.

Definition adaptCoreParameters : M unit :=
  samples <- state_ lastWorkSamples ;;
  let avg := work_avg samples in
  target <- config adaptTargetWorkMs ;;
  cmin <- config concurrencyMin ;;
  cmax <- config concurrencyMax ;;
  (if JS.ltb avg target then
     update (fun s => set_concurrency (Z.min cmax (concurrency s + 1)) s)
   else if JS.ltb (target * (9 # 5)) avg then
     update (fun s => set_concurrency (Z.max cmin (concurrency s - 1)) s)
   else ret tt) ;;
  rate <- state_ readyRate ;;
  base <- config skipStepBase ;;
  update (set_skipStep
    (if JS.ltb (3 # 5) rate then Qmax (base / 10) (base / 100) else base)) ;;
  init <- config batchDelayInit ;;
  dmin <- config batchDelayMin ;;
  dmax <- config batchDelayMax ;;
  (if JS.ltb (target * 2) avg then
     update (fun s => set_batchDelay (Qmin dmax (JS.or_default (batchDelay s) init * (3 # 2))) s)
   else
     update (fun s => set_batchDelay (Qmax dmin (JS.or_default (batchDelay s) init * (9 # 10))) s)) ;;
  (* Math.round is the identity on the integer the field holds *)
  update (fun s => set_concurrency (Z.max cmin (Z.min cmax (concurrency s))) s).

(** The [while] loop of lines 143-156.  [q] is the queue as it stands at
    the test; [processOneHybrid] does not touch the queue
    ([processOneHybrid_control] below), so the loop follows it
    structurally. *)
Fixpoint drain_loop (q : list Id) (processed : Z) : M unit :=
  match q with
  | [] => ret tt
  | v :: q' =>
      pc <- state_ processingCount ;;
      c <- state_ concurrency ;;
      if (pc <? c) && (processed <? c) then
        update (set_queue q') ;;
        vd <- video v ;;
        if fsim_done vd then drain_loop q' processed
        else
          update (fun s => set_processingCount (processingCount s + 1) s) ;;
          processOneHybrid v ;;
          drain_loop q' (processed + 1)
      else ret tt
  end.

Definition drainTaskBatch : M unit :=
  t0 <- performance_now ;;
  q <- state_ queue ;;
  drain_loop q 0 ;;
  update (set_taskScheduled false) ;;
  t1 <- performance_now ;;
  push_sample (Qmax 0 (t1 - t0)) ;;
  adaptCoreParameters.

(** The callback of lines 151-155, run when a call has settled. *)
Definition finally_callback : M unit :=
  update (fun s => set_processingCount (Z.max 0 (processingCount s - 1)) s) ;;
  q <- state_ queue ;;
  when (negb (Nat.eqb (List.length q) 0)) scheduleTaskDrain.

(** ** Queuing (lines 246-259); [vids] is what [findVideos(document)] found *)

Fixpoint enqueue_each (vids : list Id) : M unit :=
  match vids with
  | [] => ret tt
  | v :: rest =>
      vd <- video v ;;
      (if fsim_done vd then ret tt
       else
         q <- state_ queue ;;
         when (negb (existsb (Nat.eqb v) q)) (update (set_queue (q ++ [v])))) ;;
      enqueue_each rest
  end.

Definition enqueueNewVideos (vids : list Id) : M unit :=
  enqueue_each vids ;;
  update (fun s =>
    set_seenCount
      (Z.max (seenCount s)
         (Z.of_nat (List.length (queue s)) + processingCount s + doneCount s)) s) ;;
  q <- state_ queue ;;
  when (negb (Nat.eqb (List.length q) 0)) scheduleTaskDrain.

(** ** Observer, self-heal and the public API (lines 286-329) *)

(** Which of the observer's calls throw, as the page decides when a
    callback makes them: [disconnect()], [new MutationObserver(...)] and
    [observe(...)]. *)
Record Faults := mkFaults {
  disconnect_raises : bool;
  construct_raises : bool;
  observe_raises : bool
}.

(** Lines 286-298.  An error of [disconnect()] is swallowed on the spot
    and leaves the old observer connected; an error of the constructor
    leaves [state.observer] as it was; an error of [observe()] leaves in
    [state.observer] an observer that is not connected.  An observer that
    is replaced while still connected is out of the script's reach. *)
Definition installObserver (f : Faults) : M unit :=
  old <- state_ observer ;;
  when (old && negb (disconnect_raises f)) (modify (with_observing false)) ;;
  if construct_raises f then ret tt
  else
    live <- gets observing ;;
    when live (modify (with_stray true)) ;;
    update (set_observer true) ;;
    modify (with_observing (negb (observe_raises f))).

Definition startSelfHeal : M unit := update (set_healTimer true).

(** Lines 311-318.  When [disconnect()] throws, line 313 is left before
    [state.observer = null]: the observer stays, and stays connected. *)
Definition stopAll (f : Faults) : M unit :=
  update (set_running false) ;;
  o <- state_ observer ;;
  when (o && negb (disconnect_raises f))
    (modify (with_observing false) ;; update (set_observer false)) ;;
  update (set_healTimer false) ;;
  update (set_queue []).

(** [status()] (lines 319-329).  [avgWorkMs] is either the number [0] or
    the string that [toFixed(2)] returns. *)
Inductive JSValue :=
| JSNumber (x : Q)
| JSString (s : string).

Module Status.
Record t := mk {
  running : bool;
  concurrency : Z;
  queueLength : Z;
  processing : Z;
  done : Z;
  seen : Z;
  avgWorkMs : JSValue
}.
End Status.

Fixpoint zeros (k : nat) : string :=
  match k with
  | O => EmptyString
  | S k' => String "0" (zeros k')
  end.

Definition digits (n : Z) : string := NilZero.string_of_uint (N.to_uint (Z.to_N n)).

(** [state.lastWorkSamples.reduce((a,b)=>a+b.ms,0)/state.lastWorkSamples.length],
    in doubles. *)
Definition status_mean (samples : list Sample) : Q :=
  JS.div (fold_left (fun a b => JS.add a (ms b)) samples 0%Q) (JS.of_len samples).

Section ControlSurface.

(** [Number::toString] of the language, which [toFixed] falls back to for
    values of magnitude [10^21] and more. *)
Variable Number_toString : Q -> string.

(** [Number.prototype.toFixed(f)] on a finite number. *)
Definition toFixed (x : Q) (f : nat) : string :=
  let neg := JS.ltb x 0 in
  let x := if neg then (- x)%Q else x in
  let m :=
    if JS.leb (inject_Z (10 ^ 21)) x then Number_toString x
    else
      let n := Qfloor (x * inject_Z (10 ^ Z.of_nat f) + (1 # 2)) in
      let m := digits n in
      match f with
      | O => m
      | _ =>
          let k := String.length m in
          let m := if (k <=? f)%nat then (zeros (f + 1 - k) ++ m)%string else m in
          let k := String.length m in
          (substring 0 (k - f) m ++ "." ++ substring (k - f) f m)%string
      end in
  ((if neg then "-" else "") ++ m)%string.

Definition status : M Status.t :=
  r <- state_ running ;;
  c <- state_ concurrency ;;
  q <- state_ queue ;;
  p <- state_ processingCount ;;
  d <- state_ doneCount ;;
  n <- state_ seenCount ;;
  samples <- state_ lastWorkSamples ;;
  ret (Status.mk r c (Z.of_nat (List.length q)) p d n
         (match samples with
          | [] => JSNumber 0
          | _ => JSString (toFixed (status_mean samples) 2)
          end)).

End ControlSurface.

(** ** The callbacks the browser runs, and the bootstrap (lines 347-354) *)

Inductive Event :=
| RunDrain                                   (* a queued drainTaskBatch *)
| RunFinally                                 (* a queued .finally callback *)
| FireTimeout (k : nat)                      (* the timeout of the k-th parked call *)
| Mutation (added : bool) (vids : list Id)   (* a connected observer delivers records *)
| TickEnq (vids : list Id)                   (* periodicEnq *)
| TickDrain                                  (* periodicDrain *)
| TickHeal (f : Faults)                      (* the self-heal interval *)
| CallStop (f : Faults).                     (* __FASTSIM_PRO_V4__.stop() *)

Fixpoint remove_nth {A} (k : nat) (l : list A) : list A :=
  match l, k with
  | [], _ => []
  | _ :: r, O => r
  | x :: r, S k' => x :: remove_nth k' r
  end.

Definition handle (e : Event) : M unit :=
  match e with
  | RunDrain =>
      n <- gets drains ;;
      match n with
      | O => ret tt
      | S _ => modify (with_drains Nat.pred) ;; drainTaskBatch
      end
  | RunFinally =>
      n <- gets settled ;;
      match n with
      | O => ret tt
      | S _ => modify (with_settled Nat.pred) ;; finally_callback
      end
  | FireTimeout k =>
      l <- gets suspended ;;
      match nth_error l k with
      | None => ret tt
      | Some tk => modify (with_suspended (remove_nth k)) ;; resume tk
      end
  | Mutation added vids =>
      live <- gets (fun w => observing w || stray w) ;;
      when (live && added) (enqueueNewVideos vids)
  | TickEnq vids =>
      p <- gets periodicEnq ;;
      match p with
      | None => ret tt
      | Some _ =>
          r <- state_ running ;;
          if negb r then modify (with_periodicEnq None) else enqueueNewVideos vids
      end
  | TickDrain =>
      p <- gets periodicDrain ;;
      match p with
      | None => ret tt
      | Some _ =>
          r <- state_ running ;;
          if negb r then modify (with_periodicDrain None)
          else
            q <- state_ queue ;;
            when (negb (Nat.eqb (List.length q) 0)) scheduleTaskDrain
      end
  | TickHeal f =>
      h <- state_ healTimer ;;
      r <- state_ running ;;
      o <- state_ observer ;;
      when (h && r && negb o) (installObserver f)
  | CallStop f => stopAll f
  end.

Fixpoint run (evs : list Event) (w : World) : World :=
  match evs with
  | [] => w
  | e :: rest => run rest (exec (handle e) w)
  end.

(** The world when the script starts: the [state] literal of lines 31-47. *)
Definition initial (c : Conf) (vs : Id -> Video) (perf date : nat -> Q) : World := {|
  conf := c;
  st := {|
    running := true;
    concurrency := concurrencyInit c;
    batchDelay := batchDelayInit c;
    skipStep := skipStepBase c;
    queue := [];
    processingCount := 0;
    doneCount := 0;
    seenCount := 0;
    readySuccess := 0;
    readyFailure := 0;
    lastWorkSamples := [];
    observer := false;
    healTimer := false;
    taskScheduled := false
  |};
  videos := vs;
  suspended := [];
  settled := O;
  drains := O;
  periodicEnq := None;
  periodicDrain := None;
  effects := [];
  perf_now := perf;
  date_now := date;
  perf_reads := O;
  date_reads := O;
  observing := false;
  stray := false
|}.

Definition bootstrap (f : Faults) (vids : list Id) : M unit :=
  installObserver f ;;
  startSelfHeal ;;
  enqueueNewVideos vids ;;
  init <- config batchDelayInit ;;
  modify (with_periodicEnq (Some (Qmax 200 init))) ;;
  modify (with_periodicDrain (Some 120%Q)).

Definition booted (c : Conf) (vs : Id -> Video) (perf date : nat -> Q)
    (f : Faults) (vids : list Id) : World :=
  exec (bootstrap f vids) (initial c vs perf date).

(** A world the script can be in: the bootstrap followed by callbacks. *)
Definition reachable (w : World) : Prop :=
  exists hc vs perf date f vids evs, w = run evs (booted (CONF hc) vs perf date f vids).

(** ** Vocabulary of the statements *)

(** The mean as the specification words it: every retained sample counts,
    and an empty window gives 0. *)
Definition mean_of_all (samples : list Sample) : Q :=
  match samples with
  | [] => 0%Q
  | _ => (JS.sum (map ms samples) / JS.of_len samples)%Q
  end.

(** The test of line 183, as a function of the world. *)
Definition prefers_instant (w : World) (v : Id) : bool :=
  let ready :=
    match readyState (videos w v) with
    | Some r => preferInstantReadyState (conf w) <=? r
    | None => true
    end in
  ready && (ready && JS.ltb (2 # 5) (readyRate (st w))).

Definition is_launch (e : Effect) : bool :=
  match e with
  | Launched _ => true
  | _ => false
  end.

(** How many times [processOneHybrid] has been called so far. *)
Definition launches (w : World) : Z :=
  Z.of_nat (List.length (filter is_launch (effects w))).

Definition is_launch_of (v : Id) (e : Effect) : bool :=
  match e with
  | Launched u => Nat.eqb u v
  | _ => false
  end.

(** How many times [processOneHybrid] has been called on [v] so far. *)
Definition launched (v : Id) (w : World) : Z :=
  Z.of_nat (List.length (filter (is_launch_of v) (effects w))).

(** The video carries the done mark. *)
Definition marked (v : Id) (w : World) : Prop := fsim_done (videos w v) = true.

(** What happens on the page. *)
Definition page (w : World) := (videos w, effects w).

(** What the scheduler decides with, and what no page operation touches. *)
Definition control (w : World) :=
  (conf w, periodicEnq w, periodicDrain w,
   (running (st w), concurrency (st w), processingCount (st w), queue (st w))).

(** What the discovery poll depends on. *)
Definition poll (w : World) := (conf w, periodicEnq w, running (st w)).

(** Which observers are connected to the document. *)
Definition wires (w : World) := (observing w, stray w).

(** Firing [n] times the timeout of the call parked at position [k]. *)
Definition timeouts (k n : nat) : list Event := repeat (FireTimeout k) n.

(** The call on [v] that was running in [w] is over in [w']: the video is
    marked, counted, cleaned up and announced, in that order and last. *)
Definition finished (v : Id) (w w' : World) : Prop :=
  fsim_done (videos w' v) = true /\
  doneCount (st w') = doneCount (st w) + 1 /\
  (exists pre,
     effects w' = effects w ++ pre ++ [CleanedUp v; Toast (doneCount (st w) + 1)]) /\
  settled w' = S (settled w).

(** The distance the stepping loop still has to cover. *)
Definition remaining (d : Q) (vd : Video) : Q :=
  (d - JS.or_default (currentTime vd) 0)%Q.

(** The step of line 203, which a call of [processOneHybrid] made in [w]
    would use. *)
Definition stride (w : World) : Q :=
  Qmin (Qmin (JS.or_default (skipStepBase (conf w)) (skipStepBase (conf w)))
          (JS.or_default (skipStep (st w)) (skipStepBase (conf w))))
    (skipStepMax (conf w)).

(** A duration over which a step of [step] is never absorbed by the
    rounding of the position: [d <= 2^50 * min(step, 0.5)]. *)
Definition within_reach (d step : Q) : Prop :=
  (d <= inject_Z (2 ^ 50) * Qmin step (1 # 2))%Q.

(** What a pass of the stepping loop gains at least on such a duration. *)
Definition pace (step : Q) : Q := (Qmin step (1 # 2) * (3 # 4))%Q.

(** A double that is not negative: an integer of at most 53 bits times a
    power of two. *)
Definition is_double (x : Q) : Prop :=
  exists m p : Z, (x == inject_Z m * 2 ^ p)%Q /\ (0 <= m <= 2 ^ 53) /\ (-1074 <= p).

(** *** Reading a decimal numeral *)





(** *** Scenarios *)

(** A [<video>] whose metadata never loads: [readyState] 0, [duration] NaN. *)
Definition blank : Video :=
  mkVideo (Some 0) None 0 false false false (fun _ => false) false false.

(** A live stream ([duration] Infinity) that is ready to play and whose
    position cannot be set anywhere near [Number.MAX_VALUE]. *)
Definition live : Video :=
  mkVideo (Some 4) None 0 false false false
    (fun x => JS.leb (inject_Z (10 ^ 300)) x) false false.

(** A buffered video, 10 s long. *)
Definition clip : Video :=
  mkVideo (Some 3) (Some 10%Q) 0 false false false (fun _ => false) false false.

(** A buffered video on which [muted] and [pause()] throw. *)
Definition fussy : Video :=
  mkVideo (Some 3) (Some 10%Q) 0 false false false (fun _ => false) true true.

(** A video that is not buffered yet, 100 s long. *)
Definition buffering : Video :=
  mkVideo (Some 0) (Some 100%Q) 0 false false false (fun _ => false) false false.

(** A video that is not buffered yet and longer than several steps. *)
Definition long_video : Video :=
  mkVideo (Some 0) (Some (inject_Z (5 * 10 ^ 12))) 0 false false false
    (fun _ => false) false false.

(** A video of duration [1e300] that is not buffered yet and stands at
    [1e30]: at that position the doubles are [2^47] apart. *)
Definition endless : Video :=
  mkVideo (Some 0) (Some (inject_Z (10 ^ 300))) (JS.fl (inject_Z (10 ^ 30)))
    false false false (fun _ => false) false false.

(** A page on which no call of the observer throws. *)
Definition calm : Faults := mkFaults false false false.

(** A clock that does not advance between readings. *)
Definition still (n : nat) : Q := 0%Q.

(** A clock that advances by a fixed amount at every reading. *)
Definition ticking (ms_per_read : Z) (n : nat) : Q := inject_Z (ms_per_read * Z.of_nat n).

(** [performance.now()] when only the end of the first activation is late. *)
Definition late_end (n : nat) : Q := if Nat.eqb n 2 then 15%Q else 0%Q.

(** One blank video found at boot, one activation: the call is parked. *)
Definition one_parked : World :=
  run [RunDrain] (booted (CONF None) (fun _ => blank) still still calm [0%nat]).

(** The clip found at boot and processed by the first activation. *)
Definition clip_done : World :=
  run [RunDrain; RunFinally] (booted (CONF None) (fun _ => clip) still still calm [0%nat]).

(** A page whose first video is the clip and whose others never load. *)
Definition clip_then_blanks (v : Id) : Video := if Nat.eqb v 0 then clip else blank.

(** Five videos found at boot, the clip first, and one activation: the
    clip is done, two blank videos are in flight and two are pending. *)
Definition clip_done_two_pending : World :=
  run [RunDrain]
    (booted (CONF None) clip_then_blanks still still calm [0; 1; 2; 3; 4]%nat).

(** One blank video in flight and four more found by the observer. *)
Definition one_parked_four_pending : World :=
  run [Mutation true [1; 2; 3; 4]%nat] one_parked.

(** The endless video found at boot, one activation: the call is parked. *)
Definition endless_parked : World :=
  run [RunDrain] (booted (CONF None) (fun _ => endless) still still calm [0%nat]).

(** The long video found at boot, one activation: parked after one step. *)
Definition long_parked : World :=
  run [RunDrain] (booted (CONF None) (fun _ => long_video) still still calm [0%nat]).

(** Three blank videos found at boot, and an activation that took 40 ms. *)
Definition three_parked : World :=
  run [RunDrain] (booted (CONF None) (fun _ => blank) (ticking 10) still calm [0; 1; 2]%nat).


(** A window with one instant item (0 ms) and one slow activation (30 ms). *)
Definition zero_and_thirty : list Sample := [mkSample 0 0; mkSample 0 30].

(** ** Discovery (lines 54-73)

    [findVideos] only asks three things of a root: whether it has
    [querySelectorAll], what the three queries return, and what the
    [shadowRoot] of an element and the [contentDocument] of an iframe hold.
    A root is modelled by the answers; any of them can throw. *)

(** Reading [el.shadowRoot] or [fr.contentDocument]: [null] (no shadow
    root, a cross-origin frame), an exception, or a root. *)
Inductive Access (A : Type) :=
| Null
| Throws
| Holds (a : A).
Arguments Null {A}.
Arguments Throws {A}.
Arguments Holds {A} a.

(** [Array.from(root.querySelectorAll(selector))]: an exception or the
    matches in document order. *)
Inductive Query (A : Type) :=
| QThrows
| QResult (l : list A).
Arguments QThrows {A}.
Arguments QResult {A} l.

Scheme All for list.
Scheme All for Access.
Scheme All for Query.

(** A document or a shadow root: [queryable] says whether
    [root.querySelectorAll] is there; [vids], [all] and [frames] are the
    queries for ["video"], ["*"] and ["iframe"], the last two with what
    [shadowRoot] and [contentDocument] hold for each match. *)
Inductive Scope :=
| mkScope (queryable : bool) (vids : Query Id)
    (all : Query (Access Scope)) (frames : Query (Access Scope)).

(** [if (!out.includes(v)) out.push(v)] (line 59). *)
Definition push_new (out : list Id) (v : Id) : list Id :=
  if existsb (Nat.eqb v) out then out else out ++ [v].

(** One entry of the [for] loops over elements and iframes: the scope is
    scanned when the property holds one; a null property, or one whose
    read throws, leaves [out] as it is. *)
Definition visit (scan : Scope -> list Id -> list Id) (out : list Id)
    (slot : Access Scope) : list Id :=
  match slot with
  | Holds scope => scan scope out
  | _ => out
  end.

(** [out] is the array that the recursive calls share; a query that
    throws ends the scan of its root at the outer [catch] of line 71, with
    what has been pushed so far. *)
Fixpoint findVideos (root : Scope) (out : list Id) : list Id :=
  match root with
  | mkScope false _ _ _ => out
  | mkScope true vids all frames =>
      match vids with
      | QThrows => out
      | QResult vs =>
          let out := fold_left push_new vs out in
          match all with
          | QThrows => out
          | QResult els =>
              let out := fold_left (visit findVideos) els out in
              match frames with
              | QThrows => out
              | QResult frs => fold_left (visit findVideos) frs out
              end
          end
      end
  end.

(** The videos a scan can reach: those the root lists, and those reachable
    through a shadow root or a frame document that can be read, as long as
    the queries made before did not throw. *)
Inductive visible : Scope -> Id -> Prop :=
| visible_here v vs all frames :
    In v vs -> visible (mkScope true (QResult vs) all frames) v
| visible_in_shadow v vs els frames shadow :
    In (Holds shadow) els -> visible shadow v ->
    visible (mkScope true (QResult vs) (QResult els) frames) v
| visible_in_frame v vs els frs doc :
    In (Holds doc) frs -> visible doc v ->
    visible (mkScope true (QResult vs) (QResult els) (QResult frs)) v.

(** The matches of a query, none if it throws. *)
Definition slots (q : Query (Access Scope)) : list (Access Scope) :=
  match q with
  | QThrows => []
  | QResult l => l
  end.

(** ** The books of the scheduler *)

(** The scheduler's own fields: everything but the counters of finished
    work and the latency window. *)
Definition steady (w : World) :=
  (conf w, drains w, periodicEnq w, periodicDrain w,
   (running (st w), concurrency (st w), batchDelay (st w), skipStep (st w)),
   (queue (st w), processingCount (st w), seenCount (st w)),
   (observer (st w), healTimer (st w), taskScheduled (st w))).

(** The calls of [processOneHybrid] that wait at their [await], and those
    that have returned and whose [finally] callback has not run yet. *)
Definition parked (w : World) : Z := Z.of_nat (List.length (suspended w)).
Definition unsettled (w : World) : Z := Z.of_nat (settled w).

(** The success-rate estimate is at or below the threshold 0.4. *)
Definition locked_out (s : State) : Prop :=
  3 * readySuccess s + 1 <= 2 * readyFailure s.

(** A pass of a call: it is parked, or it has returned and counted. *)
Definition parks_or_returns (w w' : World) : Prop :=
  (parked w' = parked w + 1 /\ unsettled w' = unsettled w /\
   doneCount (st w') = doneCount (st w))
  \/ (parked w' = parked w /\ unsettled w' = unsettled w + 1 /\
      doneCount (st w') = doneCount (st w) + 1).

(** [steady] without the queue and the in-flight counter. *)
Definition ground (w : World) :=
  (conf w, drains w, periodicEnq w, periodicDrain w,
   (running (st w), concurrency (st w), batchDelay (st w), skipStep (st w)),
   seenCount (st w),
   (observer (st w), healTimer (st w), taskScheduled (st w))).

(** What the launch loop of an activation does to the books. *)
Definition launch_loop_effect (w w' : World) : Prop :=
  ground w' = ground w /\
  (exists taken,
     queue (st w) = taken ++ queue (st w') /\
     processingCount (st w') - processingCount (st w) <= Z.of_nat (List.length taken)) /\
  processingCount (st w) <= processingCount (st w')
    <= Z.max (processingCount (st w)) (concurrency (st w)) /\
  launches w' - launches w = processingCount (st w') - processingCount (st w) /\
  (parked w' + unsettled w') - (parked w + unsettled w)
    = processingCount (st w') - processingCount (st w) /\
  doneCount (st w') - doneCount (st w) = unsettled w' - unsettled w /\
  parked w <= parked w' /\ unsettled w <= unsettled w' /\
  readySuccess (st w) <= readySuccess (st w') /\
  readyFailure (st w) <= readyFailure (st w') /\
  (0 <= readySuccess (st w) -> 0 <= readyFailure (st w) -> locked_out (st w) ->
   readySuccess (st w') = readySuccess (st w) /\ readyFailure (st w') = readyFailure (st w)).

(** The books, by who writes them. *)
Definition setup (w : World) :=
  (conf w, running (st w), observer (st w), (observing w, stray w)).
Definition pending (w : World) := (drains w, taskScheduled (st w)).
Definition tuning (w : World) := (concurrency (st w), batchDelay (st w)).
Definition rates (w : World) := (readySuccess (st w), readyFailure (st w)).
Definition work (w : World) :=
  (processingCount (st w), parked w, unsettled w, launches w, doneCount (st w)).

(** [scheduleTaskDrain] queues an activation unless one is queued. *)
Definition scheduled_or_same (w w' : World) : Prop :=
  pending w' = pending w
  \/ (taskScheduled (st w) = false /\ pending w' = (S (drains w), true)).

(** What one callback can do to the books: nothing; an activation of the
    drainer; the [finally] callback of a call; a pass of a parked call; a
    scan (by a connected observer, or by the poll while the script runs);
    the periodic reminder; the self-heal; [stop()].  Every callback
    is one of these ([handle_sched_step] below), so a property kept by each
    of them holds in every world the script reaches. *)
Inductive sched_step (w w' : World) : Prop :=
| step_idle :
    setup w' = setup w -> pending w' = pending w -> tuning w' = tuning w ->
    rates w' = rates w -> work w' = work w ->
    queue (st w') = queue (st w) -> seenCount (st w') = seenCount (st w) ->
    sched_step w w'
| step_drain (taken : list Id) (x : Z) :
    setup w' = setup w -> seenCount (st w') = seenCount (st w) ->
    drains w = S (drains w') -> taskScheduled (st w') = false ->
    queue (st w) = taken ++ queue (st w') ->
    processingCount (st w') - processingCount (st w) <= Z.of_nat (List.length taken) ->
    processingCount (st w) <= processingCount (st w')
      <= Z.max (processingCount (st w)) (concurrency (st w)) ->
    launches w' - launches w = processingCount (st w') - processingCount (st w) ->
    (parked w' + unsettled w') - (parked w + unsettled w)
      = processingCount (st w') - processingCount (st w) ->
    doneCount (st w') - doneCount (st w) = unsettled w' - unsettled w ->
    parked w <= parked w' -> unsettled w <= unsettled w' ->
    readySuccess (st w) <= readySuccess (st w') ->
    readyFailure (st w) <= readyFailure (st w') ->
    (0 <= readySuccess (st w) -> 0 <= readyFailure (st w) -> locked_out (st w) ->
     rates w' = rates w) ->
    concurrency (st w')
      = Z.max (concurrencyMin (conf w)) (Z.min (concurrencyMax (conf w)) x) ->
    (batchDelay (st w')
       = Qmin (batchDelayMax (conf w))
           (JS.or_default (batchDelay (st w)) (batchDelayInit (conf w)) * (3 # 2))
     \/ batchDelay (st w')
        = Qmax (batchDelayMin (conf w))
            (JS.or_default (batchDelay (st w)) (batchDelayInit (conf w)) * (9 # 10))) ->
    sched_step w w'
| step_settle :
    setup w' = setup w -> tuning w' = tuning w -> rates w' = rates w ->
    queue (st w') = queue (st w) -> seenCount (st w') = seenCount (st w) ->
    parked w' = parked w -> launches w' = launches w ->
    doneCount (st w') = doneCount (st w) ->
    unsettled w = unsettled w' + 1 ->
    processingCount (st w') = Z.max 0 (processingCount (st w) - 1) ->
    scheduled_or_same w w' ->
    sched_step w w'
| step_timeout :
    setup w' = setup w -> pending w' = pending w -> tuning w' = tuning w ->
    rates w' = rates w -> queue (st w') = queue (st w) ->
    seenCount (st w') = seenCount (st w) ->
    processingCount (st w') = processingCount (st w) -> launches w' = launches w ->
    1 <= parked w ->
    (parked w' = parked w /\ unsettled w' = unsettled w /\
     doneCount (st w') = doneCount (st w)
     \/ parked w' = parked w - 1 /\ unsettled w' = unsettled w + 1 /\
        doneCount (st w') = doneCount (st w) + 1) ->
    sched_step w w'
| step_enqueue (new : list Id) :
    observing w || stray w = true \/ running (st w) = true ->
    setup w' = setup w -> tuning w' = tuning w -> rates w' = rates w ->
    work w' = work w ->
    queue (st w') = queue (st w) ++ new ->
    (NoDup (queue (st w)) -> NoDup (queue (st w'))) ->
    seenCount (st w')
      = Z.max (seenCount (st w))
          (Z.of_nat (List.length (queue (st w'))) + processingCount (st w)
           + doneCount (st w)) ->
    scheduled_or_same w w' ->
    sched_step w w'
| step_schedule :
    running (st w) = true ->
    setup w' = setup w -> tuning w' = tuning w -> rates w' = rates w ->
    work w' = work w ->
    queue (st w') = queue (st w) -> seenCount (st w') = seenCount (st w) ->
    scheduled_or_same w w' ->
    sched_step w w'
| step_heal :
    running (st w) = true -> observer (st w) = false ->
    conf w' = conf w -> running (st w') = true ->
    (observing w = false ->
     stray w' = stray w /\ (observing w' = true -> observer (st w') = true)) ->
    pending w' = pending w -> tuning w' = tuning w ->
    rates w' = rates w -> work w' = work w ->
    queue (st w') = queue (st w) -> seenCount (st w') = seenCount (st w) ->
    sched_step w w'
| step_stop :
    conf w' = conf w -> running (st w') = false ->
    (observer (st w) = false -> observer (st w') = false) ->
    (observing w' = true ->
     observing w = true /\ observer (st w') = observer (st w)) ->
    stray w' = stray w ->
    pending w' = pending w ->
    tuning w' = tuning w -> rates w' = rates w -> work w' = work w ->
    queue (st w') = [] -> seenCount (st w') = seenCount (st w) ->
    sched_step w w'.

(** The world in which [enqueueNewVideos] is first called (line 350). *)
Definition installed (c : Conf) (vs : Id -> Video) (perf date : nat -> Q)
    (f : Faults) : World :=
  exec (installObserver f ;; startSelfHeal)%js (initial c vs perf date).

(** The in-flight counter and the count of finished items, against the
    calls themselves. *)
Definition balanced (w : World) : Prop :=
  processingCount (st w) = parked w + unsettled w /\
  launches w = doneCount (st w) + parked w.

(** An activation is queued exactly when the flag of line 131 is set. *)
Definition one_activation (w : World) : Prop :=
  drains w = if taskScheduled (st w) then 1%nat else 0%nat.

(** The ranges of the controller's outputs and of the in-flight counter. *)
Definition in_range (w : World) : Prop :=
  let c := conf w in
  let top := Z.max (concurrencyInit c) (concurrencyMax c) in
  concurrencyMin c <= concurrency (st w) <= top /\
  0 <= processingCount (st w) <= top /\
  (batchDelayMin c <= batchDelay (st w) <= batchDelayMax c)%Q.

(** What the ranges need of a configuration. *)
Definition well_configured (c : Conf) : Prop :=
  concurrencyMin c <= concurrencyMax c /\ concurrencyMin c <= concurrencyInit c /\
  (0 <= batchDelayMin c)%Q /\ (batchDelayMin c <= batchDelayInit c)%Q /\
  (batchDelayInit c <= batchDelayMax c)%Q.

(** Everything that was found and not dropped is counted in [seenCount]. *)
Definition accounted (w : World) : Prop :=
  balanced w /\
  Z.of_nat (List.length (queue (st w))) + launches w <= seenCount (st w).

(** After a [stop()] that went through: the flags are down, no observer
    is connected and the queue is empty. *)
(** Every observer that is connected to the document is the one that
    [state.observer] holds. *)
Definition wired (w : World) : Prop :=
  stray w = false /\ (observing w = true -> observer (st w) = true).

Definition stopped (calls : Z) (w : World) : Prop :=
  running (st w) = false /\ observer (st w) = false /\
  observing w = false /\ stray w = false /\
  queue (st w) = [] /\ launches w = calls.

(** Once the success-rate estimate is at or below the threshold, the
    two counters it is made of stay as they are. *)
Definition locked (rs rf : Z) (w : World) : Prop :=
  rates w = (rs, rf).

(** The position of a video of known length is at or before its end. *)
Definition in_duration (vd : Video) : Prop :=
  forall d, known_duration vd = Some d -> (currentTime vd <= d)%Q.

Definition positions_in_duration (w : World) : Prop :=
  forall u, in_duration (videos w u).

(** ** Serving the queue, and reaching the end of a video *)

(** The videos [processOneHybrid] has been called on, in the order of the
    calls. *)
Definition served (w : World) : list Id :=
  flat_map (fun e => match e with Launched v => [v] | _ => [] end) (effects w).

(** [s] is [l] with some entries left out, the order kept. *)
Inductive picked_from {A} : list A -> list A -> Prop :=
| picked_nil : picked_from [] []
| picked_skip a l s : picked_from s l -> picked_from s (a :: l)
| picked_take a l s : picked_from s l -> picked_from (a :: s) (a :: l).

(** Every position write on the video succeeds. *)
Definition writable (vd : Video) : Prop := forall x, seek_raises vd x = false.

(** The call on [v] that was running in [w] has brought the video, of
    length [d], to its end in [w']: the position is the last millisecond,
    ["ended"] has been dispatched, and the call has finished right after. *)
Definition at_end (d : Q) (v : Id) (w w' : World) : Prop :=
  currentTime (videos w' v) = Qmax 0 (JS.sub d JS.milli) /\
  fsim_done (videos w' v) = true /\
  exists pre,
    effects w' = effects w ++ pre
                 ++ [Dispatched v "ended"; CleanedUp v; Toast (doneCount (st w) + 1)].

(** ** Releasing a finished video (lines 76-101), call by call

    For the scheduler [cleanupVideoResources] is one effect, [CleanedUp].
    Here is what that effect is made of: the calls on the page, each in a
    [try] of its own. *)

Module Cleanup.

(** What [v.srcObject] holds: a [MediaStream], whose [getTracks()] gives
    its tracks or throws, or a provider that has no [getTracks] (a
    [MediaSource], a [Blob]). *)
Inductive Provider :=
| MediaStream (getTracks : option (list nat))
| OtherProvider.

(** The calls the function makes on the page. *)
Inductive Op :=
| RevokeObjectURL (url : string)
| RemoveAttributeSrc
| Stop (track : nat)
| ClearSrcObject
| Load.

Record Media := mkMedia {
  currentSrc : string;
  src : string;
  srcObject : option Provider;
  load : bool;          (* [v.load] is there *)
  raises : Op -> bool   (* the calls that throw on this element *)
}.

(** Code that may throw, and the calls it has made so far. *)
Inductive Completion (A : Type) :=
| Normal (a : A)
| Thrown.
Arguments Normal {A} a.
Arguments Thrown {A}.

Definition Run (A : Type) : Type := list Op -> Completion A * list Op.

Definition ret {A} (a : A) : Run A := fun log => (Normal a, log).

Definition throw {A} : Run A := fun log => (Thrown, log).

Definition bind {A B} (m : Run A) (k : A -> Run B) : Run B :=
  fun log =>
    match m log with
    | (Normal a, log') => k a log'
    | (Thrown, log') => (Thrown, log')
    end.

(** [try { m } catch(e) {}]. *)
Definition try_ (m : Run unit) : Run unit :=
  fun log => (Normal tt, snd (m log)).

Definition call (v : Media) (op : Op) : Run unit :=
  fun log => (if raises v op then Thrown else Normal tt, log ++ [op]).

Fixpoint forEach {A} (l : list A) (f : A -> Run unit) : Run unit :=
  match l with
  | [] => ret tt
  | a :: rest => bind (f a) (fun _ => forEach rest f)
  end.

(** [a || b] on strings: the empty string is falsy. *)
Definition or_string (a b : string) : string :=
  match a with
  | EmptyString => b
  | _ => a
  end.

(** [v.currentSrc || v.src] or else the empty string (line 79). *)
Definition source (v : Media) : string :=
  or_string (or_string (currentSrc v) (src v)) EmptyString.

Definition is_blob (s : string) : bool := String.prefix "blob:" s.

Definition cleanupVideoResources (c : Conf) (v : Media) : Run unit :=
  try_
    (let src := source v in
     bind (if is_blob src
           then bind (try_ (call v (RevokeObjectURL src)))
                  (fun _ => try_ (call v RemoveAttributeSrc))
           else ret tt) (fun _ =>
     bind (try_
             match srcObject v with
             | Some stream =>
                 bind (try_
                         match stream with
                         | MediaStream (Some tracks) =>
                             forEach tracks (fun t => try_ (call v (Stop t)))
                         | MediaStream None => throw
                         | OtherProvider => ret tt
                         end) (fun _ =>
                 try_ (call v ClearSrcObject))
             | None => ret tt
             end) (fun _ =>
     if cleanupAfterFinish c && (negb (cleanupOnlyBlobSrc c) || is_blob src)
     then bind (try_ (call v RemoveAttributeSrc))
            (fun _ => try_ (if load v then call v Load else ret tt))
     else ret tt))).

(** The calls made on a finished video. *)
Definition calls (c : Conf) (v : Media) : list Op :=
  snd (cleanupVideoResources c v []).

(** *** The three groups of calls *)

Definition release_url (v : Media) : list Op :=
  if is_blob (source v) then [RevokeObjectURL (source v); RemoveAttributeSrc] else [].

Definition release_stream (v : Media) : list Op :=
  match srcObject v with
  | Some (MediaStream (Some tracks)) => map Stop tracks ++ [ClearSrcObject]
  | Some _ => [ClearSrcObject]
  | None => []
  end.

Definition reset_element (c : Conf) (v : Media) : list Op :=
  if cleanupAfterFinish c && (negb (cleanupOnlyBlobSrc c) || is_blob (source v))
  then RemoveAttributeSrc :: (if load v then [Load] else [])
  else [].

Definition touches_source (op : Op) : bool :=
  match op with
  | RevokeObjectURL _ | RemoveAttributeSrc | Load => true
  | Stop _ | ClearSrcObject => false
  end.

(** A page video served from a file, carrying a camera stream of two
    tracks, on which every call throws. *)
Definition hostile : Media :=
  mkMedia "https://example.org/a.mp4" EmptyString
    (Some (MediaStream (Some [1; 2]%nat))) true (fun _ => true).

End Cleanup.

(** ** Basic facts *)

Lemma ltb_lt a b : JS.ltb a b = true <-> (a < b)%Q.
Proof.
  unfold JS.ltb. rewrite negb_true_iff, <- not_true_iff_false, Qle_bool_iff.
  split; [apply Qnot_le_lt | apply Qlt_not_le].
Qed.

Lemma ltb_ge a b : JS.ltb a b = false <-> (b <= a)%Q.
Proof. unfold JS.ltb. rewrite negb_false_iff. apply Qle_bool_iff. Qed.

Lemma leb_gt a b : JS.leb a b = false <-> (b < a)%Q.
Proof.
  unfold JS.leb. rewrite <- not_true_iff_false, Qle_bool_iff.
  split; [apply Qnot_le_lt | apply Qlt_not_le].
Qed.

Lemma or_default_zero (x : Q) : (JS.or_default x 0 == x)%Q.
Proof.
  unfold JS.or_default. destruct (Qeq_bool x 0) eqn:E; [|reflexivity].
  apply Qeq_bool_iff in E. symmetry. exact E.
Qed.

Lemma archimedes (r s : Q) :
  (0 < s)%Q -> exists n : nat, (r <= inject_Z (Z.of_nat n) * s)%Q.
Proof.
  intros Hs. exists (Z.to_nat (Qceiling (r / s))).
  assert (A : (r / s <= inject_Z (Z.of_nat (Z.to_nat (Qceiling (r / s)))))%Q).
  { apply Qle_trans with (1 := Qle_ceiling (r / s)). rewrite <- Zle_Qle. lia. }
  apply Qmult_le_compat_r with (z := s) in A; [|lra].
  apply Qle_trans with (2 := A).
  assert (E : (r / s * s == r)%Q) by (field; lra).
  rewrite E. apply Qle_refl.
Qed.

Lemma filter_map_comm {A B} (f : A -> B) (p : B -> bool) (l : list A) :
  filter p (map f l) = map f (filter (fun x => p (f x)) l).
Proof.
  induction l as [|x l IH]; simpl; [reflexivity|].
  destruct (p (f x)); simpl; congruence.
Qed.

Lemma filter_all {A} (p : A -> bool) (l : list A) :
  (forall x, In x l -> p x = true) -> filter p l = l.
Proof.
  induction l as [|x l IH]; simpl; intros H; [reflexivity|].
  rewrite (H x (or_introl eq_refl)). f_equal. apply IH. intros y Hy. apply H. now right.
Qed.

Lemma fold_Qplus_compat (l : list Q) : forall a b : Q,
  (a == b)%Q -> (fold_left Qplus l a == fold_left Qplus l b)%Q.
Proof.
  induction l as [|x l IH]; simpl; intros a b H; [exact H|].
  apply IH. rewrite H. reflexivity.
Qed.




(** ** Doubles: what rounding to the nearest double keeps *)

Section Doubles.

Local Open Scope Q_scope.

Lemma pow2_pos (e : Z) : 0 < 2 ^ e.
Proof. apply Qpower_0_lt. reflexivity. Qed.

Lemma pow2_Z (n : Z) : (0 <= n)%Z -> 2 ^ n == inject_Z (2 ^ n).
Proof. intros H. symmetry. apply (Zpower_Qpower 2 n H). Qed.

Lemma ilog2_le (x : Q) : 0 < x -> 2 ^ JS.ilog2 x <= x.
Proof.
  intros Hx. unfold JS.ilog2.
  set (k := (Z.log2 (Qnum x) - Z.log2 (Z.pos (Qden x)))%Z).
  destruct (Qle_bool (2 ^ k) x) eqn:E; [apply Qle_bool_iff; exact E|].
  destruct x as [n d]. cbn [Qnum Qden] in *.
  assert (Hn : (0 < n)%Z) by (unfold Qlt in Hx; cbn in Hx; lia).
  destruct (Z.log2_spec n Hn) as [A _].
  destruct (Z.log2_spec (Z.pos d) (Pos2Z.is_pos d)) as [_ B].
  pose proof (Z.log2_nonneg n) as An. pose proof (Z.log2_nonneg (Z.pos d)) as Bn.
  replace (k - 1)%Z with (Z.log2 n - Z.succ (Z.log2 (Z.pos d)))%Z by (unfold k; lia).
  rewrite Qpower_minus by discriminate.
  rewrite !pow2_Z by lia.
  set (a := (2 ^ Z.log2 n)%Z) in *. set (b := (2 ^ Z.succ (Z.log2 (Z.pos d)))%Z) in *.
  apply Qle_shift_div_r.
  - change 0 with (inject_Z 0). rewrite <- Zlt_Qlt. lia.
  - unfold Qle. cbn. nia.
Qed.

Lemma round_even_near (t : Q) : - (1 # 2) <= inject_Z (JS.round_even t) - t <= 1 # 2.
Proof.
  unfold JS.round_even.
  pose proof (Qfloor_le t) as L. pose proof (Qlt_floor t) as U.
  rewrite inject_Z_plus in U. change (inject_Z 1) with 1 in U.
  set (f := Qfloor t) in *.
  destruct (Qcompare_spec (t - inject_Z f) (1 # 2)) as [E|E|E].
  - destruct (Z.even f); rewrite ?inject_Z_plus; change (inject_Z 1) with 1; lra.
  - lra.
  - rewrite inject_Z_plus. change (inject_Z 1) with 1. lra.
Qed.

Lemma round_even_le (t : Q) (n : Z) : t <= inject_Z n -> (JS.round_even t <= n)%Z.
Proof.
  intros H. unfold JS.round_even.
  pose proof (Qfloor_le t) as L.
  set (f := Qfloor t) in *.
  assert (F : (f <= n)%Z) by (rewrite Zle_Qle; lra).
  assert (G : inject_Z f < t -> (f + 1 <= n)%Z).
  { intros X. assert (Y : (f < n)%Z) by (rewrite Zlt_Qlt; lra). lia. }
  destruct (Qcompare_spec (t - inject_Z f) (1 # 2)) as [E|E|E].
  - destruct (Z.even f); [exact F|apply G; lra].
  - exact F.
  - apply G. lra.
Qed.

Lemma round_even_nonneg (t : Q) : 0 <= t -> (0 <= JS.round_even t)%Z.
Proof.
  intros H. unfold JS.round_even.
  assert (F : (0 <= Qfloor t)%Z).
  { change 0%Z with (Qfloor 0). apply Qfloor_resp_le. exact H. }
  destruct (_ ?= _); [destruct (Z.even _)| |]; lia.
Qed.

(** The shape of the rounding of a positive number. *)
Lemma fl_pos (x : Q) :
  0 < x ->
  exists a p,
    a == x /\ p = (Z.max (JS.ilog2 a) (-1022) - 52)%Z /\
    JS.fl x == inject_Z (JS.round_even (a / 2 ^ p)) * 2 ^ p.
Proof.
  intros Hx. exists (Qabs x), (Z.max (JS.ilog2 (Qabs x)) (-1022) - 52)%Z.
  split; [apply Qabs_pos; lra|]. split; [reflexivity|].
  unfold JS.fl.
  assert (E1 : Qeq_bool x 0 = false).
  { apply not_true_iff_false. rewrite Qeq_bool_iff. lra. }
  assert (E2 : Qle_bool 0 x = true) by (apply Qle_bool_iff; lra).
  rewrite E1, E2. apply Qred_correct.
Qed.

Lemma fl_nonneg (x : Q) : 0 <= x -> 0 <= JS.fl x.
Proof.
  intros Hx. destruct (Qeq_dec x 0) as [E|E].
  - unfold JS.fl. apply Qeq_bool_iff in E. rewrite E. lra.
  - destruct (fl_pos x) as (a & p & A & _ & F); [lra|].
    rewrite F. apply Qmult_le_0_compat.
    + change 0 with (inject_Z 0). rewrite <- Zle_Qle. apply round_even_nonneg.
      apply Qle_shift_div_l; [apply pow2_pos|]. lra.
    + apply Qlt_le_weak, pow2_pos.
Qed.

Lemma fl_nonpos (x : Q) : x <= 0 -> JS.fl x <= 0.
Proof.
  intros Hx. unfold JS.fl.
  destruct (Qeq_bool x 0) eqn:E1; [lra|].
  assert (E2 : Qle_bool 0 x = false).
  { apply not_true_iff_false. rewrite Qle_bool_iff. intros X.
    apply not_true_iff_false in E1. apply E1. apply Qeq_bool_iff. lra. }
  rewrite E2. rewrite Qred_correct.
  set (p := (Z.max _ _ - 52)%Z).
  assert (0 <= inject_Z (JS.round_even (Qabs x / 2 ^ p)) * 2 ^ p); [|lra].
  apply Qmult_le_0_compat.
  - change 0 with (inject_Z 0). rewrite <- Zle_Qle. apply round_even_nonneg.
    apply Qle_shift_div_l; [apply pow2_pos|]. pose proof (Qabs_nonneg x). lra.
  - apply Qlt_le_weak, pow2_pos.
Qed.

(** Rounding does not cross one half. *)
Lemma fl_le_half (x : Q) : x <= 1 # 2 -> JS.fl x <= 1 # 2.
Proof.
  intros Hx. destruct (Qlt_le_dec 0 x) as [P|N].
  2:{ pose proof (fl_nonpos x N). lra. }
  destruct (fl_pos x P) as (a & p & A & Hp & F). rewrite F.
  assert (Pa : 0 < a) by lra.
  pose proof (ilog2_le a Pa) as L.
  assert (E : (JS.ilog2 a <= -1)%Z).
  { apply (Qpower_le_compat_l_inv 2); [|reflexivity].
    change (2 ^ (-1)) with (1 # 2). lra. }
  assert (Hp' : (0 <= -1 - p)%Z) by lia.
  assert (T : a / 2 ^ p <= inject_Z (2 ^ (-1 - p))).
  { rewrite <- pow2_Z by exact Hp'. rewrite Qpower_minus by discriminate.
    change (2 ^ (-1)) with (1 # 2).
    apply Qmult_le_compat_r; [lra|]. apply Qinv_le_0_compat, Qlt_le_weak, pow2_pos. }
  apply round_even_le in T. rewrite Zle_Qle in T.
  apply Qmult_le_compat_r with (z := 2 ^ p) in T; [|apply Qlt_le_weak, pow2_pos].
  apply Qle_trans with (1 := T).
  rewrite <- pow2_Z by exact Hp'. rewrite <- Qpower_plus by discriminate.
  replace (-1 - p + p)%Z with (-1)%Z by lia. apply Qle_refl.
Qed.

(** In the normal range the relative error is at most [2^-53]. *)
Lemma fl_error (x : Q) :
  2 ^ (-1022) <= x ->
  x - x * (1 # 9007199254740992) <= JS.fl x <= x + x * (1 # 9007199254740992).
Proof.
  intros Hx.
  assert (P : 0 < x) by (pose proof (pow2_pos (-1022)); lra).
  destruct (fl_pos x P) as (a & p & A & Hp & F). rewrite F.
  assert (Pa : 0 < a) by lra.
  pose proof (ilog2_le a Pa) as L.
  assert (B : 2 ^ p * inject_Z (2 ^ 52) <= a).
  { rewrite <- pow2_Z by lia. rewrite <- Qpower_plus by discriminate.
    replace (p + 52)%Z with (Z.max (JS.ilog2 a) (-1022)) by lia.
    destruct (Z.max_spec (JS.ilog2 a) (-1022)) as [[_ ->]|[_ ->]]; lra. }
  pose proof (round_even_near (a / 2 ^ p)) as R.
  pose proof (pow2_pos p) as Pp.
  set (m := inject_Z (JS.round_even (a / 2 ^ p))) in *.
  set (q := 2 ^ p) in *.
  assert (T : a / q * q == a) by (field; lra).
  assert (R1 : (m - a / q) * q <= (1 # 2) * q)
    by (apply Qmult_le_compat_r; lra).
  assert (R2 : (- (1 # 2)) * q <= (m - a / q) * q)
    by (apply Qmult_le_compat_r; lra).
  assert (R3 : (m - a / q) * q == m * q - a) by (rewrite <- T at 2; ring).
  rewrite R3 in R1, R2.
  change (inject_Z (2 ^ 52)) with (4503599627370496 # 1) in B.
  split; lra.
Qed.

Lemma ilog2_lt (x : Q) : 0 < x -> x < 2 ^ (JS.ilog2 x + 1).
Proof.
  intros Hx. unfold JS.ilog2.
  set (k := (Z.log2 (Qnum x) - Z.log2 (Z.pos (Qden x)))%Z).
  destruct (Qle_bool (2 ^ k) x) eqn:E.
  2:{ replace (k - 1 + 1)%Z with k by lia.
      apply Qnot_le_lt. intros X. apply Qle_bool_iff in X. congruence. }
  clear E. destruct x as [n d]. cbn [Qnum Qden] in *.
  assert (Hn : (0 < n)%Z) by (unfold Qlt in Hx; cbn in Hx; lia).
  destruct (Z.log2_spec n Hn) as [_ A].
  destruct (Z.log2_spec (Z.pos d) (Pos2Z.is_pos d)) as [B _].
  pose proof (Z.log2_nonneg n) as An. pose proof (Z.log2_nonneg (Z.pos d)) as Bn.
  replace (k + 1)%Z with (Z.succ (Z.log2 n) - Z.log2 (Z.pos d))%Z by (unfold k; lia).
  rewrite Qpower_minus by discriminate.
  rewrite !pow2_Z by lia.
  set (a := (2 ^ Z.succ (Z.log2 n))%Z) in *. set (b := (2 ^ Z.log2 (Z.pos d))%Z) in *.
  assert (Hb : (0 < b)%Z) by (unfold b; apply Z.pow_pos_nonneg; lia).
  apply Qlt_shift_div_l.
  - change 0 with (inject_Z 0). rewrite <- Zlt_Qlt. lia.
  - unfold Qlt. cbn. nia.
Qed.

Lemma ilog2_unique (x : Q) (e : Z) : 2 ^ e <= x -> x < 2 ^ (e + 1) -> JS.ilog2 x = e.
Proof.
  intros L U.
  assert (Hx : 0 < x) by (pose proof (pow2_pos e); lra).
  pose proof (ilog2_le x Hx) as L'. pose proof (ilog2_lt x Hx) as U'.
  assert (A : (JS.ilog2 x < e + 1)%Z)
    by (apply (Qpower_lt_compat_l_inv 2); [lra|reflexivity]).
  assert (B : (e < JS.ilog2 x + 1)%Z)
    by (apply (Qpower_lt_compat_l_inv 2); [lra|reflexivity]).
  lia.
Qed.

Lemma ilog2_comp (x y : Q) : 0 < x -> x == y -> JS.ilog2 x = JS.ilog2 y.
Proof.
  intros Hx E. symmetry. apply ilog2_unique.
  - rewrite <- E. apply ilog2_le, Hx.
  - rewrite <- E. apply ilog2_lt, Hx.
Qed.

Lemma round_even_comp (s t : Q) : s == t -> JS.round_even s = JS.round_even t.
Proof.
  intros E. unfold JS.round_even.
  rewrite (Qfloor_comp _ _ E).
  assert (C : (s - inject_Z (Qfloor t) ?= 1 # 2) = (t - inject_Z (Qfloor t) ?= 1 # 2))
    by (rewrite E; reflexivity).
  rewrite C. reflexivity.
Qed.

Lemma Qabs_pos_lt (x : Q) : ~ x == 0 -> 0 < Qabs x.
Proof.
  intros N. pose proof (Qle_Qabs x) as A. pose proof (Qle_Qabs (- x)) as B.
  rewrite Qabs_opp in B.
  destruct (Q_dec x 0) as [[H|H]|H]; [lra|lra|contradiction].
Qed.

(** Equal rationals round to the same term. *)
Lemma fl_comp (x y : Q) : x == y -> JS.fl x = JS.fl y.
Proof.
  intros E. unfold JS.fl.
  rewrite (Qeqb_comp _ _ E 0 0 (Qeq_refl 0)).
  destruct (Qeq_bool y 0) eqn:Y; [reflexivity|].
  assert (Nx : ~ x == 0).
  { rewrite E. intros X. apply Qeq_bool_iff in X. congruence. }
  assert (Ea : Qabs x == Qabs y) by (rewrite E; reflexivity).
  rewrite (ilog2_comp _ _ (Qabs_pos_lt x Nx) Ea).
  set (p := (Z.max _ _ - 52)%Z).
  assert (Et : Qabs x / 2 ^ p == Qabs y / 2 ^ p) by (rewrite Ea; reflexivity).
  rewrite (round_even_comp _ _ Et).
  rewrite (Qleb_comp 0 0 (Qeq_refl 0) _ _ E). reflexivity.
Qed.

Lemma fl_is_double (x : Q) : 0 <= x -> is_double (JS.fl x).
Proof.
  intros Hx. destruct (Qeq_dec x 0) as [E|E].
  - exists 0%Z, 0%Z. rewrite (fl_comp x 0 E). split; [reflexivity|lia].
  - assert (P : 0 < x) by lra.
    destruct (fl_pos x P) as (a & p & A & Hp & F).
    exists (JS.round_even (a / 2 ^ p)), p. split; [exact F|].
    assert (Pa : 0 < a) by lra.
    split; [|lia]. split.
    + apply round_even_nonneg. apply Qle_shift_div_l; [apply pow2_pos|lra].
    + apply round_even_le. rewrite <- pow2_Z by lia.
      apply Qle_shift_div_r; [apply pow2_pos|].
      rewrite <- Qpower_plus by discriminate.
      apply Qle_trans with (2 ^ (JS.ilog2 a + 1)); [apply Qlt_le_weak, ilog2_lt, Pa|].
      apply Qpower_le_compat_l; [lia|lra].
Qed.

(** Rounding does not cross a double. *)
Lemma fl_below_double (y d : Q) : is_double d -> y <= d -> JS.fl y <= d.
Proof.
  intros (m & q & D & Hm & Hq0) Hy.
  assert (D0 : 0 <= d).
  { rewrite D. apply Qmult_le_0_compat; [|apply Qlt_le_weak, pow2_pos].
    change 0 with (inject_Z 0). rewrite <- Zle_Qle. lia. }
  destruct (Qlt_le_dec 0 y) as [P|N].
  2:{ pose proof (fl_nonpos y N). lra. }
  destruct (fl_pos y P) as (a & p & A & Hp & F). rewrite F.
  assert (Pa : 0 < a) by lra.
  pose proof (ilog2_le a Pa) as L.
  pose proof (pow2_pos p) as Pp.
  destruct (Z_le_gt_dec p q) as [C|C].
  - (* the unit of [y] divides [d] *)
    assert (T : a / 2 ^ p <= inject_Z (m * 2 ^ (q - p))).
    { rewrite inject_Z_mult, <- pow2_Z by lia.
      apply Qle_shift_div_r; [exact Pp|].
      rewrite <- Qmult_assoc, <- Qpower_plus by discriminate.
      replace (q - p + p)%Z with q by lia. lra. }
    apply round_even_le in T. rewrite Zle_Qle in T.
    apply Qmult_le_compat_r with (z := 2 ^ p) in T; [|lra].
    apply Qle_trans with (1 := T).
    rewrite inject_Z_mult, <- pow2_Z by lia.
    rewrite <- Qmult_assoc, <- Qpower_plus by discriminate.
    replace (q - p + p)%Z with q by lia. lra.
  - (* [y] is the power of two above the significand of [d] *)
    assert (Hq : (q + 53 <= p + 52)%Z) by lia.
    assert (Hm' : inject_Z m <= 2 ^ 53).
    { rewrite pow2_Z by lia. rewrite <- Zle_Qle. lia. }
    assert (B : d <= 2 ^ (p + 52)).
    { rewrite D. apply Qle_trans with (2 ^ 53 * 2 ^ q).
      - apply Qmult_le_compat_r; [exact Hm'|apply Qlt_le_weak, pow2_pos].
      - rewrite <- Qpower_plus by discriminate.
        apply Qpower_le_compat_l; [lia|lra]. }
    assert (E : (p + 52 = JS.ilog2 a)%Z) by lia.
    assert (T : a / 2 ^ p <= inject_Z (2 ^ 52)).
    { rewrite <- pow2_Z by lia. apply Qle_shift_div_r; [exact Pp|].
      rewrite <- Qpower_plus by discriminate. rewrite Z.add_comm. lra. }
    apply round_even_le in T. rewrite Zle_Qle in T.
    apply Qmult_le_compat_r with (z := 2 ^ p) in T; [|lra].
    apply Qle_trans with (1 := T).
    rewrite <- pow2_Z by lia. rewrite <- Qpower_plus by discriminate.
    rewrite Z.add_comm, E. lra.
Qed.



(** The step of lines 216-218 on a duration within reach: computed in
    doubles, the position still advances by [pace step], or reaches the
    end. *)
Lemma step_gains (d cur step : Q) :
  0 < step -> 0 <= cur -> within_reach d step ->
  1 # 2 < JS.sub d cur ->
  let target := Qmin d (JS.add cur (Qmin step (JS.sub d cur))) in
  0 <= target /\ 1 # 2 < d - cur /\
  (d - target <= d - cur - pace step \/ d - target <= 0).
Proof.
  unfold within_reach, pace, JS.add, JS.sub. intros Hs Hc Hr Hh. cbv zeta.
  assert (T : 2 ^ (-1022) <= 1 # 2251799813685248)
    by (apply Qle_bool_imp_le; vm_compute; reflexivity).
  assert (Hx : 1 # 2 < d - cur).
  { destruct (Qlt_le_dec (1 # 2) (d - cur)) as [A|A]; [exact A|].
    apply fl_le_half in A. lra. }
  pose proof (fl_error (d - cur)) as E1.
  set (r := JS.fl (d - cur)) in *.
  change (inject_Z (2 ^ 50)) with (1125899906842624 # 1) in Hr.
  set (mu := Qmin step (1 # 2)) in *.
  assert (Hmu : 0 < mu /\ mu <= step /\ mu <= 1 # 2).
  { unfold mu. destruct (Q.min_spec step (1 # 2)) as [[A B]|[A B]]; rewrite B; lra. }
  set (m := Qmin step r).
  assert (Hm : mu <= m /\ m <= r).
  { unfold m, mu. destruct (Q.min_spec step r) as [[A B]|[A B]]; rewrite B;
      destruct (Q.min_spec step (1 # 2)) as [[A' B']|[A' B']]; rewrite B'; lra. }
  pose proof (fl_error (cur + m)) as E2.
  set (y := JS.fl (cur + m)) in *.
  revert T E1 E2. generalize (2 ^ (-1022)). intros t T E1 E2.
  assert (E1' := E1 ltac:(lra)). assert (E2' := E2 ltac:(lra)).
  clear E1 E2. clearbody r mu m y.
  destruct (Q.min_spec d y) as [[A B]|[A B]]; rewrite B.
  - split; [lra|]. split; [lra|]. right. lra.
  - split; [lra|]. split; [lra|]. left. lra.
Qed.

Lemma pace_pos (step : Q) : 0 < step -> 0 < pace step.
Proof.
  intros H. unfold pace.
  destruct (Q.min_spec step (1 # 2)) as [[A B]|[A B]]; rewrite B; lra.
Qed.

End Doubles.

(** ** Running a callback one command at a time *)

Lemma exec_bind {A B} (m : M A) (k : A -> M B) (w : World) :
  exec (bind m k) w = exec (k (fst (m w))) (exec m w).
Proof. unfold exec, bind. destruct (m w). reflexivity. Qed.

Lemma fst_bind {A B} (m : M A) (k : A -> M B) (w : World) :
  fst (bind m k w) = fst (k (fst (m w)) (exec m w)).
Proof. unfold exec, bind. destruct (m w). reflexivity. Qed.

Lemma exec_ret {A} (a : A) (w : World) : exec (ret a) w = w.
Proof. reflexivity. Qed.

Lemma fst_ret {A} (a : A) (w : World) : fst (ret a w) = a.
Proof. reflexivity. Qed.

Lemma exec_gets {A} (f : World -> A) (w : World) : exec (gets f) w = w.
Proof. reflexivity. Qed.

Lemma fst_gets {A} (f : World -> A) (w : World) : fst (gets f w) = f w.
Proof. reflexivity. Qed.

Lemma exec_modify (f : World -> World) (w : World) : exec (modify f) w = f w.
Proof. reflexivity. Qed.

Lemma exec_performance_now (w : World) : exec performance_now w = with_perf_reads S w.
Proof. reflexivity. Qed.

Lemma fst_performance_now (w : World) :
  fst (performance_now w) = perf_now w (perf_reads w).
Proof. reflexivity. Qed.

Lemma exec_Date_now (w : World) : exec Date_now w = with_date_reads S w.
Proof. reflexivity. Qed.

Lemma fst_Date_now (w : World) : fst (Date_now w) = date_now w (date_reads w).
Proof. reflexivity. Qed.

(** Unfold a callback that has no loop down to the world it builds. *)
Ltac mred :=
  cbv [exec bind ret gets modify state_ update config video update_video emit when
       performance_now Date_now cleanupVideoResources showToast];
  cbn [fst snd].

(** Advance through the commands of a callback, keeping calls folded. *)
Ltac mstep :=
  unfold state_, update, config, video, update_video, emit, when;
  repeat (rewrite ?exec_bind, ?fst_bind, ?exec_ret, ?fst_ret, ?exec_gets, ?fst_gets,
            ?exec_modify, ?exec_performance_now, ?fst_performance_now,
            ?exec_Date_now, ?fst_Date_now).

Ltac break_if :=
  repeat match goal with
         | |- context [if ?b then _ else _] => destruct b eqn:?
         | |- context [match ?x with Some _ => _ | None => _ end] => destruct x eqn:?
         end.

Ltac mcases := repeat first [progress break_if | progress mstep].

Ltac count_launches :=
  unfold launches;
  cbn [effects with_effects with_st with_videos with_settled with_perf_reads
       with_date_reads with_suspended with_drains with_periodicEnq with_periodicDrain];
  rewrite ?filter_app; cbn [filter is_launch]; rewrite ?length_app;
  cbn [List.length]; try lia.

Ltac count_launched :=
  unfold launched;
  cbn [effects with_effects with_st with_videos with_settled with_perf_reads
       with_date_reads with_suspended with_drains with_periodicEnq with_periodicDrain];
  rewrite ?filter_app; cbn [filter is_launch_of]; rewrite ?length_app;
  cbn [List.length]; try lia.

Ltac keep_mark :=
  cbn [videos with_effects with_st with_videos with_settled with_perf_reads
       with_date_reads with_suspended with_drains with_periodicEnq with_periodicDrain];
  repeat match goal with
         | |- context [if ?b then _ else _] => destruct b
         end;
  cbn [fsim_done set_fsim_done set_currentTime set_muted set_paused]; auto.

Ltac by_poll L :=
  let H := fresh in
  pose proof L as H; unfold poll in H; injection H as ? ? ?;
  repeat split; try (left; congruence); congruence.

(** Decide a closed statement about a scenario by running the script. *)
Ltac by_running :=
  vm_compute; repeat split; try reflexivity; try discriminate.

(** ** Frames: what the page operations leave alone *)

Lemma push_sample_control x w : control (exec (push_sample x) w) = control w.
Proof. reflexivity. Qed.

Lemma finish_control v s w : control (exec (finish v s) w) = control w.
Proof. reflexivity. Qed.

Lemma stepping_control tk w : control (exec (stepping tk) w) = control w.
Proof. unfold stepping. mred. break_if; reflexivity. Qed.

Lemma resume_control tk w : control (exec (resume tk) w) = control w.
Proof.
  unfold resume. rewrite exec_bind.
  destruct (fst (stepping tk w)); mstep; cbn; apply stepping_control.
Qed.

Lemma instant_control v w : control (exec (instant v) w) = control w.
Proof. unfold instant. mred. break_if; reflexivity. Qed.

Lemma processOneHybrid_control v w : control (exec (processOneHybrid v) w) = control w.
Proof.
  unfold processOneHybrid. mstep.
  match goal with |- context [if ?b then _ else _] => destruct b end.
  - mstep. rewrite finish_control, instant_control. reflexivity.
  - mstep. rewrite resume_control. reflexivity.
Qed.

Lemma scheduleTaskDrain_control w : control (exec scheduleTaskDrain w) = control w.
Proof. unfold scheduleTaskDrain. mred. break_if; reflexivity. Qed.

Lemma finish_wires v s w : wires (exec (finish v s) w) = wires w.
Proof. reflexivity. Qed.

Lemma stepping_wires tk w : wires (exec (stepping tk) w) = wires w.
Proof. unfold stepping. mred. break_if; reflexivity. Qed.

Lemma resume_wires tk w : wires (exec (resume tk) w) = wires w.
Proof.
  unfold resume. rewrite exec_bind.
  destruct (fst (stepping tk w)); mstep; cbn; apply stepping_wires.
Qed.

Lemma instant_wires v w : wires (exec (instant v) w) = wires w.
Proof. unfold instant. mred. break_if; reflexivity. Qed.

Lemma processOneHybrid_wires v w : wires (exec (processOneHybrid v) w) = wires w.
Proof.
  unfold processOneHybrid. mstep.
  match goal with |- context [if ?b then _ else _] => destruct b end.
  - mstep. rewrite finish_wires, instant_wires. reflexivity.
  - mstep. rewrite resume_wires. reflexivity.
Qed.

Lemma scheduleTaskDrain_wires w : wires (exec scheduleTaskDrain w) = wires w.
Proof. unfold scheduleTaskDrain. mred. break_if; reflexivity. Qed.

Lemma control_poll w w' : control w' = control w -> poll w' = poll w.
Proof.
  unfold control, poll. intros H. injection H as -> -> _ -> _ _ _. reflexivity.
Qed.

Lemma finish_launches v s w : launches (exec (finish v s) w) = launches w.
Proof. unfold finish, push_sample. mred. count_launches. Qed.

Lemma stepping_launches tk w : launches (exec (stepping tk) w) = launches w.
Proof.
  unfold stepping, finish, push_sample. mred.
  break_if; cbn [snd]; count_launches.
Qed.

Lemma resume_launches tk w : launches (exec (resume tk) w) = launches w.
Proof.
  unfold resume. rewrite exec_bind.
  destruct (fst (stepping tk w)); mstep;
    rewrite <- (stepping_launches tk w); count_launches.
Qed.

Lemma instant_launches v w : launches (exec (instant v) w) = launches w.
Proof. unfold instant. mred. break_if; cbn [snd]; count_launches. Qed.

Lemma processOneHybrid_launches v w :
  launches (exec (processOneHybrid v) w) = launches w + 1.
Proof.
  unfold processOneHybrid. mstep.
  match goal with |- context [if ?b then _ else _] => destruct b end; mstep;
    rewrite ?finish_launches, ?instant_launches, ?resume_launches; count_launches.
Qed.

(** ** Work registry and drainer *)

(** C1, the claim as stated fails for an item in flight.  The script
    tests the done mark and the queue only: a video whose call is parked
    at its [await] is in neither.  Here a video without metadata is found
    at boot, launched and parked; the page adds a node and the observer's
    scan finds the video again and queues it; the following activation
    launches it again, and two calls now step the one video.  The same
    happens when the call has been resumed a few times and the periodic
    scan comes by. *)
Lemma inflight_item_is_launched_twice :
  let w0 := booted (CONF None) (fun _ => blank) still still calm [0%nat] in
  let w1 := run [RunDrain] w0 in
  let w2 := run [Mutation true [0%nat]] w1 in
  let w3 := run [RunDrain] w2 in
  let w4 := run [FireTimeout 0; FireTimeout 0; FireTimeout 0; TickEnq [0%nat]; RunDrain] w1 in
  (map task_video (suspended w1) = [0%nat] /\
   fsim_done (videos w1 0%nat) = false /\ queue (st w1) = []) /\
  queue (st w2) = [0%nat] /\
  effects w3 = [Launched 0%nat; Stepped 0%nat; Launched 0%nat; Stepped 0%nat] /\
  launched 0%nat w3 = 2 /\
  processingCount (st w3) = 2 /\
  map task_video (suspended w3) = [0%nat; 0%nat] /\
  launched 0%nat w4 = 2 /\ processingCount (st w4) = 2.
Proof. by_running. Qed.

(** The launch loop of an activation: it leaves the configuration, the
    poll and the concurrency alone, counts every call it makes, and stops
    calling once [processingCount] has reached [concurrency]. *)
Lemma drain_loop_spec (q : list Id) : forall (p : Z) (w : World),
  let w' := exec (drain_loop q p) w in
  conf w' = conf w /\ periodicEnq w' = periodicEnq w /\
  concurrency (st w') = concurrency (st w) /\
  processingCount (st w) <= processingCount (st w')
    <= Z.max (processingCount (st w)) (concurrency (st w)) /\
  launches w' - launches w = processingCount (st w') - processingCount (st w).
Proof.
  induction q as [|v q IH]; intros p w; cbv zeta.
  - cbn. repeat split; lia.
  - cbn [drain_loop]. mstep.
    destruct ((processingCount (st w) <? concurrency (st w)) && (p <? concurrency (st w)))
      eqn:G; [|rewrite exec_ret; repeat split; lia].
    apply andb_true_iff in G. destruct G as [G _]. apply Z.ltb_lt in G.
    mstep.
    match goal with |- context [if ?b then _ else _] => destruct b end.
    + specialize (IH p (with_st (set_queue q) w)). cbv zeta in IH. cbn in IH. exact IH.
    + mstep.
      set (w1 := exec (processOneHybrid v) _).
      specialize (IH (p + 1) w1). cbv zeta in IH.
      assert (C : control w1
                  = control (with_st (fun s => set_processingCount (processingCount s + 1) s)
                               (with_st (set_queue q) w)))
        by apply processOneHybrid_control.
      assert (L : launches w1 = launches w + 1).
      { unfold w1. rewrite processOneHybrid_launches. count_launches. }
      unfold control in C. cbn in C. injection C as C1 C2 C3 C4 C5 C6 C7.
      rewrite C1, C2, C5, C6, L in IH.
      destruct IH as (I1 & I2 & I3 & I4 & I5). repeat split; try assumption; lia.
Qed.

(** The concurrency that [adaptCoreParameters] leaves. *)
Lemma adapt_concurrency (w : World) :
  concurrency (st (exec adaptCoreParameters w)) =
  let avg := work_avg (lastWorkSamples (st w)) in
  let target := adaptTargetWorkMs (conf w) in
  let c := concurrency (st w) in
  Z.max (concurrencyMin (conf w))
    (Z.min (concurrencyMax (conf w))
       (if JS.ltb avg target then Z.min (concurrencyMax (conf w)) (c + 1)
        else if JS.ltb (target * (9 # 5)) avg
             then Z.max (concurrencyMin (conf w)) (c - 1)
             else c)).
Proof.
  cbv zeta. unfold adaptCoreParameters. mred.
  repeat match goal with |- context [if ?b then _ else _] => destruct b end;
    reflexivity.
Qed.

Lemma adapt_frame (w : World) :
  conf (exec adaptCoreParameters w) = conf w /\
  processingCount (st (exec adaptCoreParameters w)) = processingCount (st w) /\
  effects (exec adaptCoreParameters w) = effects w.
Proof.
  unfold adaptCoreParameters. mred.
  repeat match goal with |- context [if ?b then _ else _] => destruct b end;
    repeat split; reflexivity.
Qed.

Lemma drainTaskBatch_loop_part (w : World) :
  exists w1,
    exec drainTaskBatch w = exec adaptCoreParameters w1 /\
    conf w1 = conf w /\ periodicEnq w1 = periodicEnq w /\
    concurrency (st w1) = concurrency (st w) /\
    processingCount (st w) <= processingCount (st w1)
      <= Z.max (processingCount (st w)) (concurrency (st w)) /\
    launches w1 - launches w = processingCount (st w1) - processingCount (st w).
Proof.
  unfold drainTaskBatch. mstep.
  eexists. split; [reflexivity|].
  pose proof (drain_loop_spec (queue (st (with_perf_reads S w))) 0 (with_perf_reads S w)) as H.
  cbv zeta in H. destruct H as (I1 & I2 & I3 & I4 & I5).
  set (w0 := exec (drain_loop _ 0) _) in *.
  unfold launches in *. cbn in I1, I2, I3, I4, I5.
  unfold push_sample. mred. cbn.
  repeat split; try assumption; lia.
Qed.

(** C2, the claim as stated fails: three videos are launched under a
    concurrency of 3, the activation takes 40 ms, and the controller that
    closes it lowers concurrency to 2 while the three calls are parked. *)
Lemma inflight_can_exceed_lowered_concurrency :
  reachable three_parked /\
  concurrency (st three_parked) = 2 /\
  processingCount (st three_parked) = 3 /\
  concurrency (st three_parked) < processingCount (st three_parked).
Proof.
  split.
  - exists None, (fun _ => blank), (ticking 10), still, calm, [0; 1; 2]%nat, [RunDrain].
    reflexivity.
  - by_running.
Qed.

(** C2, amended.  An activation calls [processOneHybrid] only while
    [processingCount < concurrency]: it raises [processingCount] by one
    per call, by at most [max 0 (concurrency - processingCount)] in all,
    and never above the concurrency it started with; and the controller
    update that closes it leaves [concurrency] within
    [[concurrencyMin, concurrencyMax]]. *)
Theorem drain_respects_budget_and_bounds (w : World) :
  concurrencyMin (conf w) <= concurrencyMax (conf w) ->
  let w' := exec drainTaskBatch w in
  processingCount (st w) <= processingCount (st w')
    <= Z.max (processingCount (st w)) (concurrency (st w)) /\
  launches w' - launches w = processingCount (st w') - processingCount (st w) /\
  processingCount (st w') - processingCount (st w)
    <= Z.max 0 (concurrency (st w) - processingCount (st w)) /\
  concurrencyMin (conf w') <= concurrency (st w') <= concurrencyMax (conf w').
Proof.
  intros Hm. cbv zeta.
  destruct (drainTaskBatch_loop_part w) as (w1 & E & C1 & _ & C3 & C4 & C5).
  rewrite E. destruct (adapt_frame w1) as (F1 & F2 & F3).
  rewrite F1, F2, adapt_concurrency, C1. cbv zeta.
  split; [exact C4|]. split; [|split; lia].
  rewrite <- C5. unfold launches. rewrite F3. reflexivity.
Qed.

Lemma drain_respects_budget_and_bounds_witness :
  let w := one_parked_four_pending in
  let w' := exec drainTaskBatch w in
  (concurrencyMin (conf w) <= concurrencyMax (conf w) /\
   queue (st w) = [1; 2; 3; 4]%nat /\
   processingCount (st w) = 1 /\ concurrency (st w) = 4 /\
   queue (st w') = [4%nat] /\ processingCount (st w') = 4 /\
   launches w' - launches w = 3) /\
  processingCount (st w) <= processingCount (st w')
    <= Z.max (processingCount (st w)) (concurrency (st w)) /\
  launches w' - launches w = processingCount (st w') - processingCount (st w) /\
  processingCount (st w') - processingCount (st w)
    <= Z.max 0 (concurrency (st w) - processingCount (st w)) /\
  concurrencyMin (conf w') <= concurrency (st w') <= concurrencyMax (conf w').
Proof.
  cbv zeta. split.
  - repeat split; vm_compute; first [reflexivity | discriminate].
  - apply (drain_respects_budget_and_bounds one_parked_four_pending).
    vm_compute. discriminate.
Defined.

(** ** Hybrid strategy selector *)

(** C3.  The claim asks that a failed instant jump is followed by the
    stepping strategy on the same item.  In the script the stepping loop
    is the [else] branch of the test that chose the instant jump, so after
    the [catch] of line 196 has counted the failure the call goes straight
    to marking the item done.  Here a ready live stream rejects the jump to
    [Number.MAX_VALUE]: the failure is counted, no position is ever
    written and the call returns at once, whereas the stepping loop, run
    on that same item, writes a position and parks.  (An error of [muted]
    or [pause()] is swallowed where it occurs and counts as nothing: the
    jump goes on and succeeds.) *)
Theorem failed_instant_jump_skips_stepping :
  let w := initial (CONF None) (fun _ => live) still still in
  let w' := exec (processOneHybrid 0%nat) w in
  prefers_instant w 0%nat = true /\
  seek_raises (videos w 0%nat) JS.MAX_VALUE = true /\
  readyFailure (st w') = readyFailure (st w) + 1 /\
  effects w' = [Launched 0%nat; CleanedUp 0%nat; Toast 1] /\
  (currentTime (videos w' 0%nat) == currentTime (videos w 0%nat))%Q /\
  suspended w' = [] /\
  fsim_done (videos w' 0%nat) = true /\
  effects (exec (resume (mkTask 0%nat 0 (skipStepBase (conf w)))) w) = [Stepped 0%nat] /\
  (let wf := initial (CONF None) (fun _ => fussy) still still in
   let wf' := exec (processOneHybrid 0%nat) wf in
   prefers_instant wf 0%nat = true /\
   readyFailure (st wf') = 0 /\ readySuccess (st wf') = 1 /\
   muted (videos wf' 0%nat) = false /\ paused (videos wf' 0%nat) = false).
Proof. by_running. Qed.

Lemma finish_spec v s w :
  let w' := exec (finish v s) w in
  finished v w w' /\ suspended w' = suspended w /\
  effects w' = effects w ++ [CleanedUp v; Toast (doneCount (st w) + 1)] /\
  currentTime (videos w' v) = currentTime (videos w v).
Proof.
  cbv zeta. unfold finished, finish, push_sample. mred. cbn.
  rewrite Nat.eqb_refl. cbn. rewrite <- app_assoc. cbn.
  repeat split. exists []. reflexivity.
Qed.



Lemma step_positive (base k top : Q) :
  (0 < base)%Q -> (0 < top)%Q -> (0 <= k)%Q ->
  (0 < Qmin (Qmin (JS.or_default base base) (JS.or_default k base)) top)%Q.
Proof.
  intros Hb Ht Hk. repeat apply Q.min_glb_lt; try assumption.
  - unfold JS.or_default. destruct (Qeq_bool base 0); assumption.
  - unfold JS.or_default. destruct (Qeq_bool k 0) eqn:E; [assumption|].
    apply Qeq_bool_neq in E. apply Qle_lteq in Hk. destruct Hk as [Hk|Hk]; [exact Hk|].
    exfalso. apply E. symmetry. exact Hk.
Qed.

(** Timeouts and parked calls. *)
Lemma handle_timeout_parked (l : list Task) (tk : Task) (w : World) :
  suspended w = l ++ [tk] ->
  exec (handle (FireTimeout (List.length l))) w
  = exec (resume tk) (with_suspended (fun _ => l) w).
Proof.
  intros H. cbn [handle]. mstep.
  rewrite H, nth_error_app2, Nat.sub_diag by lia. cbn [nth_error]. mstep.
  f_equal. unfold with_suspended. rewrite H. f_equal.
  clear. induction l; cbn; congruence.
Qed.

Lemma run_timeouts_S (k n : nat) (w : World) :
  run (timeouts k (S n)) w = run (timeouts k n) (exec (handle (FireTimeout k)) w).
Proof. reflexivity. Qed.

Lemma timeouts_idle (k : nat) (n : nat) : forall w,
  nth_error (suspended w) k = None -> run (timeouts k n) w = w.
Proof.
  induction n as [|n IH]; intros w H; [reflexivity|].
  rewrite run_timeouts_S.
  assert (E : exec (handle (FireTimeout k)) w = w).
  { cbn [handle]. mstep. rewrite H. reflexivity. }
  rewrite E. apply IH, H.
Qed.

Section KnownDuration.

Variable tk : Task.
Variable d : Q.
Hypothesis step_pos : (0 < task_step tk)%Q.
Hypothesis reach : within_reach d (task_step tk).

Let v := task_video tk.



End KnownDuration.

Section UnknownDuration.

Variable tk : Task.

Let v := task_video tk.



End UnknownDuration.

Section OutOfReach.

Variable tk : Task.
Variables d c : Q.

Let v := task_video tk.

(** The step is absorbed: at position [c] more than half a second is
    left, and [c + step] rounds to [c]. *)
Hypothesis far : JS.leb (JS.sub d (JS.or_default c 0)) (1 # 2) = false.
Hypothesis absorbed :
  Qmin d (JS.add (JS.or_default c 0)
            (Qmin (task_step tk) (JS.sub d (JS.or_default c 0)))) = c.

(** One pass at such a position, while the script runs and the position
    can be set: the position is written back as it was and the call is
    parked again. *)
Lemma stepping_absorbed (w : World) :
  running (st w) = true ->
  known_duration (videos w v) = Some d ->
  (forall x, seek_raises (videos w v) x = false) ->
  currentTime (videos w v) = c ->
  let w' := exec (stepping tk) w in
  fst (stepping tk w) = Awaiting /\
  suspended w' = suspended w /\ running (st w') = true /\
  known_duration (videos w' v) = Some d /\
  (forall x, seek_raises (videos w' v) x = false) /\
  currentTime (videos w' v) = c /\
  fsim_done (videos w' v) = fsim_done (videos w v) /\
  doneCount (st w') = doneCount (st w).
Proof.
  subst v. revert far absorbed. destruct tk as [v s step].
  cbn [task_video task_step]. intros F A R K NR C. cbv zeta. unfold stepping.
  cbn [task_video task_step task_start]. mstep.
  rewrite R. cbn [negb]. mstep. rewrite K, C, F, NR, A. mstep. cbn.
  rewrite Nat.eqb_refl. repeat split; assumption.
Qed.

Lemma parked_absorbed_stays (l : list Task) : forall (n : nat) (w : World),
  suspended w = l ++ [tk] ->
  running (st w) = true ->
  known_duration (videos w v) = Some d ->
  (forall x, seek_raises (videos w v) x = false) ->
  currentTime (videos w v) = c ->
  let w' := run (timeouts (List.length l) n) w in
  suspended w' = l ++ [tk] /\
  currentTime (videos w' v) = c /\
  fsim_done (videos w' v) = fsim_done (videos w v) /\
  doneCount (st w') = doneCount (st w).
Proof.
  induction n as [|n IH]; intros w P R K NR C; cbv zeta; [repeat split; assumption|].
  rewrite run_timeouts_S, (handle_timeout_parked l tk w P).
  unfold resume. rewrite exec_bind.
  set (w0 := with_suspended (fun _ => l) w).
  destruct (stepping_absorbed w0 R K NR C) as (O & S0 & R1 & K1 & NR1 & C1 & F1 & D1).
  rewrite O. mstep. set (w1 := with_suspended _ _).
  destruct (IH w1) as (A & B & B' & B''); try assumption.
  - unfold w1. cbn. rewrite S0. reflexivity.
  - repeat split; [exact A|exact B| |].
    + rewrite B'. exact F1.
    + rewrite B''. exact D1.
Qed.

End OutOfReach.

(** A duration out of reach of the step is stepped for ever too.  On the
    video of duration [1e300] standing at [1e30] the step of [1e12] is
    absorbed by the rounding of line 218: however many timeouts fire while
    the script runs, the position stays where it was and the item is
    never marked done. *)
Lemma duration_out_of_reach_is_stepped_forever :
  reachable endless_parked /\
  running (st endless_parked) = true /\
  known_duration (videos endless_parked 0%nat) = Some (JS.fl (inject_Z (10 ^ 300))) /\
  ~ within_reach (JS.fl (inject_Z (10 ^ 300))) (stride endless_parked) /\
  forall n : nat,
    let w := run (timeouts 0 n) endless_parked in
    currentTime (videos w 0%nat) = JS.fl (inject_Z (10 ^ 30)) /\
    fsim_done (videos w 0%nat) = false /\ doneCount (st w) = 0 /\
    map task_video (suspended w) = [0%nat].
Proof.
  split; [|split; [reflexivity|split; [vm_compute; reflexivity|split]]].
  - exists None, (fun _ => endless), still, still, calm, [0%nat], [RunDrain]. reflexivity.
  - intros H. vm_compute in H. apply H. reflexivity.
  - intros n. cbv zeta.
    assert (E : exists s k,
               suspended endless_parked = [] ++ [mkTask 0%nat s k] /\
               k = inject_Z (10 ^ 12))
      by (eexists _, _; split; vm_compute; reflexivity).
    destruct E as (s & k & E & ->).
    destruct (parked_absorbed_stays (mkTask 0%nat s (inject_Z (10 ^ 12)))
                (JS.fl (inject_Z (10 ^ 300))) (JS.fl (inject_Z (10 ^ 30)))
                ltac:(vm_compute; reflexivity) ltac:(vm_compute; reflexivity)
                [] n endless_parked E) as (A & B & C & D).
    + reflexivity.
    + vm_compute. reflexivity.
    + intros x. reflexivity.
    + vm_compute. reflexivity.
    + cbn [List.length task_video] in *. rewrite A, B, C, D. repeat split.
Qed.





(** ** Frames of the remaining callbacks *)

Lemma enqueue_each_poll vids : forall w, poll (exec (enqueue_each vids) w) = poll w.
Proof.
  induction vids as [|v vids IH]; intros w; [reflexivity|].
  cbn [enqueue_each]. mstep. rewrite IH.
  mcases; reflexivity.
Qed.

Lemma enqueueNewVideos_poll vids w : poll (exec (enqueueNewVideos vids) w) = poll w.
Proof.
  unfold enqueueNewVideos. mstep.
  match goal with |- context [if ?b then _ else _] => destruct b end;
    rewrite ?exec_ret, ?(control_poll _ _ (scheduleTaskDrain_control _));
    change (poll (exec (enqueue_each vids) w) = poll w); apply enqueue_each_poll.
Qed.

Lemma adapt_wires w : wires (exec adaptCoreParameters w) = wires w.
Proof. unfold adaptCoreParameters. mred. break_if; reflexivity. Qed.

Lemma drain_loop_wires q : forall p w, wires (exec (drain_loop q p) w) = wires w.
Proof.
  induction q as [|v q IH]; intros p w; [reflexivity|].
  cbn [drain_loop]. mcases; rewrite ?IH; rewrite ?processOneHybrid_wires; reflexivity.
Qed.

Lemma adapt_poll w : poll (exec adaptCoreParameters w) = poll w.
Proof. unfold adaptCoreParameters. mred. break_if; reflexivity. Qed.

Lemma drain_loop_poll q : forall p w, poll (exec (drain_loop q p) w) = poll w.
Proof.
  induction q as [|v q IH]; intros p w; [reflexivity|].
  cbn [drain_loop]. mcases; rewrite ?IH;
    rewrite ?(control_poll _ _ (processOneHybrid_control _ _)); reflexivity.
Qed.

Lemma drainTaskBatch_poll w : poll (exec drainTaskBatch w) = poll w.
Proof.
  unfold drainTaskBatch. mstep. rewrite adapt_poll.
  rewrite (control_poll _ _ (push_sample_control _ _)).
  change (poll (exec (drain_loop (queue (st (with_perf_reads S w))) 0) (with_perf_reads S w))
          = poll w).
  rewrite drain_loop_poll. reflexivity.
Qed.

Lemma finally_callback_poll w : poll (exec finally_callback w) = poll w.
Proof.
  unfold finally_callback. mstep. break_if;
    rewrite ?exec_ret, ?(control_poll _ _ (scheduleTaskDrain_control _)); reflexivity.
Qed.

Lemma installObserver_poll f w : poll (exec (installObserver f) w) = poll w.
Proof. unfold installObserver. mred. break_if; reflexivity. Qed.

Lemma stopAll_poll f w :
  conf (exec (stopAll f) w) = conf w /\
  running (st (exec (stopAll f) w)) = false /\
  periodicEnq (exec (stopAll f) w) = periodicEnq w.
Proof. unfold stopAll. mred. break_if; repeat split. Qed.

(** No callback rearms or retunes the discovery poll, and only [stop]
    clears the running flag. *)
Lemma handle_poll (e : Event) (w : World) :
  let w' := exec (handle e) w in
  conf w' = conf w /\
  (running (st w') = running (st w) \/ running (st w') = false) /\
  (periodicEnq w' = periodicEnq w \/
   (periodicEnq w' = None /\ running (st w') = false)).
Proof.
  cbv zeta.
  destruct e; cbn [handle]; mstep.
  - destruct (drains w); mstep; [auto|]. by_poll (drainTaskBatch_poll (with_drains Nat.pred w)).
  - destruct (settled w); mstep; [auto|]. by_poll (finally_callback_poll (with_settled Nat.pred w)).
  - destruct (nth_error (suspended w) k) as [tk|]; mstep; [|auto].
    by_poll (control_poll _ _ (resume_control tk (with_suspended (remove_nth k) w))).
  - destruct ((observing w || stray w) && added); [|auto].
    by_poll (enqueueNewVideos_poll vids w).
  - destruct (periodicEnq w) eqn:E; mstep; [|rewrite E; auto].
    destruct (running (st w)) eqn:R; cbn [negb].
    + by_poll (enqueueNewVideos_poll vids w).
    + mstep. cbn. auto.
  - destruct (periodicDrain w); mstep; [|auto].
    destruct (running (st w)) eqn:R; cbn [negb]; mstep.
    + destruct (negb _); rewrite ?exec_ret; [|auto].
      by_poll (control_poll _ _ (scheduleTaskDrain_control w)).
    + cbn. auto.
  - match goal with |- context [if ?b then _ else _] => destruct b end;
      rewrite ?exec_ret; [|auto].
    by_poll (installObserver_poll f w).
  - destruct (stopAll_poll f w) as (A & B & C). auto.
Qed.

Lemma stopAll_stops (f : Faults) (w : World) :
  running (st (exec (stopAll f) w)) = false.
Proof. unfold stopAll. mred. break_if; reflexivity. Qed.

Lemma run_keeps_stopped (evs : list Event) : forall w,
  running (st w) = false -> running (st (run evs w)) = false.
Proof.
  induction evs as [|e evs IH]; intros w H; [exact H|].
  cbn [run]. apply IH. destruct (handle_poll e w) as (_ & [R|R] & _); congruence.
Qed.

(** C9.  Once [stop()] has run, whatever callbacks run next, the timeout
    of a parked call finds the running flag false at the test of line
    206: the call leaves the loop without writing a position, marks the
    item done, increments [doneCount], calls the cleanup (and the
    notification) and is no longer parked. *)
Theorem stop_finishes_parked_item
    (w : World) (f : Faults) (evs : list Event) (k : nat) (tk : Task) :
  let w1 := run evs (exec (stopAll f) w) in
  nth_error (suspended w1) k = Some tk ->
  let v := task_video tk in
  let w2 := exec (handle (FireTimeout k)) w1 in
  running (st w1) = false /\
  fsim_done (videos w2 v) = true /\
  doneCount (st w2) = doneCount (st w1) + 1 /\
  effects w2 = effects w1 ++ [CleanedUp v; Toast (doneCount (st w1) + 1)] /\
  currentTime (videos w2 v) = currentTime (videos w1 v) /\
  suspended w2 = remove_nth k (suspended w1).
Proof.
  cbv zeta. intros H.
  assert (R : running (st (run evs (exec (stopAll f) w))) = false)
    by (apply run_keeps_stopped, stopAll_stops).
  set (w1 := run evs (exec (stopAll f) w)) in *.
  cbn [handle]. mstep. rewrite H. mstep.
  unfold resume, stepping. mstep. cbn [with_suspended st]. rewrite R. cbn [negb]. mstep.
  match goal with |- context [exec (finish ?v ?s) ?w0] =>
    destruct (finish_spec v s w0) as ((F1 & F2 & _ & _) & S1 & E & C)
  end.
  repeat split; assumption.
Qed.

Lemma stop_finishes_parked_item_witness :
  let w1 := run [RunFinally] (exec (stopAll calm) long_parked) in
  exists tk : Task,
    (nth_error (suspended w1) 0 = Some tk /\ task_video tk = 0%nat) /\
    (currentTime (videos w1 0%nat) < inject_Z (5 * 10 ^ 12))%Q /\
    let v := task_video tk in
    let w2 := exec (handle (FireTimeout 0)) w1 in
    running (st w1) = false /\
    fsim_done (videos w2 v) = true /\
    doneCount (st w2) = doneCount (st w1) + 1 /\
    effects w2 = effects w1 ++ [CleanedUp v; Toast (doneCount (st w1) + 1)] /\
    currentTime (videos w2 v) = currentTime (videos w1 v) /\
    suspended w2 = remove_nth 0 (suspended w1).
Proof.
  cbv zeta. eexists. split; [split; vm_compute; reflexivity|].
  split; [vm_compute; reflexivity|].
  apply (stop_finishes_parked_item long_parked calm [RunFinally] 0).
  vm_compute. reflexivity.
Defined.

(** ** Marks are final *)

Section Marks.

Variable v : Id.

Lemma finish_marked u s w :
  marked v w -> marked v (exec (finish u s) w) /\ launched v (exec (finish u s) w) = launched v w.
Proof.
  unfold marked, finish, push_sample. mred. intros H. split; [keep_mark|count_launched].
Qed.

Lemma stepping_marked tk w :
  marked v w -> marked v (exec (stepping tk) w) /\ launched v (exec (stepping tk) w) = launched v w.
Proof.
  unfold marked, stepping, finish, push_sample. mred. intros H.
  break_if; cbn [snd]; (split; [keep_mark|count_launched]).
Qed.

Lemma resume_marked tk w :
  marked v w -> marked v (exec (resume tk) w) /\ launched v (exec (resume tk) w) = launched v w.
Proof.
  intros H. unfold resume. rewrite exec_bind.
  destruct (stepping_marked tk w H) as [A B].
  destruct (fst (stepping tk w)); mstep; split; assumption.
Qed.

Lemma instant_marked u w :
  marked v w -> marked v (exec (instant u) w) /\ launched v (exec (instant u) w) = launched v w.
Proof.
  unfold marked, instant. mred. intros H.
  break_if; cbn [snd]; (split; [keep_mark|count_launched]).
Qed.

Lemma processOneHybrid_marked u w :
  marked v w ->
  marked v (exec (processOneHybrid u) w) /\
  launched v (exec (processOneHybrid u) w)
  = launched v w + (if Nat.eqb u v then 1 else 0).
Proof.
  intros H. unfold processOneHybrid. mstep.
  set (w0 := with_perf_reads S (with_effects (fun l => l ++ [Launched u]) w)).
  assert (H0 : marked v w0) by exact H.
  assert (L0 : launched v w0 = launched v w + (if Nat.eqb u v then 1 else 0)).
  { unfold w0. count_launched. destruct (Nat.eqb u v); cbn; lia. }
  match goal with |- context [if ?b then _ else _] => destruct b end; mstep.
  - destruct (instant_marked u w0 H0) as [A B].
    match goal with |- context [exec (finish u ?s) ?w1] =>
      destruct (finish_marked u s w1 A) as [C D]
    end.
    split; [exact C|]. rewrite D, B, L0. reflexivity.
  - match goal with |- context [exec (resume ?tk) w0] =>
      destruct (resume_marked tk w0 H0) as [A B]
    end.
    split; [exact A|]. rewrite B, L0. reflexivity.
Qed.

Lemma drain_loop_marked q : forall p w,
  marked v w ->
  marked v (exec (drain_loop q p) w) /\ launched v (exec (drain_loop q p) w) = launched v w.
Proof.
  induction q as [|u q IH]; intros p w H; [split; [exact H|reflexivity]|].
  cbn [drain_loop]. mstep.
  destruct (_ && _); [|rewrite exec_ret; split; [exact H|reflexivity]].
  mstep. destruct (fsim_done (videos (with_st (set_queue q) w) u)) eqn:Du.
  - apply (IH p (with_st (set_queue q) w)). exact H.
  - mstep.
    assert (N : Nat.eqb u v = false).
    { destruct (Nat.eqb_spec u v) as [->|]; [|reflexivity].
      unfold marked in H. cbn in Du. congruence. }
    match goal with |- context [exec (processOneHybrid u) ?w0] =>
      destruct (processOneHybrid_marked u w0) as [A B]; [exact H|]
    end.
    rewrite N in B.
    match goal with |- context [exec (drain_loop q ?p') ?w1] =>
      destruct (IH p' w1 A) as [C D]
    end.
    split; [exact C|]. rewrite D, B. count_launched.
Qed.

End Marks.

(** What happens on the page: scheduling alone does not touch it. *)
Lemma scheduleTaskDrain_page w : page (exec scheduleTaskDrain w) = page w.
Proof. unfold scheduleTaskDrain. mred. break_if; reflexivity. Qed.

Lemma enqueue_each_page vids : forall w, page (exec (enqueue_each vids) w) = page w.
Proof.
  induction vids as [|u vids IH]; intros w; [reflexivity|].
  cbn [enqueue_each]. mstep. rewrite IH. mcases; reflexivity.
Qed.

Lemma enqueueNewVideos_page vids w : page (exec (enqueueNewVideos vids) w) = page w.
Proof.
  unfold enqueueNewVideos. mstep.
  match goal with |- context [if ?b then _ else _] => destruct b end;
    rewrite ?exec_ret, ?scheduleTaskDrain_page;
    change (page (exec (enqueue_each vids) w) = page w); apply enqueue_each_page.
Qed.

Lemma adapt_page w : page (exec adaptCoreParameters w) = page w.
Proof. unfold adaptCoreParameters. mred. break_if; reflexivity. Qed.

Lemma finally_callback_page w : page (exec finally_callback w) = page w.
Proof.
  unfold finally_callback. mstep. break_if;
    rewrite ?exec_ret, ?scheduleTaskDrain_page; reflexivity.
Qed.

Lemma installObserver_page f w : page (exec (installObserver f) w) = page w.
Proof. unfold installObserver. mred. break_if; reflexivity. Qed.

Lemma stopAll_page f w : page (exec (stopAll f) w) = page w.
Proof. unfold stopAll. mred. break_if; reflexivity. Qed.

Lemma page_marked v w w' :
  page w' = page w -> marked v w -> marked v w' /\ launched v w' = launched v w.
Proof.
  unfold page, marked, launched. intros E H. injection E as -> ->. split; [exact H|reflexivity].
Qed.

Lemma drainTaskBatch_marked v w :
  marked v w ->
  marked v (exec drainTaskBatch w) /\ launched v (exec drainTaskBatch w) = launched v w.
Proof.
  intros H.
  assert (P : page (exec drainTaskBatch w)
              = page (exec (drain_loop (queue (st (with_perf_reads S w))) 0)
                        (with_perf_reads S w))).
  { unfold drainTaskBatch. mstep. rewrite adapt_page. reflexivity. }
  destruct (drain_loop_marked v (queue (st (with_perf_reads S w))) 0
              (with_perf_reads S w) H) as [A B].
  destruct (page_marked v _ _ P A) as [C D]. split; [exact C|]. rewrite D. exact B.
Qed.

(** A mark is final, and a marked video is never launched again. *)
Lemma handle_marked (v : Id) (e : Event) (w : World) :
  marked v w ->
  marked v (exec (handle e) w) /\ launched v (exec (handle e) w) = launched v w.
Proof.
  intros H. destruct e; cbn [handle]; mstep.
  - destruct (drains w); mstep; [split; [exact H|reflexivity]|].
    apply (drainTaskBatch_marked v (with_drains Nat.pred w) H).
  - destruct (settled w); mstep; [split; [exact H|reflexivity]|].
    apply (page_marked v (with_settled Nat.pred w) _ (finally_callback_page _) H).
  - destruct (nth_error (suspended w) k) as [tk|]; mstep; [|split; [exact H|reflexivity]].
    apply (resume_marked v tk (with_suspended (remove_nth k) w) H).
  - destruct ((observing w || stray w) && added); [|split; [exact H|reflexivity]].
    apply (page_marked v w _ (enqueueNewVideos_page vids w) H).
  - destruct (periodicEnq w); mstep; [|split; [exact H|reflexivity]].
    destruct (negb (running (st w))); [split; [exact H|reflexivity]|].
    apply (page_marked v w _ (enqueueNewVideos_page vids w) H).
  - destruct (periodicDrain w); mstep; [|split; [exact H|reflexivity]].
    destruct (negb (running (st w))); mstep; [split; [exact H|reflexivity]|].
    destruct (negb _); rewrite ?exec_ret; [|split; [exact H|reflexivity]].
    apply (page_marked v w _ (scheduleTaskDrain_page w) H).
  - match goal with |- context [if ?b then _ else _] => destruct b end;
      rewrite ?exec_ret; [|split; [exact H|reflexivity]].
    apply (page_marked v w _ (installObserver_page f w) H).
  - apply (page_marked v w _ (stopAll_page f w) H).
Qed.

Lemma run_marked (v : Id) (evs : list Event) : forall w,
  marked v w -> marked v (run evs w) /\ launched v (run evs w) = launched v w.
Proof.
  induction evs as [|e evs IH]; intros w H; [split; [exact H|reflexivity]|].
  cbn [run]. destruct (handle_marked v e w H) as [A B].
  destruct (IH _ A) as [C D]. split; [exact C|]. rewrite D. exact B.
Qed.

Lemma with_st_same (w : World) : with_st (set_queue (queue (st w))) w = w.
Proof. destruct w as [c s]. destruct s. reflexivity. Qed.

(** The scan loop of [enqueueNewVideos] only appends to the queue: the
    found videos that are neither marked done nor queued, each once. *)
Lemma enqueue_each_effect (vids : list Id) : forall w,
  exists new,
    exec (enqueue_each vids) w = with_st (set_queue (queue (st w) ++ new)) w /\
    (NoDup (queue (st w)) -> NoDup (queue (st w) ++ new)) /\
    (forall u, In u new ->
       In u vids /\ fsim_done (videos w u) = false /\ ~ In u (queue (st w))) /\
    (forall u, In u vids -> fsim_done (videos w u) = false ->
       In u (queue (st w) ++ new)).
Proof.
  induction vids as [|v vids IH]; intros w.
  - exists []. cbn [enqueue_each]. rewrite exec_ret, app_nil_r, with_st_same.
    split; [reflexivity|]. split; [auto|]. split; intros u [].
  - cbn [enqueue_each]. mstep.
    destruct (fsim_done (videos w v)) eqn:D; mstep.
    + destruct (IH w) as (new & E & N & S1 & S2). exists new. rewrite E.
      split; [reflexivity|]. split; [exact N|]. split.
      * intros u Hu. destruct (S1 u Hu) as (A & B & C). repeat split; [right| |]; assumption.
      * intros u [<-|Hu] Du; [congruence|]. apply S2; assumption.
    + destruct (existsb (Nat.eqb v) (queue (st w))) eqn:X; cbn [negb]; mstep.
      * destruct (IH w) as (new & E & N & S1 & S2). exists new. rewrite E.
        split; [reflexivity|]. split; [exact N|]. split.
        -- intros u Hu. destruct (S1 u Hu) as (A & B & C).
           repeat split; [right| |]; assumption.
        -- intros u [<-|Hu] Du; [|apply S2; assumption].
           apply existsb_exists in X. destruct X as (y & Hy & Ey).
           apply Nat.eqb_eq in Ey. subst y. apply in_or_app. left. exact Hy.
      * set (w1 := with_st (set_queue (queue (st w) ++ [v])) w).
        destruct (IH w1) as (new & E & N & S1 & S2). exists (v :: new). rewrite E.
        assert (Nv : ~ In v (queue (st w))).
        { intros Hv.
          assert (Y : existsb (Nat.eqb v) (queue (st w)) = true)
            by (apply existsb_exists; exists v; split; [exact Hv|apply Nat.eqb_refl]).
          congruence. }
        change (queue (st w1)) with (queue (st w) ++ [v]) in *.
        change (videos w1) with (videos w) in *.
        replace (queue (st w) ++ v :: new) with ((queue (st w) ++ [v]) ++ new)
          by (rewrite <- app_assoc; reflexivity).
        split; [reflexivity|]. split; [|split].
        -- intros Q. apply N. apply NoDup_app; [exact Q|constructor; [intros []|constructor]|].
           intros y Hy [<-|[]]. exact (Nv Hy).
        -- intros u [<-|Hu]; [repeat split; [left; reflexivity|exact D|exact Nv]|].
           destruct (S1 u Hu) as (A & B & C). repeat split; [right; exact A|exact B|].
           intros Hq. apply C. apply in_or_app. left. exact Hq.
        -- intros u [<-|Hu] Du; [apply in_or_app; left; apply in_or_app; right; left; reflexivity|].
           apply S2; assumption.
Qed.

Lemma enqueue_each_noop vids : forall w,
  (forall u, In u vids -> fsim_done (videos w u) = true \/ In u (queue (st w))) ->
  exec (enqueue_each vids) w = w.
Proof.
  induction vids as [|u vids IH]; intros w H; [reflexivity|].
  cbn [enqueue_each]. mstep.
  assert (E : exec (if fsim_done (videos w u) then ret tt
                    else bind (gets (fun w0 => queue (st w0)))
                           (fun q => if negb (existsb (Nat.eqb u) q)
                                     then modify (with_st (set_queue (q ++ [u])))
                                     else ret tt)) w = w).
  { destruct (H u (or_introl eq_refl)) as [D|P].
    - rewrite D. reflexivity.
    - destruct (fsim_done (videos w u)); [reflexivity|]. mstep.
      assert (X : existsb (Nat.eqb u) (queue (st w)) = true).
      { apply existsb_exists. exists u. split; [exact P|apply Nat.eqb_refl]. }
      rewrite X. reflexivity. }
  rewrite E. apply IH. intros x Hx. apply H. now right.
Qed.

(** What [enqueueNewVideos] does to the queue: it appends found videos
    that were neither marked done nor queued. *)
Lemma enqueueNewVideos_queue (vids : list Id) (w : World) :
  exists new,
    queue (st (exec (enqueueNewVideos vids) w)) = queue (st w) ++ new /\
    (forall u, In u new ->
       In u vids /\ fsim_done (videos w u) = false /\ ~ In u (queue (st w))).
Proof.
  destruct (enqueue_each_effect vids w) as (new & E & _ & A & _).
  exists new. split; [|exact A].
  unfold enqueueNewVideos. mstep. rewrite E.
  destruct (negb _); [|reflexivity].
  match goal with |- context [exec scheduleTaskDrain ?w2] =>
    pose proof (scheduleTaskDrain_control w2) as C
  end.
  unfold control in C. injection C as _ _ _ _ _ _ C. rewrite C. reflexivity.
Qed.

(** C1, amended.  Whatever [enqueueNewVideos] finds, an item that is
    already pending or already marked done is not queued again: it is in
    the pending sequence as many times as before; when every item found is
    already pending or already marked done, the pending sequence is left
    as it is; and an item that is marked done stays marked and is never
    launched into the strategy selector again, whatever callbacks run.
    (Nothing is claimed of an item in flight.) *)
Theorem marked_or_pending_is_not_requeued_nor_relaunched
    (w : World) (vids : list Id) (v : Id) (evs : list Event) :
  (fsim_done (videos w v) = true \/ In v (queue (st w)) ->
   count_occ Nat.eq_dec (queue (st (exec (enqueueNewVideos vids) w))) v
   = count_occ Nat.eq_dec (queue (st w)) v) /\
  ((forall u, In u vids -> fsim_done (videos w u) = true \/ In u (queue (st w))) ->
   queue (st (exec (enqueueNewVideos vids) w)) = queue (st w)) /\
  (fsim_done (videos w v) = true ->
   launched v (run evs w) = launched v w /\
   fsim_done (videos (run evs w) v) = true).
Proof.
  destruct (enqueueNewVideos_queue vids w) as (new & E & A).
  split; [|split].
  - intros H. rewrite E, count_occ_app.
    assert (N : ~ In v new).
    { intros Hv. destruct (A v Hv) as (_ & D & Q0). destruct H; [congruence|tauto]. }
    apply (count_occ_not_In Nat.eq_dec) in N.
    change (count_occ Nat.eq_dec (queue (st w)) v + count_occ Nat.eq_dec new v
            = count_occ Nat.eq_dec (queue (st w)) v)%nat.
    rewrite N. apply Nat.add_0_r.
  - intros Hq. rewrite E.
    destruct new as [|u new]; [apply app_nil_r|].
    destruct (A u (or_introl eq_refl)) as (Hu & D & Q0).
    destruct (Hq u Hu); [congruence|tauto].
  - intros Hd. destruct (run_marked v evs w Hd) as [M L]. split; [exact L|exact M].
Qed.

Lemma marked_or_pending_is_not_requeued_nor_relaunched_witness :
  let w := clip_done_two_pending in
  let evs := [Mutation true [0; 3; 4]%nat; RunFinally; RunDrain; TickEnq [0%nat];
              TickDrain; RunDrain; FireTimeout 0] in
  (fsim_done (videos w 0%nat) = true /\ queue (st w) = [3; 4]%nat /\
   launched 0%nat w = 1 /\ launches (run evs w) = 5) /\
  count_occ Nat.eq_dec (queue (st (exec (enqueueNewVideos [0; 1; 2; 3; 4]%nat) w))) 3%nat
  = 1%nat /\
  queue (st (exec (enqueueNewVideos [0; 3; 4]%nat) w)) = [3; 4]%nat /\
  launched 0%nat (run evs w) = 1 /\
  fsim_done (videos (run evs w) 0%nat) = true.
Proof.
  cbv zeta.
  assert (D : fsim_done (videos clip_done_two_pending 0%nat) = true)
    by (vm_compute; reflexivity).
  assert (Q0 : queue (st clip_done_two_pending) = [3; 4]%nat) by (vm_compute; reflexivity).
  assert (L : launched 0%nat clip_done_two_pending = 1) by (vm_compute; reflexivity).
  split; [repeat split; try assumption; vm_compute; reflexivity|].
  split; [|split].
  - destruct (marked_or_pending_is_not_requeued_nor_relaunched clip_done_two_pending
                [0; 1; 2; 3; 4]%nat 3%nat []) as (H & _ & _).
    rewrite H; [rewrite Q0; reflexivity|].
    right. rewrite Q0. left. reflexivity.
  - destruct (marked_or_pending_is_not_requeued_nor_relaunched clip_done_two_pending
                [0; 3; 4]%nat 0%nat []) as (_ & H & _).
    rewrite H; [exact Q0|].
    intros u [<-|[<-|[<-|[]]]]; [left; exact D|right; rewrite Q0..].
    + left. reflexivity.
    + right. left. reflexivity.
  - destruct (marked_or_pending_is_not_requeued_nor_relaunched clip_done_two_pending
                [] 0%nat
                [Mutation true [0; 3; 4]%nat; RunFinally; RunDrain; TickEnq [0%nat];
                 TickDrain; RunDrain; FireTimeout 0]) as (_ & _ & H).
    destruct (H D) as [H1 H2]. rewrite H1. split; [exact L|exact H2].
Defined.

(** ** Feedback controller *)

Lemma sum_skips_zeros (l : list Sample) : forall a : Q,
  (fold_left Qplus (map ms (filter (fun s => JS.truthy (ms s)) l)) a
   == fold_left Qplus (map ms l) a)%Q.
Proof.
  induction l as [|s l IH]; simpl; intros a; [reflexivity|].
  destruct (JS.truthy (ms s)) eqn:E; simpl; [apply IH|].
  rewrite IH. apply fold_Qplus_compat.
  unfold JS.truthy in E. apply negb_false_iff, Qeq_bool_iff in E.
  rewrite E. ring.
Qed.

(** C5, the claim as stated fails: [filter(Boolean)] drops the samples of
    0 ms before the mean is taken.  A window holding a 0 ms and a 30 ms
    sample has mean 15, and the controller computes 30. *)
Lemma work_avg_drops_zero_sample :
  (work_avg zero_and_thirty == 30)%Q /\
  (mean_of_all zero_and_thirty == 15)%Q /\
  Qeq_bool (work_avg zero_and_thirty) (mean_of_all zero_and_thirty) = false.
Proof. repeat split. Qed.

(** C5, amended.  The controller's [avg] is the arithmetic mean of the
    non-zero durations among the samples of the window, and 0 when there
    is none; the zero samples change the divisor, not the sum; and when no
    sample of the window is 0 ms, [avg] is the mean of all of them. *)
Theorem work_avg_is_mean_of_nonzero_samples (samples : list Sample) :
  let kept := filter (fun s => JS.truthy (ms s)) samples in
  (work_avg samples == mean_of_all kept)%Q /\
  (JS.sum (map ms kept) == JS.sum (map ms samples))%Q /\
  ((forall s, In s samples -> ~ (ms s == 0)%Q) ->
   (work_avg samples == mean_of_all samples)%Q).
Proof.
  cbv zeta.
  assert (E : (work_avg samples
               == mean_of_all (filter (fun s => JS.truthy (ms s)) samples))%Q).
  { unfold work_avg, mean_of_all. rewrite filter_map_comm.
    destruct (filter _ samples) as [|s k]; simpl map; cbv iota; [reflexivity|].
    unfold JS.of_len. simpl List.length. rewrite length_map. reflexivity. }
  split; [exact E|]. split; [apply sum_skips_zeros|].
  intros H. rewrite E, filter_all; [reflexivity|].
  intros s Hs. unfold JS.truthy. apply negb_true_iff.
  destruct (Qeq_bool (ms s) 0) eqn:Q0; [|reflexivity].
  apply Qeq_bool_iff in Q0. now apply H in Hs.
Qed.

Lemma work_avg_is_mean_of_nonzero_samples_witness :
  (forall s, In s [mkSample 0 3; mkSample 0 30] -> ~ (ms s == 0)%Q) /\
  (work_avg [mkSample 0 3; mkSample 0 30]
   == mean_of_all [mkSample 0 3; mkSample 0 30])%Q.
Proof.
  assert (H : forall s, In s [mkSample 0 3; mkSample 0 30] -> ~ (ms s == 0)%Q).
  { intros s [<-|[<-|[]]]; vm_compute; discriminate. }
  split; [exact H|].
  exact (proj2 (proj2 (work_avg_is_mean_of_nonzero_samples
                         [mkSample 0 3; mkSample 0 30])) H).
Defined.

(** C6, the claim as stated fails on a state whose concurrency is out of
    range.  On a machine with two cores [concurrencyMax] is 2 and the
    script starts with [concurrencyInit = 3]; the first activation measures
    15 ms, inside the dead band, and the final clamp of the controller
    brings concurrency from 3 to 2. *)
Lemma dead_band_clamps_initial_concurrency :
  let w0 := booted (CONF (Some 2)) (fun _ => blank) late_end still calm [0%nat] in
  let w1 := run [RunDrain] w0 in
  let w := with_st (set_lastWorkSamples [mkSample 0 15])
             (initial (CONF (Some 2)) (fun _ => blank) still still) in
  (concurrency (st w0) = 3 /\
   (adaptTargetWorkMs (conf w0) < work_avg (lastWorkSamples (st w1)))%Q /\
   (work_avg (lastWorkSamples (st w1)) <= adaptTargetWorkMs (conf w0) * (9 # 5))%Q /\
   concurrency (st w1) = 2) /\
  (concurrency (st w) = 3 /\
   (work_avg (lastWorkSamples (st w)) == 15)%Q /\
   concurrency (st (exec adaptCoreParameters w)) = 2).
Proof. by_running. Qed.

(** C6, amended.  For a non-negative target and a state whose concurrency
    lies within [[concurrencyMin, concurrencyMax]] (as it does after any
    controller update), one update leaves concurrency unchanged when
    [target < avg <= target * 1.8], sets it to [min(max, c + 1)] when
    [avg < target], and to [max(min, c - 1)] when [avg > target * 1.8]. *)
Theorem concurrency_update_in_range (w : World) :
  concurrencyMin (conf w) <= concurrency (st w) <= concurrencyMax (conf w) ->
  (0 <= adaptTargetWorkMs (conf w))%Q ->
  let avg := work_avg (lastWorkSamples (st w)) in
  let target := adaptTargetWorkMs (conf w) in
  let c := concurrency (st w) in
  let c' := concurrency (st (exec adaptCoreParameters w)) in
  ((target < avg)%Q /\ (avg <= target * (9 # 5))%Q -> c' = c) /\
  ((avg < target)%Q -> c' = Z.min (concurrencyMax (conf w)) (c + 1)) /\
  ((target * (9 # 5) < avg)%Q -> c' = Z.max (concurrencyMin (conf w)) (c - 1)).
Proof.
  intros Hc Ht. cbv zeta. rewrite adapt_concurrency. cbv zeta.
  destruct (JS.ltb (work_avg (lastWorkSamples (st w))) (adaptTargetWorkMs (conf w))) eqn:E1;
  [|destruct (JS.ltb (adaptTargetWorkMs (conf w) * (9 # 5))
                     (work_avg (lastWorkSamples (st w)))) eqn:E2];
  rewrite ?ltb_lt, ?ltb_ge in *;
  (split; [intros [H1 H2]|split; intros H]); solve [lia | exfalso; lra].
Qed.

Lemma concurrency_update_in_range_witness :
  let w := with_st (set_lastWorkSamples [mkSample 0 15])
             (initial (CONF None) (fun _ => blank) still still) in
  (concurrencyMin (conf w) <= concurrency (st w) <= concurrencyMax (conf w) /\
   (0 <= adaptTargetWorkMs (conf w))%Q /\
   (adaptTargetWorkMs (conf w) < work_avg (lastWorkSamples (st w)))%Q /\
   (work_avg (lastWorkSamples (st w)) <= adaptTargetWorkMs (conf w) * (9 # 5))%Q) /\
  concurrency (st (exec adaptCoreParameters w)) = concurrency (st w).
Proof.
  cbv zeta. split; [by_running|].
  apply (concurrency_update_in_range
           (with_st (set_lastWorkSamples [mkSample 0 15])
              (initial (CONF None) (fun _ => blank) still still))).
  - by_running.
  - by_running.
  - by_running.
Defined.

(** C7, the claim as stated fails: the discovery poll is armed once, with
    [Math.max(200, CONF.batchDelayInit)], and [state.batchDelay] is read
    by the controller only.  After one activation the controller has
    relaxed [batchDelay] to 180, after two to 162, and the poll still
    fires every 200 ms. *)
Lemma poll_period_ignores_batchDelay :
  let w1 := one_parked in
  let w2 := run [RunDrain; Mutation true [0%nat]; RunDrain]
              (booted (CONF None) (fun _ => blank) still still calm [0%nat]) in
  reachable w1 /\ reachable w2 /\
  (batchDelay (st w1) == 180)%Q /\ (batchDelay (st w2) == 162)%Q /\
  (exists p, periodicEnq w1 = Some p /\ (p == 200)%Q /\
             Qeq_bool p (batchDelay (st w1)) = false) /\
  (exists p, periodicEnq w2 = Some p /\ (p == 200)%Q /\
             Qeq_bool p (batchDelay (st w2)) = false).
Proof.
  cbv zeta. split; [|split].
  - exists None, (fun _ => blank), still, still, calm, [0%nat], [RunDrain]. reflexivity.
  - exists None, (fun _ => blank), still, still, calm, [0%nat],
      [RunDrain; Mutation true [0%nat]; RunDrain]. reflexivity.
  - split; [by_running|]. split; [by_running|].
    split; eexists; (split; [vm_compute; reflexivity|by_running]).
Qed.

(** C7, amended.  Whatever the configuration, the page and the callbacks
    that have run, the discovery poll is armed with the period
    [max(200, batchDelayInit)] fixed at bootstrap, until a tick after
    [stop] clears it; the [batchDelay] kept by the controller has no
    part in it. *)
Theorem poll_interval_fixed_at_bootstrap
    (c : Conf) (vs : Id -> Video) (perf date : nat -> Q) (f : Faults)
    (vids : list Id)
    (evs : list Event) :
  let w := run evs (booted c vs perf date f vids) in
  periodicEnq w = Some (Qmax 200 (batchDelayInit c)) \/
  (periodicEnq w = None /\ running (st w) = false).
Proof.
  cbv zeta.
  assert (B : conf (booted c vs perf date f vids) = c /\
              periodicEnq (booted c vs perf date f vids)
              = Some (Qmax 200 (batchDelayInit c))).
  { unfold booted, bootstrap, startSelfHeal. mstep.
    cbn [periodicEnq conf with_periodicDrain with_periodicEnq].
    match goal with |- context [exec (enqueueNewVideos vids) ?W] =>
      pose proof (enqueueNewVideos_poll vids W) as H
    end.
    pose proof (installObserver_poll f (initial c vs perf date)) as H0.
    unfold poll in H, H0. injection H as H1 _ _. injection H0 as H2 _ _.
    rewrite H1. cbn [conf with_st]. rewrite H2. split; reflexivity. }
  destruct B as [Bc Bp].
  assert (G : forall evs w,
             conf w = c ->
             periodicEnq w = Some (Qmax 200 (batchDelayInit c)) \/
               (periodicEnq w = None /\ running (st w) = false) ->
             periodicEnq (run evs w) = Some (Qmax 200 (batchDelayInit c)) \/
               (periodicEnq (run evs w) = None /\ running (st (run evs w)) = false)).
  { clear. induction evs as [|e evs IH]; intros w Hc Hp; [exact Hp|].
    cbn [run]. destruct (handle_poll e w) as (H1 & H2 & H3). cbv zeta in *.
    apply IH; [congruence|].
    destruct H3 as [H3|H3]; [|auto].
    rewrite H3. destruct Hp as [Hp|[Hp Hr]]; [auto|].
    right. split; [exact Hp|]. destruct H2; congruence. }
  apply G; auto.
Qed.

(** ** Control surface *)

(** C8.  [status()] returns the snapshot of the seven fields and leaves
    the world, and with it every field of [state], exactly as it was. *)
Theorem status_is_read_only (Number_toString : Q -> string) (w : World) :
  snd (status Number_toString w) = w /\
  Status.running (fst (status Number_toString w)) = running (st w) /\
  Status.concurrency (fst (status Number_toString w)) = concurrency (st w) /\
  Status.queueLength (fst (status Number_toString w))
    = Z.of_nat (List.length (queue (st w))) /\
  Status.processing (fst (status Number_toString w)) = processingCount (st w) /\
  Status.done (fst (status Number_toString w)) = doneCount (st w) /\
  Status.seen (fst (status Number_toString w)) = seenCount (st w) /\
  Status.avgWorkMs (fst (status Number_toString w))
    = match lastWorkSamples (st w) with
      | [] => JSNumber 0
      | _ => JSString (toFixed Number_toString (status_mean (lastWorkSamples (st w))) 2)
      end.
Proof. repeat split. Qed.

(** *** The mean of [status()], in doubles *)




(** *** The value of the string that [toFixed(2)] returns *)

















(** ** Discovery *)

Lemma list_all_In {A} (PA : A -> Type) (Q : A -> Prop) (l : list A) :
  (forall a, PA a -> Q a) -> list_all A PA l -> forall a, In a l -> Q a.
Proof.
  intros H. induction 1 as [|a pa l _ IH]; intros x Hx; [destruct Hx|].
  destruct Hx as [<-|Hx]; [exact (H _ pa)|exact (IH x Hx)].
Qed.

Lemma Scope_induction (P : Scope -> Prop) :
  (forall q vids all frames,
     (forall s, In (Holds s) (slots all) -> P s) ->
     (forall s, In (Holds s) (slots frames) -> P s) ->
     P (mkScope q vids all frames)) ->
  forall s, P s.
Proof.
  intros H.
  assert (G : forall a, Access_all Scope P a -> forall s, a = Holds s -> P s).
  { intros a [| |s0 p] s E; try discriminate. injection E as <-. exact p. }
  induction s as [q vids all Hall frames Hfr].
  apply H.
  - intros s Hs. destruct Hall as [|l Hl]; [destruct Hs|].
    exact (list_all_In _ (fun a => forall s, a = Holds s -> P s) l G Hl _ Hs s eq_refl).
  - intros s Hs. destruct Hfr as [|l Hl]; [destruct Hs|].
    exact (list_all_In _ (fun a => forall s, a = Holds s -> P s) l G Hl _ Hs s eq_refl).
Qed.

Lemma push_new_In (v : Id) (vs : list Id) : forall out,
  In v (fold_left push_new vs out) <-> In v out \/ In v vs.
Proof.
  induction vs as [|x vs IH]; intros out; cbn [fold_left].
  - split; [auto|intros [H|[]]; exact H].
  - rewrite IH. unfold push_new. destruct (existsb (Nat.eqb x) out) eqn:E.
    + apply existsb_exists in E. destruct E as (y & Hy & E). apply Nat.eqb_eq in E. subst y.
      cbn [In]. split; [intros [H|H]; auto|intros [H|[<-|H]]; auto].
    + rewrite in_app_iff. cbn [In]. tauto.
Qed.

Lemma push_new_prefix (vs : list Id) : forall out,
  exists ext, fold_left push_new vs out = out ++ ext.
Proof.
  induction vs as [|x vs IH]; intros out; cbn [fold_left].
  - exists []. symmetry. apply app_nil_r.
  - destruct (IH (push_new out x)) as [ext E]. rewrite E. unfold push_new.
    destruct (existsb (Nat.eqb x) out); [exists ext; reflexivity|].
    exists ([x] ++ ext). rewrite app_assoc. reflexivity.
Qed.

Lemma push_new_NoDup (vs : list Id) : forall out,
  NoDup out -> NoDup (fold_left push_new vs out).
Proof.
  induction vs as [|x vs IH]; intros out H; cbn [fold_left]; [exact H|].
  apply IH. unfold push_new. destruct (existsb (Nat.eqb x) out) eqn:E; [exact H|].
  apply NoDup_app; [exact H|constructor; [intros []|constructor]|].
  intros y Hy [->|[]].
  assert (X : existsb (Nat.eqb y) out = true)
    by (apply existsb_exists; exists y; split; [exact Hy|apply Nat.eqb_refl]).
  congruence.
Qed.

Section Visits.

Variable scan : Scope -> list Id -> list Id.
Variable l : list (Access Scope).

Lemma visits_prefix :
  (forall s, In (Holds s) l -> forall out, exists ext, scan s out = out ++ ext) ->
  forall out, exists ext, fold_left (visit scan) l out = out ++ ext.
Proof.
  induction l as [|a l' IH]; intros H out; cbn [fold_left].
  - exists []. symmetry. apply app_nil_r.
  - assert (E : exists e, visit scan out a = out ++ e).
    { destruct a; cbn [visit]; try (exists []; symmetry; apply app_nil_r).
      apply H. left. reflexivity. }
    destruct E as [e E]. rewrite E.
    destruct (IH (fun s Hs => H s (or_intror Hs)) (out ++ e)) as [ext X].
    exists (e ++ ext). rewrite X, app_assoc. reflexivity.
Qed.

Lemma visits_NoDup :
  (forall s, In (Holds s) l -> forall out, NoDup out -> NoDup (scan s out)) ->
  forall out, NoDup out -> NoDup (fold_left (visit scan) l out).
Proof.
  induction l as [|a l' IH]; intros H out N; cbn [fold_left]; [exact N|].
  apply (IH (fun s Hs => H s (or_intror Hs))).
  destruct a; cbn [visit]; try exact N. apply H; [left; reflexivity|exact N].
Qed.

Lemma visits_In (v : Id) :
  (forall s, In (Holds s) l -> forall out, In v (scan s out) <-> In v out \/ visible s v) ->
  forall out,
    In v (fold_left (visit scan) l out)
    <-> In v out \/ exists s, In (Holds s) l /\ visible s v.
Proof.
  induction l as [|a l' IH]; intros H out; cbn [fold_left].
  - split; [auto|intros [X|(s & [] & _)]; exact X].
  - rewrite (IH (fun s Hs => H s (or_intror Hs))).
    destruct a as [| |s0]; cbn [visit].
    + split; [intros [X|(s & Hs & V)]; [auto|right; exists s; split; [right|]; assumption]
             |intros [X|(s & [Hs|Hs] & V)]; [auto|discriminate|right; exists s; auto]].
    + split; [intros [X|(s & Hs & V)]; [auto|right; exists s; split; [right|]; assumption]
             |intros [X|(s & [Hs|Hs] & V)]; [auto|discriminate|right; exists s; auto]].
    + rewrite (H s0 (or_introl eq_refl)).
      split.
      * intros [[X|X]|(s & Hs & V)]; [auto| |].
        -- right. exists s0. split; [left; reflexivity|exact X].
        -- right. exists s. split; [right; exact Hs|exact V].
      * intros [X|(s & [Hs|Hs] & V)]; [auto| |].
        -- injection Hs as ->. auto.
        -- right. exists s. auto.
Qed.

End Visits.

(** X1.  [findVideos] only appends: what [out] held stays where it was, at
    the front of the result; and it never adds a video that is already
    there, so a list without duplicates stays without duplicates, however
    many shadow roots and frames lead to the same video. *)
Theorem findVideos_keeps_out_and_never_duplicates (root : Scope) (out : list Id) :
  (exists ext, findVideos root out = out ++ ext) /\
  (NoDup out -> NoDup (findVideos root out)).
Proof.
  revert out. induction root as [q vids all frames IHa IHf] using Scope_induction.
  intros out. destruct q; cbn [findVideos]; [|split; [exists []; symmetry; apply app_nil_r|auto]].
  destruct vids as [|vs]; [split; [exists []; symmetry; apply app_nil_r|auto]|].
  destruct (push_new_prefix vs out) as [e1 E1].
  pose proof (push_new_NoDup vs out) as N1.
  destruct all as [|els]; [split; [exists e1; exact E1|exact N1]|].
  cbn [slots] in IHa.
  destruct (visits_prefix findVideos els (fun s Hs o => proj1 (IHa s Hs o))
              (fold_left push_new vs out)) as [e2 E2].
  pose proof (visits_NoDup findVideos els (fun s Hs o => proj2 (IHa s Hs o))
                (fold_left push_new vs out)) as N2.
  destruct frames as [|frs].
  - split; [exists (e1 ++ e2); rewrite E2, E1, app_assoc; reflexivity|auto].
  - cbn [slots] in IHf.
    destruct (visits_prefix findVideos frs (fun s Hs o => proj1 (IHf s Hs o))
                (fold_left (visit findVideos) els (fold_left push_new vs out))) as [e3 E3].
    pose proof (visits_NoDup findVideos frs (fun s Hs o => proj2 (IHf s Hs o))
                  (fold_left (visit findVideos) els (fold_left push_new vs out))) as N3.
    split; [|auto].
    exists (e1 ++ e2 ++ e3). rewrite E3, E2, E1, <- !app_assoc. reflexivity.
Qed.

Lemma findVideos_In (root : Scope) (out : list Id) (v : Id) :
  In v (findVideos root out) <-> In v out \/ visible root v.
Proof.
  revert out. induction root as [q vids all frames IHa IHf] using Scope_induction.
  intros out. destruct q; cbn [findVideos].
  2:{ split; [auto|intros [H|H]; [exact H|inversion H]]. }
  destruct vids as [|vs].
  { split; [auto|intros [H|H]; [exact H|inversion H]]. }
  destruct all as [|els].
  { rewrite push_new_In. split; [intros [H|H]; [auto|right; constructor; exact H]|].
    intros [H|H]; [auto|]. inversion H; subst. auto. }
  cbn [slots] in IHa.
  destruct frames as [|frs].
  - rewrite (visits_In findVideos els v IHa), push_new_In.
    split.
    + intros [[H|H]|(s & Hs & V)]; [auto|right; constructor; exact H|].
      right. eapply visible_in_shadow; eassumption.
    + intros [H|H]; [auto|]. inversion H; subst; [auto|].
      right. eexists. split; eassumption.
  - cbn [slots] in IHf.
    rewrite (visits_In findVideos frs v IHf), (visits_In findVideos els v IHa), push_new_In.
    split.
    + intros [[[H|H]|(s & Hs & V)]|(s & Hs & V)]; [auto|right; constructor; exact H| |].
      * right. eapply visible_in_shadow; eassumption.
      * right. eapply visible_in_frame; eassumption.
    + intros [H|H]; [auto|]. inversion H; subst; [auto| |].
      * left. right. eexists. split; eassumption.
      * right. eexists. split; eassumption.
Qed.

(** X2.  [findVideos] finds the videos that can be reached, and nothing
    else: a video is in the result exactly when it was in [out] or it is
    listed by the root, by a shadow root of one of its elements or by the
    document of one of its iframes, at any depth.  A [shadowRoot] or
    [contentDocument] that is null or throws only hides what is behind it;
    a query that throws hides what the root would have listed after it. *)
Theorem findVideos_finds_exactly_the_visible (root : Scope) (out : list Id) (v : Id) :
  In v (findVideos root out) <-> In v out \/ visible root v.
Proof. exact (findVideos_In root out v). Qed.

(** ** What a callback does to the books *)

Lemma finish_tally v s w :
  let w' := exec (finish v s) w in
  steady w' = steady w /\ launches w' = launches w /\
  readySuccess (st w') = readySuccess (st w) /\ readyFailure (st w') = readyFailure (st w) /\
  parked w' = parked w /\ unsettled w' = unsettled w + 1 /\
  doneCount (st w') = doneCount (st w) + 1.
Proof.
  cbv zeta. unfold finish, push_sample. mred. unfold parked, unsettled. cbn.
  repeat split; try lia. count_launches.
Qed.

Lemma stepping_tally tk w :
  let w' := exec (stepping tk) w in
  steady w' = steady w /\ launches w' = launches w /\
  readySuccess (st w') = readySuccess (st w) /\ readyFailure (st w') = readyFailure (st w) /\
  match fst (stepping tk w) with
  | Awaiting => parked w' = parked w /\ unsettled w' = unsettled w /\
                doneCount (st w') = doneCount (st w)
  | Returned => parked w' = parked w /\ unsettled w' = unsettled w + 1 /\
                doneCount (st w') = doneCount (st w) + 1
  end.
Proof.
  cbv zeta.
  assert (F : forall v s w0,
             steady w0 = steady w -> launches w0 = launches w ->
             readySuccess (st w0) = readySuccess (st w) ->
             readyFailure (st w0) = readyFailure (st w) ->
             parked w0 = parked w -> unsettled w0 = unsettled w ->
             doneCount (st w0) = doneCount (st w) ->
             steady (exec (finish v s) w0) = steady w /\
             launches (exec (finish v s) w0) = launches w /\
             readySuccess (st (exec (finish v s) w0)) = readySuccess (st w) /\
             readyFailure (st (exec (finish v s) w0)) = readyFailure (st w) /\
             parked (exec (finish v s) w0) = parked w /\
             unsettled (exec (finish v s) w0) = unsettled w + 1 /\
             doneCount (st (exec (finish v s) w0)) = doneCount (st w) + 1).
  { intros v s w0 A B C D E F G.
    destruct (finish_tally v s w0) as (A' & B' & C' & D' & E' & F' & G'). cbv zeta in *.
    repeat split; congruence. }
  unfold stepping. mstep.
  destruct (running (st w)); cbn [negb]; mstep; [|apply F; reflexivity].
  destruct (known_duration _); mstep.
  - destruct (JS.leb _ _); destruct (seek_raises _ _); mstep;
      try (apply F; try reflexivity; count_launches);
      repeat split; count_launches.
  - destruct (seek_raises _ _); mstep;
      try (apply F; try reflexivity; count_launches);
      repeat split; count_launches.
Qed.

Lemma resume_tally tk w :
  let w' := exec (resume tk) w in
  steady w' = steady w /\ launches w' = launches w /\
  readySuccess (st w') = readySuccess (st w) /\ readyFailure (st w') = readyFailure (st w) /\
  parks_or_returns w w'.
Proof.
  cbv zeta. unfold resume. rewrite exec_bind.
  destruct (stepping_tally tk w) as (A & B & C & D & E). cbv zeta in *.
  destruct (fst (stepping tk w)); mstep; destruct E as (E1 & E2 & E3);
    (split; [exact A|split; [exact B|split; [exact C|split; [exact D|]]]]).
  - left. unfold parked in *. cbn [suspended with_suspended]. rewrite length_app. cbn.
    repeat split; try assumption. lia.
  - right. repeat split; assumption.
Qed.

Lemma prefers_instant_rate (s : State) :
  0 <= readySuccess s -> 0 <= readyFailure s ->
  (JS.ltb (2 # 5) (readyRate s) = true <-> 2 * readyFailure s < 3 * readySuccess s + 1).
Proof.
  intros Hs Hf. rewrite ltb_lt. unfold readyRate.
  set (a := readySuccess s + 1). set (b := readySuccess s + readyFailure s + 2).
  assert (Hb : (0 < inject_Z b)%Q).
  { change 0%Q with (inject_Z 0). rewrite <- Zlt_Qlt. unfold b. lia. }
  assert (E : (2 # 5 < inject_Z a / inject_Z b)%Q <-> (inject_Z (2 * b) < inject_Z (5 * a))%Q).
  { rewrite !inject_Z_mult. split; intros H.
    - apply Qmult_lt_compat_r with (z := inject_Z b) in H; [|exact Hb].
      assert (X : (inject_Z a / inject_Z b * inject_Z b == inject_Z a)%Q) by (field; lra).
      rewrite X in H. change (inject_Z 2) with 2%Q. change (inject_Z 5) with 5%Q. lra.
    - apply Qlt_shift_div_l; [exact Hb|].
      change (inject_Z 2) with 2%Q in H. change (inject_Z 5) with 5%Q in H. lra. }
  rewrite E, <- Zlt_Qlt. unfold a, b. lia.
Qed.

Lemma locked_out_skips_instant (w : World) (v : Id) :
  0 <= readySuccess (st w) -> 0 <= readyFailure (st w) ->
  locked_out (st w) -> prefers_instant w v = false.
Proof.
  intros Hs Hf L. unfold prefers_instant.
  assert (X : JS.ltb (2 # 5) (readyRate (st w)) = false).
  { destruct (JS.ltb (2 # 5) (readyRate (st w))) eqn:E; [|reflexivity].
    apply prefers_instant_rate in E; try assumption. unfold locked_out in L. lia. }
  rewrite X. destruct (match readyState (videos w v) with Some r => _ | None => _ end); reflexivity.
Qed.

Lemma instant_tally v w :
  let w' := exec (instant v) w in
  steady w' = steady w /\ launches w' = launches w /\
  parked w' = parked w /\ unsettled w' = unsettled w /\
  doneCount (st w') = doneCount (st w) /\
  (readySuccess (st w') = readySuccess (st w) + 1 /\ readyFailure (st w') = readyFailure (st w)
   \/ readySuccess (st w') = readySuccess (st w) /\
      readyFailure (st w') = readyFailure (st w) + 1).
Proof.
  cbv zeta. unfold instant. mred.
  destruct (seek_raises _ _); cbn [snd]; unfold parked, unsettled;
    repeat split; try count_launches; [right|left]; split; reflexivity.
Qed.

(** What one call of [processOneHybrid] does to the books. *)
Lemma processOneHybrid_tally v w :
  let w' := exec (processOneHybrid v) w in
  steady w' = steady w /\ launches w' = launches w + 1 /\
  parks_or_returns w w' /\
  readySuccess (st w) <= readySuccess (st w') /\
  readyFailure (st w) <= readyFailure (st w') /\
  (prefers_instant w v = false ->
   readySuccess (st w') = readySuccess (st w) /\ readyFailure (st w') = readyFailure (st w)).
Proof.
  cbv zeta. unfold processOneHybrid. mstep.
  set (w0 := with_perf_reads S (with_effects (fun l => l ++ [Launched v]) w)).
  assert (L0 : launches w0 = launches w + 1) by (unfold w0; count_launches).
  change (match readyState (videos w0 v) with
          | Some r => preferInstantReadyState (conf w0) <=? r
          | None => true
          end &&
          (match readyState (videos w0 v) with
           | Some r => preferInstantReadyState (conf w0) <=? r
           | None => true
           end && JS.ltb (2 # 5) (readyRate (st w0))))
    with (prefers_instant w v).
  destruct (prefers_instant w v); mstep.
  - destruct (instant_tally v w0) as (A & B & C & D & E & F). cbv zeta in *.
    match goal with |- context [exec (finish v ?s) ?w1] =>
      destruct (finish_tally v s w1) as (A' & B' & C' & D' & E' & F' & G')
    end. cbv zeta in *.
    rewrite A', B', C', D', A, B, L0.
    split; [reflexivity|]. split; [reflexivity|]. split.
    + right. rewrite E', F', G', C, D, E. repeat split.
    + change (st w0) with (st w) in F.
      split; [|split; [|discriminate]]; destruct F as [[F1 F2]|[F1 F2]]; lia.
  - match goal with |- context [exec (resume ?tk) w0] =>
      destruct (resume_tally tk w0) as (A & B & C & D & E)
    end. cbv zeta in *.
    rewrite A, B, C, D, L0. repeat split; try reflexivity; try lia. exact E.
Qed.

Lemma steady_ground w w' : steady w' = steady w -> ground w' = ground w.
Proof.
  unfold steady, ground. intros H.
  injection H as -> -> -> -> -> -> -> -> _ _ -> -> -> ->. reflexivity.
Qed.

Lemma drain_loop_effect (q : list Id) : forall (p : Z) (w : World),
  queue (st w) = q -> launch_loop_effect w (exec (drain_loop q p) w).
Proof.
  induction q as [|v q IH]; intros p w Hq.
  - unfold launch_loop_effect. cbn. rewrite Hq.
    repeat split; try lia. exists []. split; [reflexivity|cbn; lia].
  - cbn [drain_loop]. mstep.
    destruct (_ && _) eqn:G.
    2:{ rewrite exec_ret. unfold launch_loop_effect.
        repeat split; try lia. exists []. split; [reflexivity|cbn; lia]. }
    apply andb_true_iff in G. destruct G as [G _]. apply Z.ltb_lt in G.
    mstep. set (w1 := with_st (set_queue q) w).
    destruct (fsim_done (videos w1 v)).
    + destruct (IH p w1 eq_refl) as (A & (t & B & B') & C). unfold launch_loop_effect.
      split; [exact A|]. split; [|exact C].
      exists (v :: t). split; [rewrite Hq; cbn; f_equal; exact B|].
      change (processingCount (st w1)) with (processingCount (st w)) in B'.
      cbn [List.length]. lia.
    + mstep. set (w2 := with_st _ w1).
      destruct (processOneHybrid_tally v w2) as (S1 & L1 & PR & R1 & R2 & R3). cbv zeta in *.
      set (w3 := exec (processOneHybrid v) w2) in *.
      assert (Q3 : queue (st w3) = q).
      { unfold steady in S1. injection S1 as _ _ _ _ _ _ _ _ S1 _ _ _ _ _. exact S1. }
      destruct (IH (p + 1) w3 Q3)
        as (A & (t & B & B') & C & D & E & F & G1 & G2 & H1 & H2 & H3).
      pose proof (steady_ground _ _ S1) as S2.
      assert (P3 : processingCount (st w3) = processingCount (st w) + 1).
      { unfold steady in S1. injection S1 as _ _ _ _ _ _ _ _ _ S1 _ _ _ _. exact S1. }
      assert (C3 : concurrency (st w3) = concurrency (st w)).
      { unfold steady in S1. injection S1 as _ _ _ _ _ S1 _ _ _ _ _ _ _ _. exact S1. }
      change (launches w2) with (launches w) in L1.
      assert (PR' : parked w3 + unsettled w3 = parked w + unsettled w + 1 /\
                    doneCount (st w3) - doneCount (st w) = unsettled w3 - unsettled w /\
                    parked w <= parked w3 /\ unsettled w <= unsettled w3).
      { destruct PR as [(X & Y & Z0)|(X & Y & Z0)];
          change (parked w2) with (parked w) in X;
          change (unsettled w2) with (unsettled w) in Y;
          change (doneCount (st w2)) with (doneCount (st w)) in Z0; lia. }
      destruct PR' as (PR1 & PR2 & PR3 & PR4).
      change (readySuccess (st w2)) with (readySuccess (st w)) in *.
      change (readyFailure (st w2)) with (readyFailure (st w)) in *.
      unfold launch_loop_effect.
      split; [rewrite A; exact S2|].
      split; [exists (v :: t); split;
              [rewrite Hq; cbn; f_equal; rewrite <- B; symmetry; exact Q3
              |cbn [List.length]; lia]|].
      repeat (split; [lia|]).
      intros X Y L.
      assert (N : prefers_instant w2 v = false)
        by (apply locked_out_skips_instant; assumption).
      destruct (R3 N) as [R4 R5].
      assert (L3 : locked_out (st w3)) by (unfold locked_out in *; rewrite R4, R5; exact L).
      destruct H3 as [H4 H5]; try lia. exact L3.
Qed.

Lemma scheduleTaskDrain_effect w :
  let w' := exec scheduleTaskDrain w in
  setup w' = setup w /\ tuning w' = tuning w /\ rates w' = rates w /\ work w' = work w /\
  queue (st w') = queue (st w) /\ seenCount (st w') = seenCount (st w) /\
  scheduled_or_same w w'.
Proof.
  cbv zeta. unfold scheduleTaskDrain. mred.
  destruct (taskScheduled (st w)) eqn:E; cbn [snd]; repeat split.
  - left. reflexivity.
  - right. split; [exact E|reflexivity].
Qed.

Lemma adapt_effect w :
  let w' := exec adaptCoreParameters w in
  setup w' = setup w /\ pending w' = pending w /\ rates w' = rates w /\ work w' = work w /\
  queue (st w') = queue (st w) /\ seenCount (st w') = seenCount (st w) /\
  (exists x, concurrency (st w')
             = Z.max (concurrencyMin (conf w)) (Z.min (concurrencyMax (conf w)) x)) /\
  (batchDelay (st w')
     = Qmin (batchDelayMax (conf w))
         (JS.or_default (batchDelay (st w)) (batchDelayInit (conf w)) * (3 # 2))
   \/ batchDelay (st w')
      = Qmax (batchDelayMin (conf w))
          (JS.or_default (batchDelay (st w)) (batchDelayInit (conf w)) * (9 # 10))).
Proof.
  cbv zeta. unfold adaptCoreParameters. mred.
  repeat match goal with |- context [if JS.ltb ?a ?b then _ else _] => destruct (JS.ltb a b) end;
    cbn [snd]; repeat split; try (eexists; reflexivity); auto.
Qed.

Lemma enqueueNewVideos_step (vids : list Id) (w : World) :
  observing w || stray w = true \/ running (st w) = true ->
  sched_step w (exec (enqueueNewVideos vids) w).
Proof.
  intros Hon. unfold enqueueNewVideos. mstep.
  destruct (enqueue_each_effect vids w) as (new & E & N & _ & _).
  rewrite E.
  set (w2 := with_st _ (with_st (set_queue (queue (st w) ++ new)) w)).
  destruct (scheduleTaskDrain_effect w2) as (A & B & C & D & F & G & H). cbv zeta in *.
  apply step_enqueue with (new := new); try exact Hon;
    destruct (negb _); rewrite ?exec_ret;
    rewrite ?A, ?B, ?C, ?D, ?F, ?G; try reflexivity; try exact N.
  - exact H.
  - left. reflexivity.
Qed.

Lemma drainTaskBatch_step (w : World) :
  sched_step (with_drains S w) (exec drainTaskBatch w).
Proof.
  unfold drainTaskBatch. mstep.
  set (w1 := with_perf_reads S w).
  destruct (drain_loop_effect (queue (st w1)) 0 w1 eq_refl)
    as (A & (taken & B & B') & C & D & E & F & G1 & G2 & H1 & H2 & H3).
  set (w2 := exec (drain_loop (queue (st w1)) 0) w1) in *.
  match goal with |- context [exec adaptCoreParameters ?w5] =>
    destruct (adapt_effect w5) as (A1 & A2 & A3 & A4 & A5 & A6 & [x A7] & A8);
    set (w3 := w5) in *
  end. cbv zeta in *.
  unfold ground in A.
  injection A as G_conf G_drains _ _ G_run G_conc G_bd _ G_seen G_obs _ _.
  assert (W : work w3 = work w2) by reflexivity.
  assert (R : rates w3 = rates w2) by reflexivity.
  unfold work in A4, W. rewrite W in A4.
  injection A4 as W1 W2 W3 W4 W5.
  unfold rates in A3, R. rewrite R in A3. injection A3 as R1 R2.
  unfold setup in A1. injection A1 as S1 S2 S3 S4 S5.
  unfold pending in A2. injection A2 as P1 P2.
  pose proof (drain_loop_wires (queue (st w1)) 0 w1) as Wr.
  fold w2 in Wr. unfold wires in Wr. injection Wr as Wr1 Wr2.
  apply step_drain with (taken := taken) (x := x).
  - unfold setup. rewrite S1, S2, S3, S4, S5. cbn.
    rewrite G_conf, G_run, G_obs, Wr1, Wr2. reflexivity.
  - rewrite A6. cbn. exact G_seen.
  - rewrite P1. cbn. rewrite G_drains. reflexivity.
  - rewrite P2. reflexivity.
  - rewrite A5. exact B.
  - rewrite W1. exact B'.
  - rewrite W1. exact C.
  - rewrite W4, W1. exact D.
  - rewrite W2, W3, W1. exact E.
  - rewrite W5, W3. exact F.
  - rewrite W2. exact G1.
  - rewrite W3. exact G2.
  - rewrite R1. exact H1.
  - rewrite R2. exact H2.
  - intros X Y L. destruct (H3 X Y L) as [H4 H5]. unfold rates. rewrite R1, R2.
    cbn in H4, H5 |- *. rewrite H4, H5. reflexivity.
  - rewrite A7. cbn. rewrite G_conf. reflexivity.
  - cbn [conf st batchDelay with_drains with_st]. 
    change (batchDelay (st w3)) with (batchDelay (st w2)) in A8.
    change (conf w3) with (conf w2) in A8.
    rewrite G_conf, G_bd in A8. exact A8.
Qed.

Lemma step_same (w w' : World) :
  st w' = st w -> conf w' = conf w -> drains w' = drains w ->
  suspended w' = suspended w -> settled w' = settled w -> effects w' = effects w ->
  wires w' = wires w ->
  sched_step w w'.
Proof.
  intros A B C D E F G. unfold wires in G. injection G as G1 G2.
  apply step_idle; unfold setup, pending, tuning, rates, work, parked, unsettled, launches;
    rewrite ?A, ?B, ?C, ?D, ?E, ?F, ?G1, ?G2; reflexivity.
Qed.

Lemma installObserver_effect f w :
  observer (st w) = false ->
  let w' := exec (installObserver f) w in
  conf w' = conf w /\ running (st w') = running (st w) /\
  (observing w = false ->
   stray w' = stray w /\ (observing w' = true -> observer (st w') = true)) /\
  pending w' = pending w /\ tuning w' = tuning w /\ rates w' = rates w /\
  work w' = work w /\ queue (st w') = queue (st w) /\
  seenCount (st w') = seenCount (st w).
Proof.
  intros O. cbv zeta. unfold installObserver. mred. rewrite O. cbn [andb].
  destruct (construct_raises f); cbn [fst snd].
  - repeat split. cbn. congruence.
  - destruct (observing w) eqn:L; cbn [fst snd]; repeat split; congruence.
Qed.

Lemma stopAll_effect f w :
  let w' := exec (stopAll f) w in
  conf w' = conf w /\ running (st w') = false /\
  (observer (st w) = false -> observer (st w') = false) /\
  (observing w' = true ->
   observing w = true /\ observer (st w') = observer (st w)) /\
  stray w' = stray w /\
  pending w' = pending w /\ tuning w' = tuning w /\ rates w' = rates w /\
  work w' = work w /\ queue (st w') = [] /\
  seenCount (st w') = seenCount (st w) /\
  (disconnect_raises f = false ->
   observer (st w') = false /\ (observer (st w) = true -> observing w' = false)).
Proof.
  cbv zeta. unfold stopAll. mred. cbn.
  destruct (observer (st w)) eqn:O, (disconnect_raises f); cbn;
    repeat split; try congruence; try (intros H; split; [exact H|reflexivity]).
Qed.

Lemma length_remove_nth {A} (l : list A) : forall k x,
  nth_error l k = Some x -> List.length l = S (List.length (remove_nth k l)).
Proof.
  induction l as [|a l IH]; intros [|k] x H; try discriminate; cbn in *.
  - reflexivity.
  - f_equal. exact (IH k x H).
Qed.

Lemma finally_callback_step (w : World) :
  sched_step (with_settled S w) (exec finally_callback w).
Proof.
  unfold finally_callback. mstep.
  set (w1 := with_st _ w).
  destruct (scheduleTaskDrain_effect w1) as (A & B & C & D & F & G & H). cbv zeta in *.
  assert (U : unsettled (with_settled S w) = unsettled w + 1)
    by (unfold unsettled; cbn; lia).
  destruct (negb _); rewrite ?exec_ret.
  - unfold work in D. injection D as D1 D2 D3 D4 D5.
    apply step_settle; rewrite ?A, ?B, ?C, ?F, ?G, ?D1, ?D2, ?D3, ?D4, ?D5;
      try reflexivity; try exact U.
    destruct H as [H|[H1 H2]]; [left|right; split]; assumption.
  - apply step_settle; try reflexivity; try exact U. left. reflexivity.
Qed.

Lemma handle_sched_step (e : Event) (w : World) : sched_step w (exec (handle e) w).
Proof.
  destruct e as [| |k|added vids|vids| | |]; unfold handle; mstep.
  - destruct (drains w) as [|n] eqn:E; mstep.
    + apply step_same; reflexivity.
    + destruct w; cbn in E; subst.
      match goal with |- sched_step _ (exec drainTaskBatch ?w1) =>
        exact (drainTaskBatch_step w1) end.
  - destruct (settled w) as [|n] eqn:E; mstep.
    + apply step_same; reflexivity.
    + destruct w; cbn in E; subst.
      match goal with |- sched_step _ (exec finally_callback ?w1) =>
        exact (finally_callback_step w1) end.
  - destruct (nth_error (suspended w) k) as [tk|] eqn:E; mstep.
    + set (w1 := with_suspended (remove_nth k) w).
      destruct (resume_tally tk w1) as (A & B & C & D & F). cbv zeta in *.
      apply steady_ground in A as G. unfold steady in A. unfold ground in G.
      injection A as _ _ _ _ _ _ _ _ Q1 Q2 _ _ _ _.
      injection G as G1 G2 _ _ G3 G4 G5 _ G6 G7 _ G8.
      assert (P : parked w = parked w1 + 1).
      { unfold parked, w1. cbn. rewrite (length_remove_nth _ _ _ E). lia. }
      pose proof (resume_wires tk w1) as Wr. unfold wires in Wr. injection Wr as Wr1 Wr2.
      apply step_timeout; unfold setup, pending, tuning, rates;
        rewrite ?G1, ?G2, ?G3, ?G4, ?G5, ?G6, ?G7, ?G8, ?Q1, ?Q2, ?B, ?C, ?D, ?Wr1, ?Wr2;
        try reflexivity.
      * unfold parked. rewrite (length_remove_nth _ _ _ E). lia.
      * destruct F as [(F1 & F2 & F3)|(F1 & F2 & F3)]; [left|right];
          rewrite F1, F2, F3, P; repeat split; lia.
    + apply step_same; reflexivity.
  - destruct (observing w || stray w) eqn:O; destruct added; cbn [andb when];
      rewrite ?exec_ret; try (apply step_same; reflexivity).
    apply enqueueNewVideos_step. left. exact O.
  - destruct (periodicEnq w); mstep; [|apply step_same; reflexivity].
    destruct (running (st w)) eqn:R; cbn [negb]; mstep.
    + apply enqueueNewVideos_step. right. exact R.
    + apply step_same; reflexivity.
  - destruct (periodicDrain w); mstep; [|apply step_same; reflexivity].
    destruct (running (st w)) eqn:R; cbn [negb]; mstep; [|apply step_same; reflexivity].
    destruct (negb _); cbn [when]; rewrite ?exec_ret; [|apply step_same; reflexivity].
    destruct (scheduleTaskDrain_effect w) as (A & B & C & D & F & G & H). cbv zeta in *.
    apply step_schedule; assumption.
  - destruct (healTimer (st w)), (running (st w)) eqn:R, (observer (st w)) eqn:O;
      cbn [andb negb when]; rewrite ?exec_ret; try (apply step_same; reflexivity).
    destruct (installObserver_effect f w O)
      as (A1 & A2 & A3 & A5 & A6 & A7 & A8 & A9 & A10). cbv zeta in *.
    apply step_heal; try assumption. rewrite A2. exact R.
  - destruct (stopAll_effect f w)
      as (A1 & A2 & A3 & A4 & A5 & A6 & A7 & A8 & A9 & A10 & A11 & _). cbv zeta in *.
    apply step_stop; assumption.
Qed.

(** ** Invariants *)

Ltac books :=
  unfold setup, pending, tuning, rates, work in *;
  repeat match goal with
  | H : (_, _) = (_, _) |- _ => injection H; clear H; intros
  end.

Lemma installed_running c vs perf date f :
  running (st (installed c vs perf date f)) = true.
Proof.
  unfold installed, installObserver, startSelfHeal. mred. break_if; reflexivity.
Qed.

Lemma installed_cases c vs perf date f :
  exists o b : bool,
    installed c vs perf date f
    = with_observing b
        (with_st (fun s => set_healTimer true (set_observer o s)) (initial c vs perf date)).
Proof.
  destruct f as [a b c']. unfold installed, installObserver, startSelfHeal. mred.
  destruct b, c'; eexists _, _; reflexivity.
Qed.

Lemma run_sched (I : World -> Prop) :
  (forall w w', sched_step w w' -> I w -> I w') ->
  forall evs w, I w -> I (run evs w).
Proof.
  intros HI evs. induction evs as [|e evs IH]; intros w Hw; [exact Hw|].
  cbn [run]. apply IH. exact (HI _ _ (handle_sched_step e w) Hw).
Qed.

Lemma booted_sched (I : World -> Prop) c vs perf date f vids :
  (forall w w', sched_step w w' -> I w -> I w') ->
  I (installed c vs perf date f) -> I (booted c vs perf date f vids).
Proof.
  intros HI H0.
  assert (E : booted c vs perf date f vids
              = exec (init <- config batchDelayInit ;;
                      modify (with_periodicEnq (Some (Qmax 200 init))) ;;
                      modify (with_periodicDrain (Some 120%Q)))%js
                  (exec (enqueueNewVideos vids) (installed c vs perf date f))).
  { unfold booted, bootstrap, installed. rewrite !exec_bind. reflexivity. }
  rewrite E. mstep.
  set (w1 := exec (enqueueNewVideos vids) (installed c vs perf date f)).
  assert (H1 : I w1).
  { apply (HI (installed c vs perf date f)); [|exact H0].
    apply enqueueNewVideos_step. right. apply installed_running. }
  revert H1. apply HI. apply step_same; reflexivity.
Qed.

Lemma reached_sched (I : World -> Prop) c vs perf date f :
  (forall w w', sched_step w w' -> I w -> I w') ->
  I (installed c vs perf date f) ->
  forall vids evs, I (run evs (booted c vs perf date f vids)).
Proof.
  intros HI H0 vids evs. apply run_sched; [exact HI|].
  apply booted_sched; assumption.
Qed.

Lemma parked_nonneg w : 0 <= parked w.
Proof. unfold parked. lia. Qed.

Lemma unsettled_nonneg w : 0 <= unsettled w.
Proof. unfold unsettled. lia. Qed.

Lemma balanced_step w w' : sched_step w w' -> balanced w -> balanced w'.
Proof.
  unfold balanced. intros S [A B].
  pose proof (parked_nonneg w'). pose proof (unsettled_nonneg w').
  destruct S; books; lia.
Qed.

Lemma one_activation_step w w' : sched_step w w' -> one_activation w -> one_activation w'.
Proof.
  unfold one_activation. intros S A.
  destruct S; unfold scheduled_or_same in *; books;
    repeat match goal with
    | H : _ \/ _ |- _ => destruct H as [H|[? H]]; books
    end;
    repeat match goal with
    | H : taskScheduled (st w') = _ |- _ => rewrite H; clear H
    | H : drains w' = _ |- _ => rewrite H; clear H
    | H : taskScheduled (st w) = _ |- _ => rewrite H in A; clear H
    end;
    try assumption; cbv iota in *; try lia.
  destruct (taskScheduled (st w)); lia.
Qed.

Lemma NoDup_app_r {A} (l r : list A) : NoDup (l ++ r) -> NoDup r.
Proof. induction l as [|a l IH]; cbn; [auto|]. intros H. inversion H. auto. Qed.

Lemma queue_NoDup_step w w' :
  sched_step w w' -> NoDup (queue (st w)) -> NoDup (queue (st w')).
Proof.
  intros S A. destruct S; auto;
    try (match goal with H : queue (st w') = _ |- _ => rewrite H end; auto; fail).
  - match goal with H : queue (st w) = _ |- _ => rewrite H in A end.
    exact (NoDup_app_r _ _ A).
  - match goal with H : queue (st w') = _ |- _ => rewrite H end. constructor.
Qed.

Lemma or_default_range (x d lo hi : Q) :
  (lo <= x <= hi)%Q -> (lo <= d <= hi)%Q -> (lo <= JS.or_default x d <= hi)%Q.
Proof. unfold JS.or_default. destruct (Qeq_bool x 0); auto. Qed.

Lemma in_range_step w w' :
  well_configured (conf w) -> sched_step w w' ->
  in_range w -> well_configured (conf w') /\ in_range w'.
Proof.
  unfold in_range. cbv zeta.
  intros WC S (A & B & D). pose proof WC as (C1 & C2 & C3 & C4 & C5).
  destruct S; books;
    repeat match goal with
    | H : conf w' = conf w |- _ => rewrite H
    | H : concurrency (st w') = _ |- _ => rewrite H
    | H : batchDelay (st w') = batchDelay (st w) |- _ => rewrite H
    | H : processingCount (st w') = _ |- _ => rewrite H
    end;
    (split; [exact WC|]); try (split; [lia|split; [lia|exact D]]).
  split; [lia|]. split; [lia|].
  assert (R := or_default_range _ (batchDelayInit (conf w)) _ _ D (conj C4 C5)).
  set (y := JS.or_default _ _) in *.
  match goal with H : _ \/ _ |- _ => destruct H as [H|H]; rewrite H end.
  - destruct (Q.min_spec (batchDelayMax (conf w)) (y * (3 # 2))) as [[_ E]|[E1 E]];
      rewrite E; split; lra.
  - destruct (Q.max_spec (batchDelayMin (conf w)) (y * (9 # 10))) as [[E1 E]|[_ E]];
      rewrite E; split; lra.
Qed.

Lemma accounted_step w w' : sched_step w w' -> accounted w -> accounted w'.
Proof.
  intros S [B A]. split; [exact (balanced_step _ _ S B)|].
  destruct B as [B1 B2].
  pose proof (unsettled_nonneg w).
  destruct S; books;
    repeat match goal with
    | H : queue (st w') = _ |- _ => rewrite H in *
    | H : queue (st w) = _ |- _ => rewrite H in *
    end;
    rewrite ?length_app in *; cbn [List.length] in *; lia.
Qed.

Lemma stopped_step n w w' : sched_step w w' -> stopped n w -> stopped n w'.
Proof.
  unfold stopped. intros S (A & B & C & D & E & F).
  destruct S; books;
    try match goal with
        | H : _ || _ = true \/ _ |- _ =>
            destruct H as [H|H]; [rewrite C, D in H; discriminate H|congruence]
        end;
    try congruence.
  - repeat split; congruence.
  - match goal with H : queue (st w) = ?t ++ _ |- _ =>
      rewrite E in H; symmetry in H; apply app_eq_nil in H; destruct H as [H H'];
      rewrite H in *; cbn [List.length] in * end.
    repeat split; try congruence. lia.
  - repeat split; congruence.
  - repeat split; congruence.
  - repeat split; try congruence; auto.
    destruct (observing w') eqn:O'; [|reflexivity].
    match goal with H : true = true -> _ |- _ => destruct (H eq_refl) end. congruence.
Qed.

Lemma locked_step rs rf w w' :
  0 <= rs -> 0 <= rf -> 3 * rs + 1 <= 2 * rf ->
  sched_step w w' -> locked rs rf w -> locked rs rf w'.
Proof.
  unfold locked. intros Hs Hf L S A.
  destruct S; try congruence.
  match goal with H : _ -> _ -> locked_out _ -> _ |- _ => rewrite H; [exact A| | |] end;
    unfold rates in A; injection A as A1 A2; unfold locked_out; rewrite ?A1, ?A2; assumption.
Qed.

(** X3.  In every world the script can reach, [processingCount] is the
    number of calls of [processOneHybrid] that are parked at their await
    plus the number that have returned and whose [finally] callback has not
    run yet.  So when such a callback runs the counter is at least 1, and
    the [Math.max(0, ...)] of line 152 never clips. *)
Theorem processingCount_counts_calls_in_flight
    (c : Conf) (vs : Id -> Video) (perf date : nat -> Q) (f : Faults)
    (vids : list Id)
    (evs : list Event) :
  processingCount (st (run evs (booted c vs perf date f vids)))
    = Z.of_nat (List.length (suspended (run evs (booted c vs perf date f vids))))
      + Z.of_nat (settled (run evs (booted c vs perf date f vids))) /\
  (settled (run evs (booted c vs perf date f vids)) <> O ->
   Z.max 0 (processingCount (st (run evs (booted c vs perf date f vids))) - 1)
     = processingCount (st (run evs (booted c vs perf date f vids))) - 1).
Proof.
  assert (B : balanced (run evs (booted c vs perf date f vids))).
  { apply reached_sched; [exact balanced_step|].
    destruct (installed_cases c vs perf date f) as (o & b & ->). split; reflexivity. }
  destruct B as [B _]. unfold parked, unsettled in B.
  split; [exact B|]. intros H. lia.
Qed.

(** X4.  In every world the script can reach, every call of
    [processOneHybrid] made so far has either returned, and is counted once
    in [doneCount], or is parked at its await. *)
Theorem doneCount_counts_returned_calls
    (c : Conf) (vs : Id -> Video) (perf date : nat -> Q) (f : Faults)
    (vids : list Id)
    (evs : list Event) :
  launches (run evs (booted c vs perf date f vids))
    = doneCount (st (run evs (booted c vs perf date f vids)))
      + Z.of_nat (List.length (suspended (run evs (booted c vs perf date f vids)))).
Proof.
  assert (B : balanced (run evs (booted c vs perf date f vids))).
  { apply reached_sched; [exact balanced_step|].
    destruct (installed_cases c vs perf date f) as (o & b & ->). split; reflexivity. }
  destruct B as [_ B]. exact B.
Qed.

(** X5.  The guard of [scheduleTaskDrain] works: in every world the script
    can reach, at most one activation of [drainTaskBatch] is queued, and
    one is queued exactly when [taskScheduled] is set. *)
Theorem at_most_one_activation_queued
    (c : Conf) (vs : Id -> Video) (perf date : nat -> Q) (f : Faults)
    (vids : list Id)
    (evs : list Event) :
  (drains (run evs (booted c vs perf date f vids)) <= 1)%nat /\
  (drains (run evs (booted c vs perf date f vids)) = 1%nat
   <-> taskScheduled (st (run evs (booted c vs perf date f vids))) = true).
Proof.
  assert (B : one_activation (run evs (booted c vs perf date f vids))).
  { apply reached_sched; [exact one_activation_step|].
    destruct (installed_cases c vs perf date f) as (o & b & ->). reflexivity. }
  unfold one_activation in B. rewrite B.
  destruct (taskScheduled _); split; try lia; split; congruence.
Qed.

(** X6.  In every world the script can reach, no video is in the queue
    twice. *)
Theorem queue_has_no_duplicates
    (c : Conf) (vs : Id -> Video) (perf date : nat -> Q) (f : Faults)
    (vids : list Id)
    (evs : list Event) :
  NoDup (queue (st (run evs (booted c vs perf date f vids)))).
Proof.
  apply (reached_sched (fun w => NoDup (queue (st w)))).
  - exact queue_NoDup_step.
  - destruct (installed_cases c vs perf date f) as (o & b & ->). constructor.
Qed.

Lemma CONF_well_configured hc : well_configured (CONF hc).
Proof.
  unfold well_configured. cbn. repeat split; try lia; try (vm_compute; discriminate).
Qed.

Lemma CONF_top hc : Z.max (concurrencyInit (CONF hc)) (concurrencyMax (CONF hc)) <= 8.
Proof. cbn. destruct hc as [n|]; [destruct (n =? 0)|]; lia. Qed.

(** X7.  With the script's own configuration, whatever
    [navigator.hardwareConcurrency] is: in every world the script can
    reach, [concurrency] lies between 1 and max(3, concurrencyMax), which
    is at most 8; [processingCount] lies between 0 and the same bound
    (although it can exceed the current [concurrency]); and [batchDelay]
    lies between 20 and 600. *)
Theorem controller_outputs_stay_in_range
    (hc : option Z) (vs : Id -> Video) (perf date : nat -> Q) (f : Faults)
    (vids : list Id)
    (evs : list Event) :
  1 <= concurrency (st (run evs (booted (CONF hc) vs perf date f vids)))
    <= Z.max 3 (concurrencyMax (CONF hc)) /\
  0 <= processingCount (st (run evs (booted (CONF hc) vs perf date f vids)))
    <= Z.max 3 (concurrencyMax (CONF hc)) /\
  Z.max 3 (concurrencyMax (CONF hc)) <= 8 /\
  (20 <= batchDelay (st (run evs (booted (CONF hc) vs perf date f vids))) <= 600)%Q.
Proof.
  assert (B : conf (run evs (booted (CONF hc) vs perf date f vids)) = CONF hc /\
              in_range (run evs (booted (CONF hc) vs perf date f vids))).
  { apply (reached_sched (fun w => conf w = CONF hc /\ in_range w)).
    - intros w w' S [E R].
      destruct (in_range_step w w') as [_ R']; try assumption.
      { rewrite E. apply CONF_well_configured. }
      split; [|exact R'].
      rewrite <- E. destruct S; books; assumption.
    - destruct (installed_cases (CONF hc) vs perf date f) as (o & b & ->).
      split; [reflexivity|]. unfold in_range. cbn.
      repeat split; try lia; try (vm_compute; discriminate). }
  destruct B as [E (R1 & R2 & R3)]. rewrite E in R1, R2, R3.
  pose proof (CONF_top hc) as T.
  change (concurrencyMin (CONF hc)) with 1 in R1.
  change (concurrencyInit (CONF hc)) with 3 in R1, R2, T.
  change (batchDelayMin (CONF hc)) with 20%Q in R3.
  change (batchDelayMax (CONF hc)) with 600%Q in R3.
  repeat split; try tauto; try lia.
Qed.

(** X8.  In every world the script can reach, [seenCount] is at least the
    number of videos waiting in the queue plus the number of calls of
    [processOneHybrid] made so far; in particular the [done] and
    [queueLength] that [status()] reports never add up to more than its
    [seen]. *)
Theorem seenCount_covers_done_and_pending
    (c : Conf) (vs : Id -> Video) (perf date : nat -> Q) (f : Faults)
    (vids : list Id)
    (evs : list Event) :
  Z.of_nat (List.length (queue (st (run evs (booted c vs perf date f vids)))))
    + launches (run evs (booted c vs perf date f vids))
    <= seenCount (st (run evs (booted c vs perf date f vids))) /\
  Z.of_nat (List.length (queue (st (run evs (booted c vs perf date f vids)))))
    + doneCount (st (run evs (booted c vs perf date f vids)))
    <= seenCount (st (run evs (booted c vs perf date f vids))).
Proof.
  assert (B : accounted (run evs (booted c vs perf date f vids))).
  { apply reached_sched; [exact accounted_step|].
    destruct (installed_cases c vs perf date f) as (o & b & ->).
    split; [split; reflexivity|]. cbn. lia. }
  destruct B as [[_ B] A]. split; [exact A|].
  pose proof (parked_nonneg (run evs (booted c vs perf date f vids))). lia.
Qed.

Lemma wired_step w w' : sched_step w w' -> wired w -> wired w'.
Proof.
  unfold wired. intros S [A B].
  destruct S; books;
    try (split; [congruence|];
         intros O';
         match goal with H : observer (st w') = observer (st w) |- _ => rewrite H end;
         apply B; congruence).
  - assert (O : observing w = false)
      by (destruct (observing w); [rewrite B in *; congruence|reflexivity]).
    match goal with H : observing w = false -> _ |- _ => destruct (H O) as [X1 X2] end.
    split; [congruence|exact X2].
  - split; [congruence|]. intros O'.
    match goal with H : observing w' = true -> _ |- _ => destruct (H O') as [X1 X2] end.
    rewrite X2. apply B, X1.
Qed.

(** Every world the script reaches is wired: no observer other than the
    one held in [state.observer] is ever connected. *)
Lemma reachable_wired (w : World) : reachable w -> wired w.
Proof.
  intros (hc & vs & perf & date & f & vids & evs & ->).
  apply reached_sched; [exact wired_step|].
  destruct f as [a b c']. unfold wired, installed, installObserver, startSelfHeal. mred.
  destruct b, c'; cbn; split; congruence.
Qed.

(** The self-heal interval is what installs the observer when the
    constructor threw at bootstrap. *)
Lemma self_heal_installs_the_observer :
  let w0 := booted (CONF None) (fun _ => blank) still still
              (mkFaults false true false) [] in
  let w1 := run [TickHeal calm] w0 in
  observer (st w0) = false /\ observing w0 = false /\
  queue (st (run [Mutation true [0%nat]] w0)) = [] /\
  observer (st w1) = true /\ observing w1 = true /\
  queue (st (run [Mutation true [0%nat]] w1)) = [0%nat].
Proof. by_running. Qed.

(** When [disconnect()] throws, line 313 is left before
    [state.observer = null]: after [stop()] the observer is still
    connected, the next mutation record queues a video and the next
    activation launches it. *)
Lemma throwing_disconnect_keeps_the_observer :
  let w := exec (stopAll (mkFaults true false false)) one_parked in
  let w' := run [Mutation true [1%nat]; RunDrain] w in
  running (st w) = false /\ observer (st w) = true /\ observing w = true /\
  launches w = 1 /\ launches w' = 2.
Proof. by_running. Qed.

(** X9.  [stop()] is final when [disconnect()] does not throw.  From any
    world in which no observer other than the one held in
    [state.observer] is connected (every world the script reaches is
    such), after a [stop()] whose [disconnect()] returns and whatever
    callbacks fire next (queued activations, timers, mutation records,
    resumptions of parked calls): [running] stays false, no observer is
    held or connected, the queue stays empty and [processOneHybrid] is
    never called again. *)
Theorem nothing_is_launched_after_stop (w : World) (f : Faults) (evs : list Event) :
  wired w -> disconnect_raises f = false ->
  running (st (run evs (exec (stopAll f) w))) = false /\
  observer (st (run evs (exec (stopAll f) w))) = false /\
  observing (run evs (exec (stopAll f) w)) = false /\
  queue (st (run evs (exec (stopAll f) w))) = [] /\
  launches (run evs (exec (stopAll f) w)) = launches w.
Proof.
  intros [W1 W2] D.
  enough (H : stopped (launches w) (run evs (exec (stopAll f) w))).
  { destruct H as (A & B & C & _ & E & F). repeat split; assumption. }
  apply (run_sched (stopped (launches w))).
  - intros w1 w2. apply stopped_step.
  - destruct (stopAll_effect f w)
      as (A1 & A2 & A3 & A4 & A5 & A6 & A7 & A8 & A9 & A10 & A11 & A12). cbv zeta in *.
    destruct (A12 D) as [O1 O2].
    unfold stopped. split; [exact A2|]. split; [exact O1|]. split; [|split; [congruence|]].
    + destruct (observing (exec (stopAll f) w)) eqn:O'; [|reflexivity].
      destruct (A4 eq_refl) as [O3 _]. apply O2, W2, O3.
    + split; [exact A10|]. unfold work in A9. injection A9 as _ _ _ L _. exact L.
Qed.

Lemma nothing_is_launched_after_stop_witness :
  let evs := [Mutation true [1%nat]; TickEnq [1%nat]; TickDrain; RunDrain;
              TickHeal calm; FireTimeout 0; RunFinally] in
  (wired one_parked /\ disconnect_raises calm = false /\
   observing one_parked = true /\ launches one_parked = 1) /\
  running (st (run evs (exec (stopAll calm) one_parked))) = false /\
  observer (st (run evs (exec (stopAll calm) one_parked))) = false /\
  observing (run evs (exec (stopAll calm) one_parked)) = false /\
  queue (st (run evs (exec (stopAll calm) one_parked))) = [] /\
  launches (run evs (exec (stopAll calm) one_parked)) = launches one_parked.
Proof.
  cbv zeta.
  assert (W : wired one_parked) by (split; [reflexivity|intros _; reflexivity]).
  split; [split; [exact W|repeat split]|].
  apply (nothing_is_launched_after_stop one_parked calm _ W). reflexivity.
Defined.

(** X10.  The instant strategy locks itself out.  Once the success-rate
    estimate (readySuccess + 1) / (readySuccess + readyFailure + 2) is at
    or below the threshold 0.4, that is 3 readySuccess + 1 <= 2
    readyFailure (one failed jump before any success is enough), then
    whatever callbacks run next the two counters never change again and
    the instant strategy is chosen for no video. *)
Theorem failed_instant_locks_instant_out (w : World) (evs : list Event) (v : Id) :
  0 <= readySuccess (st w) -> 0 <= readyFailure (st w) ->
  3 * readySuccess (st w) + 1 <= 2 * readyFailure (st w) ->
  readySuccess (st (run evs w)) = readySuccess (st w) /\
  readyFailure (st (run evs w)) = readyFailure (st w) /\
  prefers_instant (run evs w) v = false.
Proof.
  intros Hs Hf L.
  assert (B : locked (readySuccess (st w)) (readyFailure (st w)) (run evs w)).
  { apply run_sched; [|reflexivity].
    intros w1 w2. apply locked_step; assumption. }
  unfold locked, rates in B. injection B as B1 B2.
  split; [exact B1|]. split; [exact B2|].
  apply locked_out_skips_instant; unfold locked_out; rewrite ?B1, ?B2; assumption.
Qed.

Lemma failed_instant_locks_instant_out_witness :
  let w := run [RunDrain] (booted (CONF None) (fun _ => live) still still calm [0%nat]) in
  readyFailure (st w) = 1 /\
  readySuccess (st (run [Mutation true [1%nat]; RunDrain] w)) = 0 /\
  readyFailure (st (run [Mutation true [1%nat]; RunDrain] w)) = 1 /\
  prefers_instant (run [Mutation true [1%nat]; RunDrain] w) 1%nat = false.
Proof.
  cbv zeta. split; [vm_compute; reflexivity|].
  apply (failed_instant_locks_instant_out
           (run [RunDrain] (booted (CONF None) (fun _ => live) still still calm [0%nat]))
           [Mutation true [1%nat]; RunDrain] 1%nat);
    vm_compute; discriminate.
Defined.

(** ** Queuing what discovery finds *)

(** X11.  A scan queues what it finds.  After
    [enqueueNewVideos] on a document, the queue is the old queue followed
    by the videos added; a video is added exactly when it can be reached in
    the document, is not marked done and was not already in the queue; so
    every reachable video that is not marked done is pending afterwards. *)
Theorem enqueue_queues_every_visible_video (doc : Scope) (w : World) :
  exists new,
    queue (st (exec (enqueueNewVideos (findVideos doc [])) w)) = queue (st w) ++ new /\
    (forall v, In v new <->
       visible doc v /\ fsim_done (videos w v) = false /\ ~ In v (queue (st w))) /\
    (forall v, visible doc v -> fsim_done (videos w v) = false ->
       In v (queue (st (exec (enqueueNewVideos (findVideos doc [])) w)))).
Proof.
  assert (V : forall v, In v (findVideos doc []) <-> visible doc v).
  { intros v. rewrite findVideos_In. cbn. tauto. }
  destruct (enqueue_each_effect (findVideos doc []) w) as (new & E & _ & A & B).
  assert (Q : queue (st (exec (enqueueNewVideos (findVideos doc [])) w))
              = queue (st w) ++ new).
  { unfold enqueueNewVideos. mstep. rewrite E.
    destruct (negb _); [|reflexivity].
    match goal with |- context [exec scheduleTaskDrain ?w2] =>
      destruct (scheduleTaskDrain_effect w2) as (_ & _ & _ & _ & F & _) end.
    cbv zeta in F. rewrite F. reflexivity. }
  exists new. split; [exact Q|]. split.
  - intros v. split.
    + intros H. destruct (A v H) as (A1 & A2 & A3). rewrite <- V. auto.
    + intros (H1 & H2 & H3). apply V in H1.
      specialize (B v H1 H2). apply in_app_or in B. tauto.
  - intros v H1 H2. rewrite Q. apply B; [apply V; exact H1|exact H2].
Qed.

Lemma scheduleTaskDrain_again (w : World) :
  taskScheduled (st w) = true -> exec scheduleTaskDrain w = w.
Proof. intros H. unfold scheduleTaskDrain. mstep. rewrite H. reflexivity. Qed.

Lemma scheduleTaskDrain_sets (w : World) :
  taskScheduled (st (exec scheduleTaskDrain w)) = true.
Proof.
  unfold scheduleTaskDrain. mstep. destruct (taskScheduled (st w)) eqn:E; mstep.
  - exact E.
  - reflexivity.
Qed.

(** X12.  Scanning twice in a row is scanning once: a second
    [enqueueNewVideos] that finds the same videos changes nothing at all,
    neither the queue, nor [seenCount], nor the activation that is
    queued. *)
Theorem enqueue_twice_is_enqueue_once (vids : list Id) (w : World) :
  exec (enqueueNewVideos vids) (exec (enqueueNewVideos vids) w)
  = exec (enqueueNewVideos vids) w.
Proof.
  destruct (enqueue_each_effect vids w) as (new & E & _ & _ & B).
  set (w1 := exec (enqueueNewVideos vids) w).
  assert (W : exists w2,
             st w2 = set_seenCount
                       (Z.max (seenCount (st w))
                          (Z.of_nat (List.length (queue (st w) ++ new))
                           + processingCount (st w) + doneCount (st w)))
                       (set_queue (queue (st w) ++ new) (st w)) /\
             videos w2 = videos w /\
             w1 = if negb (Nat.eqb (List.length (queue (st w) ++ new)) 0)
                  then exec scheduleTaskDrain w2 else w2).
  { eexists. split; [|split]; [| |unfold w1, enqueueNewVideos; mstep; rewrite E;
                                   cbn [st with_st queue set_queue set_seenCount];
                                   destruct (negb _); reflexivity];
      reflexivity. }
  destruct W as (w2 & S2 & V2 & W1).
  assert (F : st w1 = st w2 \/
              (st w1 = set_taskScheduled true (st w2)) ).
  { rewrite W1. destruct (negb _); [|left; reflexivity].
    unfold scheduleTaskDrain. mstep. destruct (taskScheduled (st w2)); mstep.
    - left. reflexivity.
    - right. reflexivity. }
  assert (Q1 : queue (st w1) = queue (st w) ++ new).
  { destruct F as [F|F]; rewrite F, ?S2; reflexivity. }
  assert (V1 : videos w1 = videos w).
  { rewrite W1. destruct (negb _); [|exact V2].
    unfold scheduleTaskDrain. mstep. destruct (taskScheduled (st w2)); mstep; exact V2. }
  assert (N : exec (enqueue_each vids) w1 = w1).
  { apply enqueue_each_noop. intros u Hu. rewrite V1, Q1.
    destruct (fsim_done (videos w u)) eqn:D; [left; reflexivity|right].
    apply B; assumption. }
  assert (C1 : seenCount (st w1)
               = Z.max (seenCount (st w))
                   (Z.of_nat (List.length (queue (st w) ++ new))
                    + processingCount (st w) + doneCount (st w))).
  { destruct F as [F|F]; rewrite F, ?S2; reflexivity. }
  assert (C2 : processingCount (st w1) = processingCount (st w) /\
               doneCount (st w1) = doneCount (st w)).
  { destruct F as [F|F]; rewrite F, ?S2; split; reflexivity. }
  destruct C2 as [C2 C3].
  change (exec (enqueueNewVideos vids) w1 = w1).
  unfold enqueueNewVideos. mstep. rewrite N.
  assert (U : with_st (fun s => set_seenCount
                 (Z.max (seenCount s)
                    (Z.of_nat (List.length (queue s)) + processingCount s + doneCount s)) s) w1
              = w1).
  { unfold with_st. cbv beta. rewrite Q1, C1, C2, C3.
    rewrite Z.max_l by lia. rewrite <- C1.
    destruct w1 as [? s ? ? ? ? ? ? ? ? ? ? ?]. destruct s. reflexivity. }
  rewrite U. rewrite Q1.
  destruct (negb (Nat.eqb (List.length (queue (st w) ++ new)) 0)) eqn:Z;
    cbn [when]; [|reflexivity].
  apply scheduleTaskDrain_again. rewrite W1. apply scheduleTaskDrain_sets.
Qed.

(** ** Positions *)

Lemma known_duration_positive vd d : known_duration vd = Some d -> (0 < d)%Q.
Proof.
  unfold known_duration. destruct (duration vd) as [x|]; [|discriminate].
  destruct (JS.ltb 0 (JS.fl x)) eqn:E; [|discriminate].
  intros H. injection H as <-. apply ltb_lt. exact E.
Qed.

(** The duration that the script reads is a double. *)
Lemma known_duration_double vd d : known_duration vd = Some d -> is_double d.
Proof.
  unfold known_duration. destruct (duration vd) as [x|]; [|discriminate].
  destruct (JS.ltb 0 (JS.fl x)) eqn:E; [|discriminate].
  intros H. injection H as <-. apply ltb_lt in E. apply fl_is_double.
  destruct (Qlt_le_dec x 0) as [N|P]; [|exact P].
  pose proof (fl_nonpos x (Qlt_le_weak _ _ N)). lra.
Qed.

(** [duration - 0.001], rounded, is not past the duration. *)
Lemma near_end_le d : is_double d -> (JS.sub d JS.milli <= d)%Q.
Proof.
  intros D. unfold JS.sub. apply fl_below_double; [exact D|].
  assert (0 <= JS.milli)%Q by (apply fl_nonneg; discriminate). lra.
Qed.

Lemma end_in_duration vd d :
  known_duration vd = Some d ->
  in_duration (set_currentTime (Qmax 0 (JS.sub d JS.milli)) vd).
Proof.
  intros K d' K'. change (known_duration vd = Some d') in K'.
  assert (d' = d) by congruence. subst d'.
  pose proof (near_end_le d (known_duration_double _ _ K)) as L0.
  apply known_duration_positive in K. cbn [currentTime set_currentTime].
  destruct (Q.max_spec 0 (JS.sub d JS.milli)) as [[L E]|[L E]]; rewrite E; lra.
Qed.

Lemma unknown_in_duration vd x :
  known_duration vd = None -> in_duration (set_currentTime x vd).
Proof.
  intros K d' K'. change (known_duration vd = Some d') in K'. congruence.
Qed.

Lemma step_in_duration vd d x :
  known_duration vd = Some d -> in_duration (set_currentTime (Qmin d x) vd).
Proof.
  intros K d' K'. change (known_duration vd = Some d') in K'.
  assert (d' = d) by congruence. subst d'.
  cbn [currentTime set_currentTime]. apply Q.le_min_l.
Qed.

Ltac at_video H :=
  let u := fresh "u" in
  intros u;
  cbn [videos with_effects with_st with_videos with_settled with_perf_reads
       with_date_reads with_suspended with_drains with_periodicEnq with_periodicDrain];
  try match goal with
      | |- context [Nat.eqb u ?v] => destruct (Nat.eqb_spec u v) as [->|]; [|apply H]
      end.

Lemma page_in_duration w w' :
  page w' = page w -> positions_in_duration w -> positions_in_duration w'.
Proof.
  unfold page, positions_in_duration. intros E H. injection E as E _. rewrite E. exact H.
Qed.

Lemma finish_in_duration v s w :
  positions_in_duration w -> positions_in_duration (exec (finish v s) w).
Proof.
  intros H. unfold finish, push_sample. mred. at_video H.
  intros d K. exact (H v d K).
Qed.

Lemma stepping_in_duration tk w :
  positions_in_duration w -> positions_in_duration (exec (stepping tk) w).
Proof.
  intros H. unfold stepping. mstep.
  destruct (running (st w)); cbn [negb]; mstep; [|apply finish_in_duration; exact H].
  destruct (known_duration (videos w (task_video tk))) as [d|] eqn:K.
  - destruct (JS.leb _ _) eqn:R.
    + destruct (seek_raises _ _); mstep; apply finish_in_duration; [exact H|].
      at_video H. apply end_in_duration. exact K.
    + destruct (seek_raises _ _); mstep; [apply finish_in_duration; exact H|].
      at_video H. apply step_in_duration. exact K.
  - destruct (seek_raises _ _); mstep; [apply finish_in_duration; exact H|].
    at_video H. apply unknown_in_duration. exact K.
Qed.

Lemma resume_in_duration tk w :
  positions_in_duration w -> positions_in_duration (exec (resume tk) w).
Proof.
  intros H. unfold resume. rewrite exec_bind.
  pose proof (stepping_in_duration tk w H) as A.
  destruct (fst (stepping tk w)); mstep; exact A.
Qed.

Lemma instant_in_duration v w :
  positions_in_duration w -> positions_in_duration (exec (instant v) w).
Proof.
  intros H. unfold instant. mstep.
  set (w1 := with_videos _ (with_videos _ w)).
  assert (H1 : positions_in_duration w1).
  { unfold w1. at_video H.
    destruct (mute_raises (videos w v)); cbn [pause_raises set_muted];
      destruct (pause_raises (videos w v)); intros d K; exact (H v d K). }
  destruct (seek_raises _ _); mstep; [exact H1|].
  at_video H1.
  destruct (known_duration (videos w1 v)) as [d|] eqn:K.
  - apply end_in_duration. exact K.
  - apply unknown_in_duration. exact K.
Qed.

Lemma processOneHybrid_in_duration v w :
  positions_in_duration w -> positions_in_duration (exec (processOneHybrid v) w).
Proof.
  intros H. unfold processOneHybrid. mstep.
  match goal with |- context [if ?b then _ else _] => destruct b end; mstep.
  - apply finish_in_duration, instant_in_duration. exact H.
  - apply resume_in_duration. exact H.
Qed.

Lemma drain_loop_in_duration q : forall p w,
  positions_in_duration w -> positions_in_duration (exec (drain_loop q p) w).
Proof.
  induction q as [|u q IH]; intros p w H; [exact H|].
  cbn [drain_loop]. mstep.
  destruct (_ && _); [|rewrite exec_ret; exact H].
  mstep. destruct (fsim_done _).
  - apply IH. exact H.
  - mstep. apply IH, processOneHybrid_in_duration. exact H.
Qed.

Lemma drainTaskBatch_in_duration w :
  positions_in_duration w -> positions_in_duration (exec drainTaskBatch w).
Proof.
  intros H.
  assert (P : page (exec drainTaskBatch w)
              = page (exec (drain_loop (queue (st (with_perf_reads S w))) 0)
                        (with_perf_reads S w))).
  { unfold drainTaskBatch. mstep. rewrite adapt_page. reflexivity. }
  apply (page_in_duration _ _ P). apply drain_loop_in_duration. exact H.
Qed.

Lemma handle_in_duration (e : Event) (w : World) :
  positions_in_duration w -> positions_in_duration (exec (handle e) w).
Proof.
  intros H. destruct e; cbn [handle]; mstep.
  - destruct (drains w); mstep; [exact H|].
    apply (drainTaskBatch_in_duration (with_drains Nat.pred w) H).
  - destruct (settled w); mstep; [exact H|].
    apply (page_in_duration (with_settled Nat.pred w) _ (finally_callback_page _) H).
  - destruct (nth_error (suspended w) k) as [tk|]; mstep; [|exact H].
    apply (resume_in_duration tk (with_suspended (remove_nth k) w) H).
  - destruct ((observing w || stray w) && added); [|exact H].
    apply (page_in_duration w _ (enqueueNewVideos_page vids w) H).
  - destruct (periodicEnq w); mstep; [|exact H].
    destruct (negb (running (st w))); [exact H|].
    apply (page_in_duration w _ (enqueueNewVideos_page vids w) H).
  - destruct (periodicDrain w); mstep; [|exact H].
    destruct (negb (running (st w))); mstep; [exact H|].
    destruct (negb _); rewrite ?exec_ret; [|exact H].
    apply (page_in_duration w _ (scheduleTaskDrain_page w) H).
  - match goal with |- context [if ?b then _ else _] => destruct b end;
      rewrite ?exec_ret; [|exact H].
    apply (page_in_duration w _ (installObserver_page f w) H).
  - apply (page_in_duration w _ (stopAll_page f w) H).
Qed.

(** X13.  The script never seeks a video of known length past its end:
    if every video whose duration is finite and positive has its position
    at or before that duration, this is still so after any sequence of
    callbacks, whichever strategy is used and whether or not position
    writes throw. *)
Theorem position_never_passes_the_end (w : World) (evs : list Event) (v : Id) (d : Q) :
  (forall u x, known_duration (videos w u) = Some x -> (currentTime (videos w u) <= x)%Q) ->
  known_duration (videos (run evs w) v) = Some d ->
  (currentTime (videos (run evs w) v) <= d)%Q.
Proof.
  intros H. revert w H. induction evs as [|e evs IH]; intros w H; [apply H|].
  cbn [run]. apply IH. exact (handle_in_duration e w H).
Qed.

Lemma position_never_passes_the_end_witness :
  known_duration (videos (run [FireTimeout 0; FireTimeout 0] long_parked) 0%nat)
    = Some (inject_Z (5 * 10 ^ 12)) /\
  currentTime (videos (run [FireTimeout 0; FireTimeout 0] long_parked) 0%nat)
    = inject_Z (3 * 10 ^ 12) /\
  (currentTime (videos (run [FireTimeout 0; FireTimeout 0] long_parked) 0%nat)
   <= inject_Z (5 * 10 ^ 12))%Q.
Proof.
  split; [vm_compute; reflexivity|]. split; [vm_compute; reflexivity|].
  apply (position_never_passes_the_end long_parked [FireTimeout 0; FireTimeout 0] 0%nat).
  - intros [|u] x K; vm_compute in K; injection K as <-; vm_compute; discriminate.
  - vm_compute. reflexivity.
Defined.

(** ** The order of service *)

Ltac list_served :=
  unfold served;
  cbn [effects with_effects with_st with_videos with_settled with_perf_reads
       with_date_reads with_suspended with_drains with_periodicEnq with_periodicDrain];
  rewrite ?flat_map_app; cbn [flat_map app]; rewrite ?app_nil_r; try reflexivity.

Lemma finish_served v s w : served (exec (finish v s) w) = served w.
Proof. unfold finish, push_sample. mred. list_served. Qed.

Lemma stepping_served tk w : served (exec (stepping tk) w) = served w.
Proof. unfold stepping, finish, push_sample. mred. break_if; cbn [snd]; list_served. Qed.

Lemma resume_served tk w : served (exec (resume tk) w) = served w.
Proof.
  unfold resume. rewrite exec_bind.
  destruct (fst (stepping tk w)); mstep; rewrite <- (stepping_served tk w); list_served.
Qed.

Lemma instant_served v w : served (exec (instant v) w) = served w.
Proof. unfold instant. mred. break_if; cbn [snd]; list_served. Qed.

Lemma processOneHybrid_served v w :
  served (exec (processOneHybrid v) w) = served w ++ [v].
Proof.
  unfold processOneHybrid. mstep.
  match goal with |- context [if ?b then _ else _] => destruct b end; mstep;
    rewrite ?finish_served, ?instant_served, ?resume_served; list_served.
Qed.

(** A call touches no video but its own. *)
Lemma finish_others v s w u : u <> v -> videos (exec (finish v s) w) u = videos w u.
Proof.
  intros N. unfold finish, push_sample. mred. cbn.
  destruct (Nat.eqb_spec u v); [contradiction|reflexivity].
Qed.

Lemma stepping_others tk w u :
  u <> task_video tk -> videos (exec (stepping tk) w) u = videos w u.
Proof.
  intros N. unfold stepping, finish, push_sample. mred.
  break_if; cbn; destruct (Nat.eqb_spec u (task_video tk)); try contradiction; reflexivity.
Qed.

Lemma resume_others tk w u :
  u <> task_video tk -> videos (exec (resume tk) w) u = videos w u.
Proof.
  intros N. unfold resume. rewrite exec_bind.
  destruct (fst (stepping tk w)); mstep; rewrite <- (stepping_others tk w u N); reflexivity.
Qed.

Lemma instant_others v w u : u <> v -> videos (exec (instant v) w) u = videos w u.
Proof.
  intros N. unfold instant. mred.
  break_if; cbn; destruct (Nat.eqb_spec u v); try contradiction; reflexivity.
Qed.

Lemma processOneHybrid_others v w u :
  u <> v -> videos (exec (processOneHybrid v) w) u = videos w u.
Proof.
  intros N. unfold processOneHybrid. mstep.
  match goal with |- context [if ?b then _ else _] => destruct b end; mstep;
    rewrite ?finish_others, ?instant_others, ?resume_others by assumption; reflexivity.
Qed.

Lemma drain_loop_serves (q : list Id) : forall (p : Z) (w : World),
  queue (st w) = q ->
  exists taken new,
    queue (st w) = taken ++ queue (st (exec (drain_loop q p) w)) /\
    served (exec (drain_loop q p) w) = served w ++ new /\
    picked_from new taken /\
    (forall v, In v new -> fsim_done (videos w v) = false) /\
    (forall v, In v taken -> fsim_done (videos w v) = true \/ In v new).
Proof.
  induction q as [|v q IH]; intros p w Hq.
  - exists [], []. cbn. rewrite Hq, app_nil_r.
    split; [reflexivity|]. split; [reflexivity|]. split; [constructor|].
    split; intros v [].
  - cbn [drain_loop]. mstep.
    destruct (_ && _).
    2:{ rewrite exec_ret. exists [], []. cbn. rewrite app_nil_r.
        split; [reflexivity|]. split; [reflexivity|]. split; [constructor|].
        split; intros u []. }
    mstep. set (w1 := with_st (set_queue q) w).
    destruct (fsim_done (videos w1 v)) eqn:D.
    + destruct (IH p w1 eq_refl) as (taken & new & A & B & C & E & F).
      exists (v :: taken), new. rewrite Hq.
      split; [cbn; f_equal; exact A|]. split; [exact B|]. split; [constructor; exact C|].
      split; [exact E|].
      intros u [<-|Hu]; [left; exact D|exact (F u Hu)].
    + mstep.
      set (w2 := with_st (fun s => set_processingCount (processingCount s + 1) s) w1).
      assert (Q3 : queue (st (exec (processOneHybrid v) w2)) = q).
      { pose proof (processOneHybrid_control v w2) as X. unfold control in X.
        injection X as _ _ _ _ _ _ X. exact X. }
      destruct (IH (p + 1) (exec (processOneHybrid v) w2) Q3)
        as (taken & new & A & B & C & E & F).
      exists (v :: taken), (v :: new). rewrite Hq.
      split; [cbn; f_equal; rewrite <- Q3 at 1; exact A|].
      split; [rewrite B, processOneHybrid_served, <- app_assoc; reflexivity|].
      split; [constructor; exact C|].
      assert (M : forall u, fsim_done (videos w u) = true ->
                            fsim_done (videos (exec (processOneHybrid v) w2) u) = true).
      { intros u Hu. apply (processOneHybrid_marked u v w2). exact Hu. }
      split.
      * intros u [<-|Hu]; [exact D|].
        specialize (E u Hu). destruct (fsim_done (videos w u)) eqn:X; [|reflexivity].
        rewrite (M u X) in E. discriminate.
      * intros u [<-|Hu]; [right; left; reflexivity|].
        destruct (F u Hu) as [G|G]; [|right; right; exact G].
        destruct (Nat.eq_dec u v) as [->|N]; [right; left; reflexivity|].
        left. rewrite processOneHybrid_others in G by exact N. exact G.
Qed.

(** X14.  An activation of the drainer serves the queue front to back and
    drops nothing: it removes a prefix of the queue; the videos it calls
    [processOneHybrid] on are entries of that prefix, in queue order, none
    of them marked done; and every entry it removed without launching it
    was already marked done. *)
Theorem activation_serves_queue_in_order (w : World) :
  exists taken new,
    queue (st w) = taken ++ queue (st (exec drainTaskBatch w)) /\
    served (exec drainTaskBatch w) = served w ++ new /\
    picked_from new taken /\
    (forall v, In v new -> fsim_done (videos w v) = false) /\
    (forall v, In v taken -> fsim_done (videos w v) = true \/ In v new).
Proof.
  set (w0 := with_perf_reads S w).
  destruct (drain_loop_serves (queue (st w0)) 0 w0 eq_refl)
    as (taken & new & A & B & C & D & E).
  assert (P : page (exec drainTaskBatch w) = page (exec (drain_loop (queue (st w0)) 0) w0)).
  { unfold drainTaskBatch. mstep. rewrite adapt_page. reflexivity. }
  assert (Q : queue (st (exec drainTaskBatch w))
              = queue (st (exec (drain_loop (queue (st w0)) 0) w0))).
  { unfold drainTaskBatch. mstep.
    match goal with |- context [exec adaptCoreParameters ?w5] =>
      pose proof (adapt_effect w5) as X end.
    cbv zeta in X. destruct X as (_ & _ & _ & _ & X & _). rewrite X. reflexivity. }
  exists taken, new. rewrite Q.
  split; [exact A|]. split; [|split; [exact C|split; [exact D|exact E]]].
  unfold page in P. injection P as _ P. unfold served in *. rewrite P. exact B.
Qed.

(** ** To the end of the video *)

Lemma at_end_after_step d v w w1 w' :
  doneCount (st w1) = doneCount (st w) ->
  (exists pre, effects w1 = effects w ++ pre) ->
  at_end d v w1 w' -> at_end d v w w'.
Proof.
  intros D [pre E] (A & B & [pre' C]). unfold at_end. rewrite <- D.
  split; [exact A|]. split; [exact B|].
  exists (pre ++ pre'). rewrite C, E, <- !app_assoc. reflexivity.
Qed.

Section ToTheEnd.

Variable tk : Task.
Variable d : Q.
Hypothesis step_pos : (0 < task_step tk)%Q.
Hypothesis reach : within_reach d (task_step tk).

Let v := task_video tk.

Lemma stepping_to_end (w : World) :
  running (st w) = true ->
  known_duration (videos w v) = Some d ->
  writable (videos w v) ->
  (0 <= currentTime (videos w v))%Q ->
  let w' := exec (stepping tk) w in
  suspended w' = suspended w /\
  match fst (stepping tk w) with
  | Returned => at_end d v w w'
  | Awaiting =>
      running (st w') = true /\
      known_duration (videos w' v) = Some d /\
      writable (videos w' v) /\
      (0 <= currentTime (videos w' v))%Q /\
      (remaining d (videos w' v) <= remaining d (videos w v) - pace (task_step tk)
       \/ remaining d (videos w' v) <= 0)%Q /\
      (1 # 2 < remaining d (videos w v))%Q /\
      doneCount (st w') = doneCount (st w) /\
      effects w' = effects w ++ [Stepped v]
  end.
Proof.
  subst v. revert step_pos reach. destruct tk as [v s step].
  cbn [task_video task_step task_start]. intros Hs Hr R K W C0. cbv zeta. unfold stepping.
  cbn [task_video task_step task_start]. mstep.
  rewrite R. cbn [negb]. mstep. rewrite K.
  destruct (JS.leb _ (1 # 2)) eqn:L; rewrite W; mstep.
  - match goal with |- context [exec (finish v s) ?w0] =>
      destruct (finish_spec v s w0) as ((F1 & _) & S1 & E & C)
    end.
    split; [exact S1|]. unfold at_end. rewrite C, E. cbn. rewrite Nat.eqb_refl. cbn.
    split; [reflexivity|]. split; [first [exact F1|reflexivity]|].
    exists []. rewrite <- ?app_assoc. reflexivity.
  - cbn. rewrite Nat.eqb_refl.
    apply leb_gt in L.
    assert (C1 : (0 <= JS.or_default (currentTime (videos w v)) 0)%Q)
      by (rewrite or_default_zero; exact C0).
    destruct (step_gains d _ step Hs C1 Hr L) as (G1 & G2 & G3).
    split; [reflexivity|]. split; [exact R|].
    split; [unfold known_duration in *; cbn; exact K|].
    split; [intros x; cbn; apply W|].
    split; [exact G1|].
    split; [|split; [exact G2|split; reflexivity]].
    unfold remaining. cbn [currentTime set_currentTime].
    rewrite (or_default_zero (Qmin _ _)). exact G3.
Qed.

Lemma parked_reaches_end (l : list Task) : forall (n : nat) (w : World),
  suspended w = l ++ [tk] ->
  running (st w) = true ->
  known_duration (videos w v) = Some d ->
  writable (videos w v) ->
  (0 <= currentTime (videos w v))%Q ->
  (remaining d (videos w v) <= inject_Z (Z.of_nat n) * pace (task_step tk))%Q ->
  let w' := run (timeouts (List.length l) (S n)) w in
  at_end d v w w' /\ suspended w' = l.
Proof.
  pose proof (pace_pos (task_step tk) step_pos) as Hp.
  induction n as [|n IH]; intros w P R K W C M; cbv zeta;
    rewrite run_timeouts_S, (handle_timeout_parked l tk w P);
    unfold resume; rewrite exec_bind;
    set (w0 := with_suspended (fun _ => l) w);
    (assert (K0 : known_duration (videos w0 v) = Some d) by exact K);
    (assert (R0 : running (st w0) = true) by exact R);
    (assert (W0 : writable (videos w0 v)) by exact W);
    (assert (C0 : (0 <= currentTime (videos w0 v))%Q) by exact C);
    pose proof (stepping_to_end w0 R0 K0 W0 C0) as H; cbv zeta in H;
    destruct H as [S0 H];
    destruct (fst (stepping tk w0)); mstep.
  - exfalso. destruct H as (_ & _ & _ & _ & _ & H & _).
    change (videos w0 v) with (videos w v) in H.
    change (inject_Z (Z.of_nat 0)) with 0%Q in M. lra.
  - split; [exact H|exact S0].
  - destruct H as (R1 & K1 & W1 & C1 & M1 & M0 & D1 & E1).
    set (w1 := with_suspended _ _).
    destruct (IH w1) as [F S2].
    + unfold w1. cbn. rewrite S0. reflexivity.
    + exact R1.
    + exact K1.
    + exact W1.
    + exact C1.
    + change (videos w1 v) with (videos (exec (stepping tk) w0) v).
      change (videos w0 v) with (videos w v) in M1.
      rewrite Nat2Z.inj_succ in M. unfold Z.succ in M. rewrite inject_Z_plus in M.
      change (inject_Z 1) with 1%Q in M.
      assert (0 <= inject_Z (Z.of_nat n))%Q.
      { change 0%Q with (inject_Z 0). rewrite <- Zle_Qle. lia. }
      destruct M1 as [M1|M1]; [lra|].
      apply Qle_trans with (1 := M1). apply Qmult_le_0_compat; lra.
    + split; [|exact S2].
      apply at_end_after_step with (w1 := w1); try assumption.
      exists [Stepped v]. exact E1.
  - split; [|rewrite timeouts_idle; [exact S0|]].
    + rewrite timeouts_idle; [exact H|].
      rewrite S0. apply nth_error_None. cbn. lia.
    + rewrite S0. apply nth_error_None. cbn. lia.
Qed.

End ToTheEnd.

Lemma instant_to_end (v : Id) (d : Q) (w : World) :
  known_duration (videos w v) = Some d -> writable (videos w v) ->
  let w' := exec (instant v) w in
  currentTime (videos w' v) = Qmax 0 (JS.sub d JS.milli) /\
  doneCount (st w') = doneCount (st w) /\
  suspended w' = suspended w /\
  effects w' = effects w ++ [Dispatched v "timeupdate"; Dispatched v "seeked";
                             Dispatched v "pause"; Dispatched v "ended"].
Proof.
  intros K W. cbv zeta. unfold instant. mstep. cbn [videos with_videos].
  rewrite Nat.eqb_refl.
  set (vd := if pause_raises _ then _ else _).
  assert (K1 : known_duration vd = Some d).
  { unfold vd. destruct (mute_raises (videos w v)); cbn [pause_raises set_muted];
      destruct (pause_raises (videos w v)); exact K. }
  assert (W1 : writable vd).
  { intros x. unfold vd. destruct (mute_raises (videos w v)); cbn [pause_raises set_muted];
      destruct (pause_raises (videos w v)); apply W. }
  rewrite K1, W1. mstep. cbn. rewrite Nat.eqb_refl. cbn.
  rewrite <- !app_assoc. repeat split.
Qed.

(** X15.  A video of known length ends at its end.  With positive step
    settings, while the script runs, for a video whose duration [d] is
    finite and positive, whose position is not negative and whose position
    writes succeed, and, unless the instant jump is chosen, for [d] within
    reach of the step ([d <= 2^50 * min(step, 0.5)], so that the rounding
    of the position to a double never absorbs a step): the call of
    [processOneHybrid] is over after finitely many of its own timeouts
    (none for the instant jump); the position is then
    [Math.max(0, duration - 0.001)], computed in doubles; the video is
    marked done; and the last effects of the call are the dispatch of
    ["ended"], the cleanup and the notification, in that order. *)
Theorem known_video_reaches_its_end (w : World) (v : Id) (d : Q) :
  (0 < skipStepBase (conf w))%Q -> (0 < skipStepMax (conf w))%Q ->
  (0 <= skipStep (st w))%Q ->
  running (st w) = true ->
  known_duration (videos w v) = Some d ->
  (forall x, seek_raises (videos w v) x = false) ->
  (0 <= currentTime (videos w v))%Q ->
  prefers_instant w v = true \/ within_reach d (stride w) ->
  exists n : nat,
    currentTime
      (videos (run (timeouts (List.length (suspended w)) n) (exec (processOneHybrid v) w)) v)
      = Qmax 0 (JS.sub d JS.milli) /\
    fsim_done
      (videos (run (timeouts (List.length (suspended w)) n) (exec (processOneHybrid v) w)) v)
      = true /\
    (exists pre,
       effects (run (timeouts (List.length (suspended w)) n) (exec (processOneHybrid v) w))
       = effects w ++ Launched v :: pre
         ++ [Dispatched v "ended"; CleanedUp v; Toast (doneCount (st w) + 1)]) /\
    suspended (run (timeouts (List.length (suspended w)) n) (exec (processOneHybrid v) w))
      = suspended w.
Proof.
  intros Hb Ht Hk R K W Cp Hr.
  assert (G : exists n, at_end d v (with_perf_reads S (with_effects (fun l => l ++ [Launched v]) w))
                          (run (timeouts (List.length (suspended w)) n)
                             (exec (processOneHybrid v) w)) /\
                        suspended (run (timeouts (List.length (suspended w)) n)
                                     (exec (processOneHybrid v) w)) = suspended w).
  { unfold processOneHybrid. mstep.
    set (w0 := with_perf_reads S (with_effects (fun l => l ++ [Launched v]) w)).
    change (match readyState (videos w0 v) with
            | Some r => preferInstantReadyState (conf w0) <=? r
            | None => true
            end &&
            (match readyState (videos w0 v) with
             | Some r => preferInstantReadyState (conf w0) <=? r
             | None => true
             end && JS.ltb (2 # 5) (readyRate (st w0))))
      with (prefers_instant w v).
    destruct (prefers_instant w v) eqn:P.
    - exists O. cbn [timeouts repeat run]. mstep.
      destruct (instant_to_end v d w0 K W) as (I1 & I2 & I3 & I4). cbv zeta in *.
      match goal with |- context [exec (finish v ?s) ?wi] =>
        destruct (finish_spec v s wi) as ((F1 & _) & S1 & E & C)
      end.
      split; [|rewrite S1, I3; reflexivity].
      unfold at_end. rewrite C, I1, E, I4, I2.
      split; [reflexivity|]. split; [exact F1|].
      exists [Dispatched v "timeupdate"; Dispatched v "seeked"; Dispatched v "pause"].
      rewrite <- !app_assoc. reflexivity.
    - destruct Hr as [Hr|Hr]; [discriminate|].
      mstep. set (tk := mkTask v _ _).
      assert (Hs : (0 < task_step tk)%Q) by (apply step_positive; assumption).
      unfold resume. rewrite exec_bind.
      pose proof (stepping_to_end tk d Hs Hr w0 R K W Cp) as H. cbv zeta in H.
      destruct H as [S0 H].
      destruct (fst (stepping tk w0)).
      + destruct H as (R1 & K1 & W1 & C1 & M1 & M0 & D1 & E1). mstep.
        set (w1 := with_suspended _ _).
        destruct (archimedes (remaining d (videos w1 v)) (pace (task_step tk))
                    (pace_pos _ Hs)) as [n Hn].
        exists (S n).
        destruct (parked_reaches_end tk d Hs Hr (suspended w) n w1) as [F S2].
        * unfold w1. cbn. rewrite S0. reflexivity.
        * exact R1.
        * exact K1.
        * exact W1.
        * exact C1.
        * exact Hn.
        * split; [|exact S2].
          apply (at_end_after_step d v w0 w1); try assumption.
          exists [Stepped v]. exact E1.
      + exists O. cbn [timeouts repeat run]. mstep. split; [exact H|exact S0]. }
  destruct G as (n & (A & B & [pre C]) & D). exists n.
  split; [exact A|]. split; [exact B|]. split; [|exact D].
  exists pre. rewrite C. cbn. rewrite <- !app_assoc. reflexivity.
Qed.

Lemma known_video_reaches_its_end_witness :
  let w := initial (CONF None) (fun _ => buffering) still still in
  (prefers_instant w 0%nat = false /\ within_reach 100 (stride w) /\
   (Qmax 0 (JS.sub 100 JS.milli) == 3518402024511111 # 35184372088832)%Q) /\
  exists n : nat,
    currentTime
      (videos (run (timeouts (List.length (suspended w)) n) (exec (processOneHybrid 0%nat) w))
         0%nat)
      = Qmax 0 (JS.sub 100 JS.milli) /\
    fsim_done
      (videos (run (timeouts (List.length (suspended w)) n) (exec (processOneHybrid 0%nat) w))
         0%nat)
      = true /\
    (exists pre,
       effects (run (timeouts (List.length (suspended w)) n) (exec (processOneHybrid 0%nat) w))
       = effects w ++ Launched 0%nat :: pre
         ++ [Dispatched 0%nat "ended"; CleanedUp 0%nat; Toast (doneCount (st w) + 1)]) /\
    suspended (run (timeouts (List.length (suspended w)) n) (exec (processOneHybrid 0%nat) w))
      = suspended w.
Proof.
  cbv zeta.
  assert (Hr : within_reach 100
                 (stride (initial (CONF None) (fun _ => buffering) still still)))
    by (vm_compute; discriminate).
  split; [split; [vm_compute; reflexivity|split; [exact Hr|vm_compute; reflexivity]]|].
  apply (known_video_reaches_its_end
           (initial (CONF None) (fun _ => buffering) still still) 0%nat 100%Q).
  - vm_compute. reflexivity.
  - vm_compute. reflexivity.
  - vm_compute. discriminate.
  - reflexivity.
  - vm_compute. reflexivity.
  - intros x. reflexivity.
  - vm_compute. discriminate.
  - right. exact Hr.
Defined.

(** ** Cleanup *)

Section CleanupFacts.
Import Cleanup.

Lemma forEach_stop (v : Media) (tracks : list nat) : forall log,
  forEach tracks (fun t => try_ (call v (Stop t))) log
  = (Normal tt, log ++ map Stop tracks).
Proof.
  induction tracks as [|t tracks IH]; intros log; cbn [forEach map].
  - unfold ret. rewrite app_nil_r. reflexivity.
  - unfold bind, try_ at 1, call. cbn [snd]. rewrite IH.
    rewrite <- app_assoc. reflexivity.
Qed.

Lemma cleanup_run (c : Conf) (v : Media) (log : list Op) :
  cleanupVideoResources c v log
  = (Normal tt, log ++ release_url v ++ release_stream v ++ reset_element c v).
Proof.
  unfold cleanupVideoResources, release_url, release_stream, reset_element.
  unfold try_ at 1. f_equal. cbv zeta.
  set (stop := fun t => try_ (call v (Stop t))).
  destruct (is_blob (source v)); destruct (srcObject v) as [[[tracks|]|]|];
    destruct (cleanupAfterFinish c), (cleanupOnlyBlobSrc c), (load v);
    unfold bind, try_, call, ret, throw; cbn [snd fst andb orb negb];
    unfold stop; rewrite ?forEach_stop; cbn [snd fst];
    rewrite <- ?app_assoc; cbn [app]; rewrite ?app_nil_r; reflexivity.
Qed.

(** X16.  [cleanupVideoResources] is best effort: it never throws, and
    the calls it makes on the page do not depend on which of them throw.
    They are, in this order: for a [blob:] source, [URL.revokeObjectURL]
    and [removeAttribute("src")]; for a [srcObject], [stop()] on every
    track that [getTracks()] gives (none if it throws or is missing) and
    then the reset of [srcObject]; and, if [cleanupAfterFinish] is set and
    either [cleanupOnlyBlobSrc] is off or the source is a [blob:] URL,
    [removeAttribute("src")] and [load()].  The first two groups are made
    whatever the configuration says. *)
Theorem cleanup_is_best_effort (c : Conf) (v : Media) :
  cleanupVideoResources c v []
  = (Normal tt, release_url v ++ release_stream v ++ reset_element c v).
Proof. apply (cleanup_run c v []). Qed.

(** X17.  With [cleanupOnlyBlobSrc] set, as it is by default, a video
    whose source is not a [blob:] URL keeps its source: the only calls
    made on it stop the tracks of its stream and reset [srcObject]; no URL
    is revoked, the [src] attribute is not removed and [load()] is not
    called.  Without a [srcObject] nothing is called at all. *)
Theorem default_cleanup_spares_foreign_sources (c : Conf) (v : Media) :
  cleanupOnlyBlobSrc c = true -> is_blob (source v) = false ->
  (forall op, In op (calls c v) -> touches_source op = false) /\
  (srcObject v = None -> calls c v = []).
Proof.
  intros Hc Hb. unfold calls. rewrite cleanup_run. cbn [snd app].
  unfold release_url, reset_element. rewrite Hb, Hc.
  rewrite andb_false_r. cbn [app]. rewrite app_nil_r.
  unfold release_stream. split.
  - intros op. destruct (srcObject v) as [[[tracks|]|]|]; cbn [In].
    + rewrite in_app_iff, in_map_iff. intros [(t & <- & _)|[<-|[]]]; reflexivity.
    + intros [<-|[]]; reflexivity.
    + intros [<-|[]]; reflexivity.
    + intros [].
  - intros ->. reflexivity.
Qed.

Lemma default_cleanup_spares_foreign_sources_witness :
  calls (CONF None) hostile = [Stop 1; Stop 2; ClearSrcObject] /\
  (forall op, In op (calls (CONF None) hostile) -> touches_source op = false).
Proof.
  split; [reflexivity|].
  apply (default_cleanup_spares_foreign_sources (CONF None) hostile); reflexivity.
Defined.

End CleanupFacts.
